(** * IPTV aggregator: a shallow embedding of the orchestration core

    The development follows the Python sources under [M3U8/]:
    - [scrapers/utils/webwork.py]  (class [Network]),
    - [scrapers/utils/config.py]  (classes [Time] and [Leagues]),
    - [scrapers/ppv.py], [scrapers/fstv.py], [scrapers/watchfooty.py],
      [scrapers/tvpass.py], [scrapers/lotus.py], [scrapers/streambtw.py],
    - [fetch.py]  (the top-level [main]).

    Conventions of the embedding.
    - Python [str] is [string] (a sequence of bytes; the sources only
      inspect ASCII characters, except [fix_league], whose [str] methods
      are parameters), [dict] with string keys is [gmap string _],
      [set[str]] is [gset string].
    - Time stamps are integers ([Z], seconds); durations and deadlines of
      the asyncio model are natural numbers in one common unit.
    - A call that may raise returns an [outcome]; a call that may never
      come back (an awaited task that ignores cancellation) returns an
      [option] of it.
    - Module level dictionaries ([urls]) and the effects on pages are
      threaded explicitly.
    - What a library outside the repository decides is a parameter of the
      definitions: [urljoin], the range of [datetime.fromtimestamp]
      ([out_of_range]), the outcome of a resolution in a browser. *)

From Stdlib Require Import ZArith Lia Ascii.
From stdpp Require Import gmap strings list sorting pretty.

Open Scope Z_scope.

(** ** Python exceptions and outcomes *)

(** The exception classes the sources raise or catch.  [CancelledError] and
    [KeyboardInterrupt] derive from [BaseException] only, every other class
    here derives from [Exception].  [TimeoutError] is the builtin one (and
    [asyncio.TimeoutError], its alias); [PlaywrightTimeout] is Playwright's
    own class, which is not a subclass of the builtin. *)
Inductive exn : Type :=
  | TimeoutError
  | CancelledError
  | KeyboardInterrupt
  | KeyError (k : string)
  | IndexError
  | TypeError
  | AttributeError
  | HTTPError
  | InvalidURL
  | PlaywrightTimeout
  | ValueError
  | PlaywrightError (msg : string)
  | RuntimeError (msg : string).

Global Instance exn_eq_dec : EqDecision exn.
Proof. solve_decision. Defined.

(** [isinstance(e, Exception)] *)
Definition is_Exception (e : exn) : bool :=
  match e with
  | CancelledError | KeyboardInterrupt => false
  | _ => true
  end.

Inductive outcome (A : Type) : Type :=
  | Returned (a : A)
  | Raised (e : exn).
Arguments Returned {A} a.
Arguments Raised {A} e.

Definition is_raised {A} (o : outcome A) : bool :=
  match o with Raised _ => true | Returned _ => false end.

Definition bind_outcome {A B} (o : outcome A) (k : A -> outcome B) : outcome B :=
  match o with
  | Returned a => k a
  | Raised e => Raised e
  end.

(** ** Logging *)

Inductive level : Type := DEBUG | INFO | WARNING | ERROR.

Global Instance level_eq_dec : EqDecision level.
Proof. solve_decision. Defined.

Record log_record : Type := LogRecord { lvl : level; msg : string }.

Global Instance log_record_eq_dec : EqDecision log_record.
Proof. solve_decision. Defined.

(** ** Stream entries *)

(** The dictionaries the adapters store per key.  ["url"] is [None] when a
    resolution produced nothing; ["href"] is only set by the fstv adapter. *)
Record entry : Type := Entry {
  e_url : option string;
  e_logo : string;
  e_base : string;
  e_timestamp : Z;
  e_id : string;
  e_href : option string
}.

Global Instance entry_eq_dec : EqDecision entry.
Proof. solve_decision. Defined.

(** Truth value of a [str | None]: [None] and the empty string are falsy. *)
Definition truthy (s : option string) : bool :=
  match s with
  | Some (String _ _) => true
  | _ => false
  end.

(** [a | b] on dictionaries: the right operand wins on common keys. *)
Definition dict_or {V} (a b : gmap string V) : gmap string V := b ∪ a.

(** [d.update(other)] *)
Definition dict_update {V} (d other : gmap string V) : gmap string V := other ∪ d.

(** ** Text helpers *)

Definition dquote : ascii := "034"%char.
Definition newline : string := String "010"%char "".

(** [sep.join(parts)] *)
Fixpoint join (sep : string) (parts : list string) : string :=
  match parts with
  | [] => ""
  | [p] => p
  | p :: rest => p +:+ sep +:+ join sep rest
  end.

(** Longest prefix of decimal digits, as a number and a count. *)
Fixpoint take_digits (acc : Z) (n : nat) (s : string) : Z * nat * string :=
  match s with
  | String c s' =>
      match Ascii.is_nat c with
      | Some d => take_digits (10 * acc + Z.of_nat d) (S n) s'
      | None => (acc, n, s)
      end
  | EmptyString => (acc, n, s)
  end.

Fixpoint strip_prefix (p s : string) : option string :=
  match p, s with
  | EmptyString, _ => Some s
  | String a p', String b s' => if decide (a = b) then strip_prefix p' s' else None
  | String _ _, EmptyString => None
  end.

(** [s.lower()] on ASCII letters. *)
Definition lower_ascii (c : ascii) : ascii :=
  let n := nat_of_ascii c in
  if ((65 <=? n) && (n <=? 90))%nat then ascii_of_nat (n + 32) else c.

Fixpoint lower (s : string) : string :=
  match s with
  | EmptyString => EmptyString
  | String c s' => String (lower_ascii c) (lower s')
  end.

Definition starts_with (p s : string) : bool :=
  match strip_prefix p s with Some _ => true | None => false end.

(** [needle in hay] *)
Fixpoint contains (needle hay : string) : bool :=
  starts_with needle hay ||
  match hay with
  | EmptyString => false
  | String _ hay' => contains needle hay'
  end.

(** Case-insensitive containment of a lower-case needle. *)
Definition contains_ci (needle hay : string) : bool := contains needle (lower hay).

(** ** A model of the asyncio primitives the sources call *)

Module asyncio.

(** A coroutine as the task running it sees it: left alone it finishes after
    [duration] (never, when [None]) with [result]; cancelled while still
    pending it finishes with [on_cancel] (never, when [None]: it swallows the
    cancellation and goes on forever). *)
Record coro (A : Type) : Type := Coro {
  duration : option nat;
  result : outcome A;
  on_cancel : option (outcome A)
}.
Arguments Coro {A} _ _ _.
Arguments duration {A} _.
Arguments result {A} _.
Arguments on_cancel {A} _.

Inductive task_state (A : Type) : Type :=
  | Pending
  | Cancelling
  | Done (o : outcome A).
Arguments Pending {A}.
Arguments Cancelling {A}.
Arguments Done {A} o.

(** [task.done()] *)
Definition done {A} (st : task_state A) : bool :=
  match st with Done _ => true | _ => false end.

(** [task.cancel()]: a request; a finished task is left as it is. *)
Definition cancel {A} (st : task_state A) : task_state A :=
  match st with Pending => Cancelling | _ => st end.

(** [await task]: the awaiter gets the task's outcome once the task is done. *)
Definition await {A} (c : coro A) (st : task_state A)
  : option (outcome A * task_state A) :=
  match st with
  | Done o => Some (o, Done o)
  | Cancelling =>
      match on_cancel c with
      | Some o => Some (o, Done o)
      | None => None
      end
  | Pending =>
      match duration c with
      | Some _ => Some (result c, Done (result c))
      | None => None
      end
  end.

(** [fn] finishes by itself strictly before the deadline. *)
Definition completes_before {A} (c : coro A) (timeout : nat) : bool :=
  match duration c with
  | Some d => (d <? timeout)%nat
  | None => false
  end.

(** What [wait_for] does with the task at the deadline: current CPython
    cancels it and waits until it has finished; the historical behaviour
    only requested the cancellation. *)
Inductive flavour : Type := CancelAndWait | CancelOnly.

(** [await asyncio.wait_for(task, timeout)], for a caller that is not itself
    cancelled meanwhile.  After a cancel-and-wait the task's own outcome is
    re-raised unless it is [CancelledError], which becomes [TimeoutError]. *)
Definition wait_for {A} (fl : flavour) (c : coro A) (st : task_state A)
    (timeout : nat) : option (outcome A * task_state A) :=
  match st with
  | Done o => Some (o, Done o)
  | _ =>
      if completes_before c timeout then Some (result c, Done (result c))
      else
        match fl with
        | CancelOnly => Some (Raised TimeoutError, Cancelling)
        | CancelAndWait =>
            match on_cancel c with
            | None => None
            | Some (Raised CancelledError) =>
                Some (Raised TimeoutError, Done (Raised CancelledError))
            | Some o => Some (o, Done o)
            end
        end
  end.

(** The caller's own task may be cancelled while it is inside [wait_for],
    [i] after the call began.  That cancellation counts when it comes
    strictly before both the end of the awaited task and the deadline. *)
Definition interrupts {A} (c : coro A) (timeout : nat) (interrupt : option nat)
  : option nat :=
  match interrupt with
  | Some i =>
      if (i <? timeout)%nat &&
         match duration c with Some d => (i <? d)%nat | None => true end
      then Some i else None
  | None => None
  end.

(** [wait_for] for such a caller: on its cancellation the awaited task is
    cancelled as at the deadline and [CancelledError] is raised in the
    caller. *)
Definition wait_for_interruptible {A} (fl : flavour) (c : coro A)
    (st : task_state A) (timeout : nat) (interrupt : option nat)
  : option (outcome A * task_state A) :=
  match st with
  | Done o => Some (o, Done o)
  | _ =>
      match interrupts c timeout interrupt with
      | Some _ =>
          match fl with
          | CancelOnly => Some (Raised CancelledError, Cancelling)
          | CancelAndWait =>
              match on_cancel c with
              | None => None
              | Some o => Some (Raised CancelledError, Done o)
              end
          end
      | None => wait_for fl c st timeout
      end
  end.

(** Time spent by the caller inside that [wait_for]. *)
Definition wait_elapsed {A} (c : coro A) (timeout : nat) (interrupt : option nat)
  : nat :=
  match interrupts c timeout interrupt with
  | Some i => i
  | None => if completes_before c timeout then default timeout (duration c) else timeout
  end.

(** An element of the list [asyncio.gather] with [return_exceptions=True] returns. *)
Inductive gathered (A : Type) : Type :=
  | Value (a : A)
  | ExcValue (e : exn).
Arguments Value {A} a.
Arguments ExcValue {A} e.

Definition as_gathered {A} (o : outcome A) : gathered A :=
  match o with Returned a => Value a | Raised e => ExcValue e end.

(** [await asyncio.gather] of the tasks with [return_exceptions=True]: one element per
    awaitable, in the order of the arguments, whenever each one finished. *)
Definition gather_return_exceptions {A} (tasks : list (nat * outcome A))
  : list (gathered A) :=
  map (fun t => as_gathered (snd t)) tasks.

(** The exception that is raised first in time (the earliest argument on a
    tie), if any. *)
Definition first_raised {A} (tasks : list (nat * outcome A)) : option (nat * exn) :=
  foldl (fun acc t =>
           match snd t with
           | Returned _ => acc
           | Raised e =>
               match acc with
               | Some (t', _) => if (fst t <? t')%nat then Some (fst t, e) else acc
               | None => Some (fst t, e)
               end
           end) None tasks.

Definition returned_values {A} (tasks : list (nat * outcome A)) : list A :=
  omap (fun t => match snd t with Returned a => Some a | Raised _ => None end) tasks.

(** [await asyncio.gather] of the tasks, with no keyword: the first exception raised by any
    awaitable is propagated at once to the awaiting task; only when none
    raises does it return the list of results. *)
Definition gather {A} (tasks : list (nat * outcome A)) : outcome (list A) :=
  match first_raised tasks with
  | Some (_, e) => Raised e
  | None => Returned (returned_values tasks)
  end.

End asyncio.

(** ** Effects of the page-driving code: clock, log records, page operations *)

Inductive op : Type :=
  | NewPage | On | Goto | WaitForSelector | TaskCreate | TaskCancel | TaskAwait
  | RemoveListener | Close.

Global Instance op_eq_dec : EqDecision op.
Proof. solve_decision. Defined.

Record world : Type := World {
  clock : nat;
  logs : list log_record;
  trace : list op
}.

(** A computation may raise, and may fail to come back at all ([None]). *)
Definition M (A : Type) : Type := world -> option (outcome A * world).

Definition ret {A} (a : A) : M A := fun w => Some (Returned a, w).
Definition raise {A} (e : exn) : M A := fun w => Some (Raised e, w).
Definition of_outcome {A} (o : outcome A) : M A := fun w => Some (o, w).

Definition bind {A B} (m : M A) (k : A -> M B) : M B :=
  fun w =>
    match m w with
    | Some (Returned a, w') => k a w'
    | Some (Raised e, w') => Some (Raised e, w')
    | None => None
    end.

Declare Scope py_scope.
Delimit Scope py_scope with py.
Notation "x <- m ;; k" := (bind m (fun x => k))
  (at level 20, m at level 99, k at level 200, only parsing) : py_scope.
Notation "m ;; k" := (bind m (fun _ => k))
  (at level 100, k at level 200, only parsing, right associativity) : py_scope.

(** [try: m  except <classes>: h] *)
Definition try_except {A} (m : M A) (catches : exn -> bool) (h : exn -> M A) : M A :=
  fun w =>
    match m w with
    | Some (Raised e, w') => if catches e then h e w' else Some (Raised e, w')
    | r => r
    end.

(** [try: m  finally: f]: [f] always runs; what it raises replaces the
    outcome of [m]. *)
Definition try_finally {A} (m : M A) (f : M unit) : M A :=
  fun w =>
    match m w with
    | Some (o, w') =>
        match f w' with
        | Some (Returned _, w'') => Some (o, w'')
        | Some (Raised e, w'') => Some (Raised e, w'')
        | None => None
        end
    | None => None
    end.

Definition emit (o : op) : M unit :=
  fun w => Some (Returned tt, World (clock w) (logs w) (trace w ++ [o])).

Definition tick (d : nat) : M unit :=
  fun w => Some (Returned tt, World (clock w + d) (logs w) (trace w)).

Definition now : M nat := fun w => Some (Returned (clock w), w).

(** [log.<level>(msg)]; with [log = None] the attribute access fails. *)
Definition log_call (has_log : bool) (l : level) (m : string) : M unit :=
  fun w =>
    if has_log then Some (Returned tt, World (clock w) (logs w ++ [LogRecord l m]) (trace w))
    else Some (Raised AttributeError, w).

Definition world0 : world := World 0 [] [].

(** Durations are counted in milliseconds; the timeouts of the sources are
    given in seconds. *)
Definition ticks_per_second : nat := 1000.
Definition seconds (n : nat) : nat := n * ticks_per_second.

Definition str_exn (e : exn) : string :=
  match e with
  | KeyError k => "'" +:+ k +:+ "'"
  | PlaywrightError m | RuntimeError m => m
  | _ => ""
  end.

(** Outgoing requests of a page, in the order they are issued: each one with
    the time elapsed since the previous one (since [page.on] installed the
    handler, for the first) and its URL. *)
Definition timeline : Type := list (nat * string).

(** The requests issued up to time [t]. *)
Fixpoint arrived (t : nat) (reqs : timeline) : list string :=
  match reqs with
  | [] => []
  | (gap, u) :: rest =>
      if (gap <=? t)%nat then u :: arrived (t - gap) rest else []
  end.

(** ** scrapers/utils/webwork.py *)

Module Network.
Import asyncio.

Definition UA : string :=
  "Mozilla/5.0 (Windows NT 10.0; Win64; x64) " +:+
  "AppleWebKit/537.36 (KHTML, like Gecko) " +:+
  "Chrome/134.0.0.0 Safari/537.36 Edg/134.0.0.0".

(** [await self.client.get(url)] *)
Inductive response : Type :=
  | Response (status_code : Z)
  | Fails (e : exn).

Global Instance response_eq_dec : EqDecision response.
Proof. solve_decision. Defined.

(** Membership in [(httpx.HTTPError, httpx.TimeoutException)]. *)
Definition is_httpx_error (e : exn) : bool :=
  match e with HTTPError => true | _ => false end.

(** [r.raise_for_status()] *)
Definition raise_for_status (status_code : Z) : outcome unit :=
  if (200 <=? status_code) && (status_code <? 300) then Returned tt
  else Raised HTTPError.

(** [check_status]; the debug record of the handler is left out. *)
Definition check_status (r : response) : outcome bool :=
  let body :=
    match r with
    | Fails e => Raised e
    | Response s => bind_outcome (raise_for_status s) (fun _ => Returned (s =? 200))
    end in
  match body with
  | Raised e => if is_httpx_error e then Returned false else Raised e
  | Returned b => Returned b
  end.

(** Truth value of an element of the gathered list: an exception object is
    truthy. *)
Definition success_truth (g : gathered bool) : bool :=
  match g with Value b => b | ExcValue _ => true end.

(** [get_base]; [net] gives, for a URL, how long the request takes and how
    it ends. *)
Definition get_base (net : string -> nat * response) (mirrors : list string)
  : option string :=
  let tasks := map (fun link => (fst (net link), check_status (snd (net link)))) mirrors in
  let results := gather_return_exceptions tasks in
  let working_mirrors :=
    map fst (List.filter (fun ms => success_truth (snd ms)) (zip mirrors results)) in
  head working_mirrors.

Record sp_final (A : Type) : Type := SpFinal {
  sp_task : task_state A;
  sp_logs : list log_record;
  sp_ops : list op
}.
Arguments SpFinal {A} _ _ _.
Arguments sp_task {A} _.
Arguments sp_logs {A} _.
Arguments sp_ops {A} _.

Definition timed_out_msg (url_num : Z) (timeout : nat) : string :=
  "URL " +:+ pretty url_num +:+ ") Timed out after " +:+ pretty timeout +:+ "s, skipping event".
Definition ignore_msg (url_num : Z) (e : exn) : string :=
  "URL " +:+ pretty url_num +:+ ") Ignore exception after timeout: " +:+ str_exn e.
Definition unexpected_msg (url_num : Z) (e : exn) : string :=
  "URL " +:+ pretty url_num +:+ ") Unexpected error: " +:+ str_exn e.

(** [safe_process(fn, url_num, timeout, log)]; [timeout] is in seconds, and
    a logger is always there, the default one when none is passed.  The
    result is paired with the final state of the task created for [fn], the
    records logged and the task operations performed by the function
    itself. *)
Definition safe_process {A} (fl : flavour) (fn : coro A) (url_num : Z)
    (timeout : nat) : option (outcome (option A) * sp_final A) :=
  let task := Pending in
  match wait_for fl fn task (seconds timeout) with
  | None => None
  | Some (Returned v, task) =>
      Some (Returned (Some v), SpFinal task [] [TaskCreate])
  | Some (Raised TimeoutError, task) =>
      let warning := LogRecord WARNING (timed_out_msg url_num timeout) in
      let task := cancel task in
      match await fn task with
      | None => None
      | Some (Returned _, task) =>
          Some (Returned None,
                SpFinal task [warning] [TaskCreate; TaskCancel; TaskAwait])
      | Some (Raised e, task) =>
          if decide (e = CancelledError) then
            Some (Returned None,
                  SpFinal task [warning] [TaskCreate; TaskCancel; TaskAwait])
          else if is_Exception e then
            Some (Returned None,
                  SpFinal task [warning; LogRecord DEBUG (ignore_msg url_num e)]
                    [TaskCreate; TaskCancel; TaskAwait])
          else
            Some (Raised e,
                  SpFinal task [warning] [TaskCreate; TaskCancel; TaskAwait])
      end
  | Some (Raised e, task) =>
      if is_Exception e then
        Some (Returned None,
              SpFinal task [LogRecord ERROR (unexpected_msg url_num e)] [TaskCreate])
      else Some (Raised e, SpFinal task [] [TaskCreate])
  end.

Definition invalids : list string := ["amazonaws"; "knitcdn"].

(** [pattern.search(req.url)] for the pattern
    [^(?!.*(amazonaws|knitcdn)).*\.m3u8] compiled with [re.IGNORECASE].
    [req.url] is a serialised URL and holds no line terminator, so [.]
    ranges over all its characters. *)
Definition pattern_search (url : string) : bool :=
  negb (existsb (fun i => contains_ci i url) invalids) && contains_ci ".m3u8" url.

(** [capture_req(req, captured, got_one)] on the pair of the list and the
    event flag. *)
Definition capture_req (req_url : string) (st : list string * bool)
  : list string * bool :=
  if pattern_search req_url then (fst st ++ [req_url], true) else st.

(** The list [captured] and the flag [got_one] at time [t], the handler
    having been called for every request issued so far. *)
Definition observed (reqs : timeline) (t : nat) : list string * bool :=
  foldl (fun st u => capture_req u st) ([], false) (arrived t reqs).

(** The time at which [got_one] is set. *)
Fixpoint first_match_time (reqs : timeline) : option nat :=
  match reqs with
  | [] => None
  | (gap, u) :: rest =>
      if pattern_search u then Some gap
      else option_map (Nat.add gap) (first_match_time rest)
  end.

(** The coroutine [got_one.wait()] started at time [t]. *)
Definition got_one_wait (reqs : timeline) (t : nat) : coro bool :=
  Coro (option_map (fun m => (m - t)%nat) (first_match_time reqs))
       (Returned true)
       (Some (Raised CancelledError)).

(** What a page does during one resolution: how [context.new_page()] ends;
    how long [page.goto] takes and how it ends (a cancellation of the caller
    reaching it shows as [CancelledError]); the requests the page issues; the
    moment, counted from the start of the wait for the first capture, at
    which the caller is cancelled, if it is; how [page.close()] ends. *)
Record page_env : Type := PageEnv {
  new_page_res : outcome unit;
  goto_time : nat;
  goto_res : outcome unit;
  requests : timeline;
  wait_interrupt : option nat;
  close_res : outcome unit
}.

Definition inner_timeout_msg (url_num : Z) : string :=
  "URL " +:+ pretty url_num +:+ ") Timed out waiting for M3U8.".
Definition captured_msg (url_num : Z) : string :=
  "URL " +:+ pretty url_num +:+ ") Captured M3U8".
Definition nothing_msg (url_num : Z) : string :=
  "URL " +:+ pretty url_num +:+ ") No M3U8 captured after waiting.".
Definition exception_msg (url_num : Z) (e : exn) : string :=
  "URL " +:+ pretty url_num +:+ ") Exception while processing: " +:+ str_exn e.

(** [await asyncio.wait_for(wait_task, timeout)] inside a page resolution:
    the outcome is handed over as a value together with the state in which
    the task is left; the clock advances by the time spent. *)
Definition await_wait_for {A} (fl : flavour) (c : coro A) (timeout : nat)
    (interrupt : option nat) : M (outcome A * task_state A) :=
  fun w =>
    match wait_for_interruptible fl c Pending timeout interrupt with
    | None => None
    | Some r =>
        Some (Returned r,
              World (clock w + wait_elapsed c timeout interrupt) (logs w) (trace w))
    end.

(** [await wait_task] *)
Definition await_task {A} (c : coro A) (st : task_state A) : M A :=
  fun w =>
    match await c st with
    | None => None
    | Some (o, _) => Some (o, w)
    end.

(** The [finally] clause of the inner [try]: a task that is not done is
    cancelled and awaited, [CancelledError] being swallowed. *)
Definition reap_wait_task {A} (c : coro A) (st : task_state A) : M unit :=
  (if done st then ret tt
   else
     emit TaskCancel ;;
     emit TaskAwait ;;
     try_except (await_task c (cancel st) ;; ret tt)
       (fun e => bool_decide (e = CancelledError))
       (fun _ => ret tt))%py.

(** The inner [try / except asyncio.TimeoutError / finally] around the wait
    for the first capture; [t0] is the time at which the handler was
    installed.  [Some v] stands for an executed [return v], [None] for
    falling through to the statements after the block. *)
Definition wait_block (fl : flavour) (env : page_env) (t0 : nat) (url_num : Z)
    (timeout : nat) (log : bool) : M (option (option string)) :=
  (t <- now ;;
   emit TaskCreate ;;
   r <- await_wait_for fl (got_one_wait (requests env) (t - t0)) (seconds timeout)
          (wait_interrupt env) ;;
   try_finally
     (try_except
        (of_outcome (fst r) ;; ret None)
        (fun e => bool_decide (e = TimeoutError))
        (fun _ => log_call log WARNING (inner_timeout_msg url_num) ;; ret (Some None)))
     (reap_wait_task (got_one_wait (requests env) (t - t0)) (snd r)))%py.

(** The [finally] clause of the outer [try].  [page.remove_listener] only
    updates the emitter of the page object and is taken not to raise;
    [page.close] may. *)
Definition teardown (env : page_env) : M unit :=
  (emit RemoveListener ;;
   emit Close ;;
   of_outcome (close_res env))%py.

(** [process_event(url, url_num, context, timeout, log)]; [env] is what the
    page opened for [url] does, [log] tells whether a logger was passed. *)
Definition process_event (fl : flavour) (env : page_env) (url_num : Z)
    (timeout : nat) (log : bool) : M (option string) :=
  (of_outcome (new_page_res env) ;;
   emit NewPage ;;
   emit On ;;
   t0 <- now ;;
   try_finally
     (try_except
        (emit Goto ;;
         tick (goto_time env) ;;
         of_outcome (goto_res env) ;;
         r <- wait_block fl env t0 url_num timeout log ;;
         match r with
         | Some v => ret v
         | None =>
             t <- now ;;
             match fst (observed (requests env) (t - t0)) with
             | u :: _ =>
                 log_call log INFO (captured_msg url_num) ;;
                 ret (Some u)
             | [] =>
                 log_call log WARNING (nothing_msg url_num) ;;
                 ret None
             end
         end)
        is_Exception
        (fun e => log_call log WARNING (exception_msg url_num e) ;; ret None))
     (teardown env))%py.

End Network.

(** ** The cache store *)

Module Cache.

(** What the snapshot file of a store holds. *)
Inductive file_content : Type :=
  | Missing
  | Corrupt
  | Snapshot (m : gmap string entry).

(** Age of an entry: now minus its discovery time stamp. *)
Definition age (now_ts : Z) (e : entry) : Z := now_ts - e_timestamp e.

(** Modelled from the spec: [Cache.load] of [scrapers/utils/caching.py], a
    file of this repository that is not among the sources at hand (the
    adapters only construct [Cache(path, exp=...)] and call [load] and
    [write]).  Per-entry mode: an entry is kept exactly when its age is below
    the TTL [exp] of the store; a missing or corrupt file gives the empty
    map.  The file itself is not changed. *)
Definition load (exp : Z) (now_ts : Z) (file : file_content) : gmap string entry :=
  match file with
  | Snapshot m => filter (fun kv => age now_ts (snd kv) < exp) m
  | Missing | Corrupt => ∅
  end.

(** Modelled from the spec: [Cache.write] replaces the whole stored map. *)
Definition write (m : gmap string entry) : file_content := Snapshot m.

End Cache.

(** ** Time helpers of scrapers/utils/config.py, on integral time stamps *)

Module Time.

(** [Time.clean]: seconds are set to zero. *)
Definition clean (ts : Z) : Z := ts - ts mod 60.

(** [t.delta(minutes=m)] *)
Definition delta_minutes (ts : Z) (m : Z) : Z := ts + 60 * m.

(** [start_dt <= event_dt <= end_dt] for the window of half an hour around
    the cleaned current minute. *)
Definition in_window (now_ts event_ts : Z) : bool :=
  let now := clean now_ts in
  (delta_minutes now (-30) <=? event_ts) && (event_ts <=? delta_minutes now 30).

(** [Time.from_ts(ts)], that is [datetime.fromtimestamp(ts, tz=TZ)]: the
    call raises for a time stamp outside the years the platform and the
    time zone support; [out_of_range ts] is the exception raised then.  The
    time stamp of the result is [ts]. *)
Definition from_ts (out_of_range : Z -> option exn) (ts : Z) : outcome Z :=
  match out_of_range ts with
  | Some e => Raised e
  | None => Returned ts
  end.

(** An instance of [out_of_range]: the time stamps from the epoch to the
    end of the year 9999 are accepted and the others refused with
    [ValueError], which is what CPython raises past the year 9999. *)
Definition epoch_to_9999 (ts : Z) : option exn :=
  if (0 <=? ts) && (ts <=? 253402300799) then None else Some ValueError.

End Time.

(** An event as discovery hands it to resolution.  The adapters build
    dictionaries with some of these keys; a key an adapter does not set is
    left empty here. *)
Record event : Type := Event {
  ev_sport : string;
  ev_event : string;
  ev_link : string;
  ev_logo : option string;
  ev_timestamp : Z;
  ev_href : option string
}.

Global Instance event_eq_dec : EqDecision event.
Proof. solve_decision. Defined.

(** ** scrapers/ppv.py *)

Module ppv.

(** One element of a group's ["streams"] list; absent fields are [None]. *)
Record api_stream : Type := ApiStream {
  s_name : option string;
  s_starts_at : option Z;
  s_poster : option string;
  s_iframe : option string
}.

Record stream_group : Type := StreamGroup {
  g_category : string;
  g_streams : list api_stream
}.

(** The API blob: [Some groups] when it has the key ["streams"], [None] for
    the empty dictionary, which [load] gives for a stale or missing file and
    [refresh_api_cache] returns when the request fails. *)
Definition api_blob : Type := option (list stream_group).

Definition key_of (sport name : string) : string :=
  "[" +:+ sport +:+ "] " +:+ name +:+ " (PPV)".

Section discovery.
Context (out_of_range : Z -> option exn).

(** Body of the inner [for] loop: [None] stands for [continue].  The key
    is looked up in the cache before the start is converted. *)
Definition visit (now_ts : Z) (cached_keys : gset string) (sport : string)
    (ev : api_stream) : outcome (option event) :=
  match s_name ev, s_starts_at ev, s_iframe ev with
  | Some name, Some start_ts, Some iframe =>
      if truthy (Some name) && negb (start_ts =? 0) && truthy (Some iframe) then
        if bool_decide (key_of sport name ∈ cached_keys) then Returned None
        else
          bind_outcome (Time.from_ts out_of_range start_ts) (fun event_ts =>
            if Time.in_window now_ts event_ts then
              Returned (Some (Event sport name iframe (s_poster ev) event_ts None))
            else Returned None)
      else Returned None
  | _, _, _ => Returned None
  end.

(** The inner [for] loop, over the streams of one group. *)
Fixpoint visit_streams (now_ts : Z) (cached_keys : gset string) (sport : string)
    (streams : list api_stream) : outcome (list event) :=
  match streams with
  | [] => Returned []
  | ev :: rest =>
      bind_outcome (visit now_ts cached_keys sport ev) (fun found =>
        bind_outcome (visit_streams now_ts cached_keys sport rest) (fun evs =>
          Returned (option_list found ++ evs)))
  end.

(** The outer [for] loop, over the groups. *)
Fixpoint visit_groups (now_ts : Z) (cached_keys : gset string)
    (groups : list stream_group) : outcome (list event) :=
  match groups with
  | [] => Returned []
  | g :: rest =>
      bind_outcome
        (if decide (g_category g = "24/7 Streams") then Returned []
         else visit_streams now_ts cached_keys (g_category g) (g_streams g))
        (fun evs1 =>
           bind_outcome (visit_groups now_ts cached_keys rest) (fun evs2 =>
             Returned (evs1 ++ evs2)))
  end.

(** [get_events(client, cached_keys)].  [loaded] is what
    [API_FILE.load(per_entry=False)] gave, [refreshed] what
    [refresh_api_cache] gives when it has to be called. *)
Definition get_events (loaded refreshed : api_blob) (now_ts : Z)
    (cached_keys : gset string) : outcome (list event) :=
  let api_data := match loaded with Some g => Some g | None => refreshed end in
  match api_data with
  | None => Raised (KeyError "streams")
  | Some groups => visit_groups now_ts cached_keys groups
  end.

End discovery.

End ppv.

(** [s.split(c, 1)[1]], when [c] occurs in [s]. *)
Fixpoint after_first (c : ascii) (s : string) : option string :=
  match s with
  | EmptyString => None
  | String a s' => if decide (a = c) then Some s' else after_first c s'
  end.

Fixpoint lstrip (s : string) : string :=
  match s with
  | String a s' => if Ascii.is_space a then lstrip s' else s
  | EmptyString => EmptyString
  end.

(** [s.strip()], for ASCII white space. *)
Definition strip (s : string) : string :=
  String.rev (lstrip (String.rev (lstrip s))).

(** [x or fallback] for a [str | None]. *)
Definition or_else (x : option string) (fallback : string) : string :=
  match x with
  | Some (String a r) => String a r
  | _ => fallback
  end.

(** State of an adapter module during [scrape]: the local [cached_urls],
    the module level [urls], and what [CACHE_FILE.write] received, if it
    was called. *)
Record adapter_state : Type := AdapterState {
  cached_urls : gmap string entry;
  urls : gmap string entry;
  written : option (gmap string entry)
}.

(** ** scrapers/fstv.py *)

Module fstv.

Definition MIRRORS : list string :=
  ["https://fstv.online"; "https://fstv.zip"; "https://fstv.space"; "https://fstv.us"].

Definition exp : Z := 10800.

(** The part of the schedule page the selectors reach: for each live
    wrapper its league blocks; for each block the text of its league name
    element, if there is one, and the [href] attribute of every match anchor
    of the block's parent. *)
Record league_block : Type := LeagueBlock {
  league_name : option string;
  games : list (option string)
}.

Definition page : Type := list (list league_block).

Section adapter.
Context (urljoin : string -> string -> string).
Context (info : string -> option string * string).

Definition event_name_of (full_text : string) : string :=
  match after_first "]"%char full_text with
  | Some rest => strip rest
  | None => full_text
  end.

(** The innermost loop, over the games of one block. *)
Fixpoint visit_games (base_url sport : string) (gs : list (option string))
    (cached_hrefs : gset string) : list event * gset string :=
  match gs with
  | [] => ([], cached_hrefs)
  | g :: rest =>
      match g with
      | Some (String a r) =>
          let href := String a r in
          if bool_decide (href ∈ cached_hrefs) then
            visit_games base_url sport rest cached_hrefs
          else
            let '(evs, hs) :=
              visit_games base_url sport rest ({[href]} ∪ cached_hrefs) in
            (Event sport "" (urljoin base_url href) None 0 (Some href) :: evs, hs)
      | _ => visit_games base_url sport rest cached_hrefs
      end
  end.

Fixpoint visit_blocks (base_url : string) (bs : list league_block)
    (cached_hrefs : gset string) : list event * gset string :=
  match bs with
  | [] => ([], cached_hrefs)
  | b :: rest =>
      match league_name b with
      | None => visit_blocks base_url rest cached_hrefs
      | Some full_text =>
          let '(evs1, hs1) :=
            visit_games base_url (event_name_of full_text) (games b) cached_hrefs in
          let '(evs2, hs2) := visit_blocks base_url rest hs1 in
          (evs1 ++ evs2, hs2)
      end
  end.

(** [get_events(client, base_url, cached_hrefs)]: the events, and the set
    [cached_hrefs] as the call leaves it.  [fetched] is [None] when the
    request for the page failed. *)
Definition get_events (fetched : option page) (base_url : string)
    (cached_hrefs : gset string) : list event * gset string :=
  match fetched with
  | None => ([], cached_hrefs)
  | Some wrappers => visit_blocks base_url (concat wrappers) cached_hrefs
  end.

Definition key_of (sport match_name : string) : string :=
  match match_name with
  | String _ _ => "[" +:+ sport +:+ "] " +:+ match_name +:+ " (FSTV)"
  | EmptyString => "[" +:+ sport +:+ "] (FSTV)"
  end.

(** The loop of [scrape] from position [i] on.  [resolve i ev] is the value
    of [await network.safe_process(handler, url_num=i, log=log)]; unpacking
    [None] into [match_name, url] raises [TypeError]. *)
Fixpoint resolve_all (resolve : Z -> event -> option (string * string))
    (base_url : string) (now_ts : Z) (i : Z) (events : list event)
    (st : adapter_state) : outcome unit * adapter_state :=
  match events with
  | [] => (Returned tt, st)
  | ev :: rest =>
      match resolve i ev with
      | None => (Raised TypeError, st)
      | Some (match_name, url) =>
          let st' :=
            if truthy (Some url) then
              let sport := ev_sport ev in
              let key := key_of sport match_name in
              let entry :=
                Entry (Some url) (snd (info sport)) base_url now_ts
                  (or_else (fst (info sport)) "Live.Event.us") (ev_href ev) in
              AdapterState (<[key := entry]> (cached_urls st))
                (<[key := entry]> (urls st)) (written st)
            else st in
          resolve_all resolve base_url now_ts (i + 1) rest st'
      end
  end.

(** [{entry["href"] for entry in cached_urls.values()}] *)
Definition hrefs_of (m : gmap string entry) : outcome (gset string) :=
  map_fold
    (fun _ e acc =>
       bind_outcome acc (fun hs =>
         match e_href e with
         | Some h => Returned ({[h]} ∪ hs)
         | None => Raised (KeyError "href")
         end))
    (Returned ∅) m.

(** [scrape(client)], started with the module dictionary [urls0]. *)
Definition scrape (now_ts : Z) (file : Cache.file_content)
    (urls0 : gmap string entry) (net : string -> nat * Network.response)
    (fetched : option page) (resolve : Z -> event -> option (string * string))
  : outcome unit * adapter_state :=
  let cached := Cache.load exp now_ts file in
  match hrefs_of cached with
  | Raised e => (Raised e, AdapterState cached urls0 None)
  | Returned cached_hrefs =>
      let st := AdapterState cached (dict_update urls0 cached) None in
      match Network.get_base net MIRRORS with
      | None => (Returned tt, AdapterState cached (urls st) (Some cached))
      | Some base_url =>
          let '(events, _) := get_events fetched base_url cached_hrefs in
          match resolve_all resolve base_url now_ts 1 events st with
          | (Returned _, st') =>
              (Returned tt,
               AdapterState (cached_urls st') (urls st') (Some (cached_urls st')))
          | (Raised e, st') => (Raised e, st')
          end
      end
  end.

End adapter.
End fstv.

(** [int(str(ts)[:-3])]: the decimal text without its last three characters,
    read back as an integer; an empty or sign-only text is a [ValueError]. *)
Definition drop_millis (ts : Z) : outcome Z :=
  if 1000 <=? ts then Returned (ts / 1000)
  else if ts <=? -1000 then Returned (Z.quot ts 1000)
  else Raised ValueError.

(** [re.split] on the pattern [\-+|\(] with [maxsplit=1], first part. *)
Fixpoint before_dash_or_paren (s : string) : string :=
  match s with
  | EmptyString => EmptyString
  | String a s' =>
      if decide (a = "-"%char) then EmptyString
      else if decide (a = "("%char) then EmptyString
      else String a (before_dash_or_paren s')
  end.

(** [re.search] on the pattern [\((\d+)\)], group 1 as an integer. *)
Fixpoint search_count (s : string) : option Z :=
  match s with
  | EmptyString => None
  | String a s' =>
      let here :=
        if decide (a = "("%char) then
          match take_digits 0 0 s' with
          | (v, S _, String b _) => if decide (b = ")"%char) then Some v else None
          | _ => None
          end
        else None in
      match here with
      | Some v => Some v
      | None => search_count s'
      end
  end.

(** ** scrapers/watchfooty.py *)

Module watchfooty.
Import asyncio.

Definition MIRRORS : list string :=
  ["https://www.watchfooty.cc"; "https://www.watchfooty.vip"; "https://www.watchfooty.live"].

Definition exp : Z := 10800.

(** A match as the API returns it; [r_timestamp] is [None] when the key
    ["timestamp"] is absent. *)
Record raw_match : Type := RawMatch {
  r_matchId : string;
  r_title : string;
  r_league : string;
  r_timestamp : option Z;
  r_poster : option string
}.

(** A match of the cached API blob: ["ts"] holds the start, ["timestamp"] is
    only set on the last element, with the time of the refresh. *)
Record api_match : Type := ApiMatch {
  matchId : string;
  title : string;
  league : string;
  ts : option Z;
  poster : option string;
  blob_timestamp : option Z
}.

(** [for ev in data: ev["ts"] = ev.pop("timestamp")] *)
Fixpoint rename_timestamps (data : list raw_match) : outcome (list api_match) :=
  match data with
  | [] => Returned []
  | ev :: rest =>
      match r_timestamp ev with
      | None => Raised (KeyError "timestamp")
      | Some t =>
          bind_outcome (rename_timestamps rest) (fun rest' =>
            Returned (ApiMatch (r_matchId ev) (r_title ev) (r_league ev)
                        (Some t) (r_poster ev) None :: rest'))
      end
  end.

(** [data[-1]["timestamp"] = now] *)
Fixpoint stamp_last (now_ts : Z) (data : list api_match) : outcome (list api_match) :=
  match data with
  | [] => Raised IndexError
  | [m] =>
      Returned [ApiMatch (matchId m) (title m) (league m) (ts m) (poster m) (Some now_ts)]
  | m :: rest => bind_outcome (stamp_last now_ts rest) (fun rest' => Returned (m :: rest'))
  end.

(** [refresh_api_cache(client, url)]; [results] holds what [get_api_data]
    returned for each sport endpoint, the empty list where the request
    failed. *)
Definition refresh_api_cache (results : list (list raw_match)) (now_ts : Z)
  : outcome (list api_match) :=
  bind_outcome (rename_timestamps (concat results)) (stamp_last now_ts).

Definition key_of (sport name : string) : string :=
  "[" +:+ sport +:+ "] " +:+ name +:+ " (WFTY)".

Definition sport_of (league : string) : string := strip (before_dash_or_paren league).

Section adapter.
Context (out_of_range : Z -> option exn).
Context (urljoin : string -> string -> string).
Context (get_tvg_info : string -> string -> outcome (option string * string)).

(** The [for] loop of [get_events]. *)
Fixpoint visit (base_url : string) (now_ts : Z) (cached_keys : gset string)
    (api_data : list api_match) : outcome (list event) :=
  match api_data with
  | [] => Returned []
  | m :: rest =>
      let skip := visit base_url now_ts cached_keys rest in
      match ts m with
      | None => skip
      | Some t =>
          if t =? 0 then skip
          else
            bind_outcome (drop_millis t) (fun start_ts =>
              bind_outcome (Time.from_ts out_of_range start_ts) (fun event_ts =>
                if negb (Time.in_window now_ts event_ts) then skip
                else
                  let sport := sport_of (league m) in
                  let logo :=
                    match poster m with
                    | Some (String a r) => Some (urljoin base_url (String a r))
                    | _ => None
                    end in
                  if bool_decide (key_of sport (title m) ∈ cached_keys) then skip
                  else
                    bind_outcome skip (fun evs =>
                      Returned
                        (Event sport (title m)
                           (urljoin base_url ("stream/" +:+ matchId m))
                           logo event_ts None :: evs))))
      end
  end.

(** [get_events(client, base_url, cached_keys)]: [loaded] is what
    [API_FILE.load(per_entry=False, index=-1)] gave (empty for a stale or
    missing blob), [refreshed] the outcome of [refresh_api_cache] when it has
    to be called. *)
Definition get_events (loaded : list api_match)
    (refreshed : outcome (list api_match)) (base_url : string) (now_ts : Z)
    (cached_keys : gset string) : outcome (list event) :=
  bind_outcome
    (match loaded with
     | [] => refreshed
     | _ :: _ => Returned loaded
     end)
    (visit base_url now_ts cached_keys).


Definition no_header_msg (url_num : Z) : string :=
  "URL " +:+ pretty url_num +:+ ") Can't find stream links header.".
Definition no_links_msg (url_num : Z) : string :=
  "URL " +:+ pretty url_num +:+ ") No available stream links.".

(** The [try / except TimeoutError] around the lookup of the header:
    [header] gives the time it takes and the text found, or what
    [wait_for_selector] or [inner_text] raises.  [None] stands for the
    executed [return]. *)
Definition read_header (header : nat * outcome string) (url_num : Z)
  : M (option string) :=
  (try_except
     (emit WaitForSelector ;;
      tick (fst header) ;;
      text <- of_outcome (snd header) ;;
      ret (Some text))
     (fun e => bool_decide (e = TimeoutError))
     (fun _ => log_call true WARNING (no_header_msg url_num) ;; ret None))%py.

(** [process_event(url, url_num, context)] of this adapter: the page must
    announce a positive number of stream links before the wait of six
    seconds, and the last captured URL is returned. *)
Definition process_event (fl : flavour) (env : Network.page_env)
    (header : nat * outcome string) (url_num : Z) : M (option string) :=
  (of_outcome (Network.new_page_res env) ;;
   emit NewPage ;;
   emit On ;;
   t0 <- now ;;
   try_finally
     (try_except
        (emit Goto ;;
         tick (Network.goto_time env) ;;
         of_outcome (Network.goto_res env) ;;
         h <- read_header header url_num ;;
         match h with
         | None => ret None
         | Some text =>
             if match search_count text with
                | Some n => n =? 0
                | None => true
                end
             then
               log_call true WARNING (no_links_msg url_num) ;;
               ret None
             else
               r <- Network.wait_block fl env t0 url_num 6 true ;;
               match r with
               | Some v => ret v
               | None =>
                   t <- now ;;
                   match last (fst (Network.observed (Network.requests env) (t - t0))) with
                   | Some u =>
                       log_call true INFO (Network.captured_msg url_num) ;;
                       ret (Some u)
                   | None =>
                       log_call true WARNING (Network.nothing_msg url_num) ;;
                       ret None
                   end
               end
         end)
        is_Exception
        (fun e => log_call true WARNING (Network.exception_msg url_num e) ;; ret None))
     (Network.teardown env))%py.

(** The loop of [scrape] from position [i] on.  [resolve i ev] is the
    outcome of [await network.safe_process(handler, url_num=i, log=log)];
    [leagues.get_tvg_info] is called between the resolution and the
    assignment to [cached_urls], and what it raises leaves the loop. *)
Fixpoint resolve_all (resolve : Z -> event -> outcome (option string))
    (base_url : string) (i : Z) (events : list event) (st : adapter_state)
  : outcome unit * adapter_state :=
  match events with
  | [] => (Returned tt, st)
  | ev :: rest =>
      match resolve i ev with
      | Raised e => (Raised e, st)
      | Returned url =>
          let key := key_of (ev_sport ev) (ev_event ev) in
          match get_tvg_info (ev_sport ev) (ev_event ev) with
          | Raised e => (Raised e, st)
          | Returned (tvg_id, pic) =>
              let entry :=
                Entry url (or_else (ev_logo ev) pic) base_url (ev_timestamp ev)
                  (or_else tvg_id "Live.Event.us") None in
              let st' :=
                AdapterState (<[key := entry]> (cached_urls st))
                  (if truthy url then <[key := entry]> (urls st) else urls st)
                  (written st) in
              resolve_all resolve base_url (i + 1) rest st'
          end
      end
  end.

(** [valid_urls]: the cached entries whose URL is truthy. *)
Definition valid_urls (cached : gmap string entry) : gmap string entry :=
  filter (fun kv => truthy (e_url (snd kv)) = true) cached.

(** [scrape(client)], started with the module dictionary [urls0]; the
    browser is taken to start and stop without error. *)
Definition scrape (now_ts : Z) (file : Cache.file_content)
    (urls0 : gmap string entry) (net : string -> nat * Network.response)
    (loaded : list api_match) (refreshed : outcome (list api_match))
    (resolve : Z -> event -> outcome (option string))
  : outcome unit * adapter_state :=
  let cached := Cache.load exp now_ts file in
  let st := AdapterState cached (dict_update urls0 (valid_urls cached)) None in
  match Network.get_base net MIRRORS with
  | None => (Returned tt, AdapterState cached (urls st) (Some cached))
  | Some base_url =>
      match get_events loaded refreshed base_url now_ts (dom cached) with
      | Raised e => (Raised e, st)
      | Returned events =>
          match resolve_all resolve base_url 1 events st with
          | (Returned _, st') =>
              (Returned tt,
               AdapterState (cached_urls st') (urls st') (Some (cached_urls st')))
          | (Raised e, st') => (Raised e, st')
          end
      end
  end.

End adapter.
End watchfooty.

(** ** fetch.py *)

Module fetch.

Definition chno_prefix : string := "tvg-chno=" +:+ String dquote "".

(** A match of the pattern [tvg-chno="(\d+)"] at the head of [s]: the
    number captured and the length of the match.  [\d] is read over the
    ASCII digits. *)
Definition match_chno (s : string) : option (Z * nat) :=
  match strip_prefix chno_prefix s with
  | None => None
  | Some r =>
      match take_digits 0 0 r with
      | (v, S n, String c _) =>
          if decide (c = dquote) then Some (v, (String.length chno_prefix + S n + 1)%nat)
          else None
      | _ => None
      end
  end.

(** [map(int, pattern.findall(data))]: the matches from left to right, none
    overlapping another; [skip] characters still belong to the last match. *)
Fixpoint findall_chno (skip : nat) (s : string) : list Z :=
  match s with
  | EmptyString => []
  | String _ s' =>
      match skip with
      | S k => findall_chno k s'
      | O =>
          match match_chno s with
          | Some (v, len) => v :: findall_chno (len - 1) s'
          | None => findall_chno 0 s'
          end
      end
  end.

(** [max(xs, default=d)] *)
Definition max_default (d : Z) (xs : list Z) : Z :=
  match xs with
  | [] => d
  | x :: rest => foldl Z.max x rest
  end.

Section main.
(** [str.splitlines], used on the text of the base playlist only. *)
Context (splitlines : string -> list string).

(** [load_base()], on the text of [BASE_FILE]. *)
Definition load_base (data : string) : list string * Z :=
  (splitlines data, max_default 0 (findall_chno 0 data)).

(** What one adapter task leaves behind: when it ended, how, and the
    content of the module's [urls] dictionary. *)
Record adapter_run : Type := AdapterRun {
  finished_at : nat;
  scrape_outcome : outcome unit;
  module_urls : gmap string entry
}.

(** [fstv.urls | lotus.urls | ... | watchfooty.urls], in the order of the
    tasks. *)
Definition additions (runs : list adapter_run) : gmap string entry :=
  foldl dict_or ∅ (map module_urls runs).

Definition key_le (a b : string * entry) : Prop := String.le (fst a) (fst b).

Global Instance key_le_dec : RelDecision key_le.
Proof. intros a b. unfold key_le. apply _. Defined.

(** [sorted(additions.items())]: the keys of a dictionary are distinct, so
    the order of the pairs is the order of their keys. *)
Definition sorted_items (m : gmap string entry) : list (string * entry) :=
  merge_sort key_le (map_to_list m).

(** One emitted channel: the fields of its [#EXTINF] line and of its
    playback block. *)
Record channel : Type := Channel {
  chno : Z;
  tvg_id : string;
  tvg_name : string;
  tvg_logo : string;
  base : string;
  url : option string
}.

Definition quoted (s : string) : string := String dquote s +:+ String dquote "".

Definition extinf (c : channel) : string :=
  "#EXTINF:-1 tvg-chno=" +:+ quoted (pretty (chno c)) +:+
  " tvg-id=" +:+ quoted (tvg_id c) +:+
  " tvg-name=" +:+ quoted (tvg_name c) +:+
  " tvg-logo=" +:+ quoted (tvg_logo c) +:+
  " group-title=" +:+ quoted "Live Events" +:+ "," +:+ tvg_name c.

(** The lines of [vlc_block]; the last one is [info["url"]] as it is. *)
Definition vlc_block (c : channel) : list (option string) :=
  [Some ("#EXTVLCOPT:http-referrer=" +:+ base c);
   Some ("#EXTVLCOPT:http-origin=" +:+ base c);
   Some ("#EXTVLCOPT:http-user-agent=" +:+ Network.UA);
   url c].

Definition block (c : channel) : list (option string) :=
  Some (newline +:+ extinf c) :: vlc_block c.

(** The [for] loop over [enumerate(sorted(additions.items()), start=1)],
    from index [i] on: the channels of [combined_channels] and of
    [live_events]. *)
Fixpoint number (tvg_chno i : Z) (items : list (string * entry))
  : list channel * list channel :=
  match items with
  | [] => ([], [])
  | (ev, info) :: rest =>
      let '(combined, live) := number tvg_chno (i + 1) rest in
      (Channel (tvg_chno + i) (e_id info) ev (e_logo info) (e_base info) (e_url info)
         :: combined,
       Channel i (e_id info) ev (e_logo info) (e_base info) (e_url info) :: live)
  end.

(** [sep.join(parts)] on a list that may hold [None]. *)
Definition join_checked (sep : string) (parts : list (option string)) : outcome string :=
  match mapM id parts with
  | Some ps => Returned (join sep ps)
  | None => Raised TypeError
  end.

Record files : Type := Files {
  COMBINED_FILE : option string;
  EVENTS_FILE : option string
}.

Definition events_header : string :=
  "#EXTM3U url-tvg=" +:+
  quoted "https://github.com/BuddyChewChew/iptv/raw/refs/heads/main/EPG/TV.xml" +:+
  newline.

(** The part of [main] after the join: merge, number, write. *)
Definition merge_and_write (base_m3u8 : list string) (tvg_chno : Z)
    (runs : list adapter_run) : outcome unit * files :=
  let '(combined, live) := number tvg_chno 1 (sorted_items (additions runs)) in
  let combined_channels := flat_map block combined in
  let live_events := flat_map block live in
  match join_checked newline (map Some base_m3u8 ++ combined_channels) with
  | Raised e => (Raised e, Files None None)
  | Returned text =>
      match join_checked newline live_events with
      | Raised e => (Raised e, Files (Some text) None)
      | Returned live_text =>
          (Returned tt, Files (Some text) (Some (events_header +:+ live_text)))
      end
  end.

(** [main()], on the text of the base playlist and the runs of the adapter
    tasks it creates. *)
Definition main (data : string) (runs : list adapter_run) : outcome unit * files :=
  let '(base_m3u8, tvg_chno) := load_base data in
  match asyncio.gather (map (fun r => (finished_at r, scrape_outcome r)) runs) with
  | Raised e => (Raised e, Files None None)
  | Returned _ => merge_and_write base_m3u8 tvg_chno runs
  end.

End main.
End fetch.

(** [s.upper()] on ASCII letters. *)
Definition upper_ascii (c : ascii) : ascii :=
  let n := nat_of_ascii c in
  if ((97 <=? n) && (n <=? 122))%nat then ascii_of_nat (n - 32) else c.

Fixpoint upper (s : string) : string :=
  match s with
  | EmptyString => EmptyString
  | String c s' => String (upper_ascii c) (upper s')
  end.

(** [\s+] at the head of [s], taking all the white space there is: what
    follows it. *)
Definition spaces1 (s : string) : option string :=
  match s with
  | String a s' => if Ascii.is_space a then Some (lstrip s') else None
  | EmptyString => None
  end.

(** The ways [(?:-|vs\.?|at)] matches at the head of [s] under
    [re.IGNORECASE], in the order the matcher tries them: what follows each. *)
Definition after_alternative (s : string) : list string :=
  match s with
  | String a s1 =>
      (if decide (a = "-"%char) then [s1] else []) ++
      match s1 with
      | String b s2 =>
          (if decide (lower_ascii a = "v"%char /\ lower_ascii b = "s"%char) then
             match s2 with
             | String c s3 => if decide (c = "."%char) then [s3; s2] else [s2]
             | EmptyString => [s2]
             end
           else []) ++
          (if decide (lower_ascii a = "a"%char /\ lower_ascii b = "t"%char) then [s2] else [])
      | EmptyString => []
      end
  | EmptyString => []
  end.

Definition match_sep (s : string) : option string :=
  match spaces1 s with
  | Some r => head (omap spaces1 (after_alternative r))
  | None => None
  end.

Fixpoint re_search (s : string) : bool :=
  match match_sep s with
  | Some _ => true
  | None =>
      match s with
      | String _ s' => re_search s'
      | EmptyString => false
      end
  end.

Fixpoint re_split (skip : nat) (acc : string) (s : string) : list string :=
  match s with
  | EmptyString => [String.rev acc]
  | String c s' =>
      match skip with
      | S k => re_split k acc s'
      | O =>
          match match_sep s with
          | Some rest =>
              String.rev acc :: re_split (String.length s' - String.length rest) "" s'
          | None => re_split 0 (String c acc) s'
          end
      end
  end.


(** ** The base playlist and the emitted channels, by their numbers *)






(** ** scrapers/utils/config.py: class [Leagues] *)

Module Leagues.

Definition live_img : string :=
  "https://i.gyazo.com/978f2eb4a199ca5b56b447aded0cb9e3.png".

(** The value stored for one league name: its ["logo"] and its ["names"],
    each of which may be absent. *)
Record league_data : Type := LeagueData {
  ld_logo : option string;
  ld_names : option (list string)
}.

(** [data["leagues"]]: for each tvg id the list of its league entries, each
    a dictionary from league names to league data.  Dictionaries are kept in
    the order of the file, which is the order [items()] follows. *)
Definition leagues_table : Type :=
  list (string * list (list (string * league_data))).

Record data : Type := Data {
  d_teams : gmap string (list string);
  d_leagues : leagues_table
}.

Section leagues.
Context (self : data).

(** [teams(league)] *)
Definition teams (league : string) : list string :=
  default [] (d_teams self !! league).

(** The generator expression of [info]: one pair for every league name that
    is [name] or has [name] among its ["names"]. *)
Definition matches (name : string) : list (string * option string) :=
  flat_map
    (fun '(tvg_id, leagues) =>
       flat_map
         (fun league_entry =>
            flat_map
              (fun '(league_name, ld) =>
                 if bool_decide (name = league_name) ||
                    bool_decide (name ∈ default [] (ld_names ld))
                 then [(tvg_id, ld_logo ld)] else [])
              league_entry)
         leagues)
    (d_leagues self).

(** [info(name)] *)
Definition info (name : string) : option string * string :=
  let name := upper name in
  match head (matches name) with
  | Some (tvg_id, logo) => (Some tvg_id, or_else logo live_img)
  | None => (None, live_img)
  end.

(** [is_valid(event, league)]: unpacking the parts into [t1, t2] needs
    exactly two of them. *)
Definition is_valid (event league : string) : outcome bool :=
  if re_search event then
    match re_split 0 "" event with
    | [t1; t2] =>
        Returned (existsb (fun t => bool_decide (t ∈ teams league)) [strip t1; strip t2])
    | _ => Raised ValueError
    end
  else Returned (bool_decide (lower event ∈ ["nfl redzone"; "college gameday"])).

(** [get_tvg_info(sport, event)] *)
Definition get_tvg_info (sport event : string) : outcome (option string * string) :=
  if bool_decide (sport ∈ ["American Football"; "NFL"]) then
    bind_outcome (is_valid event "NFL") (fun v =>
      Returned (if v then info "NFL" else info "NCAA"))
  else if bool_decide (sport ∈ ["Basketball"; "NBA"]) then
    bind_outcome (is_valid event "NBA") (fun v =>
      if v then Returned (info "NBA")
      else
        bind_outcome (is_valid event "WNBA") (fun v' =>
          Returned (if v' then info "WNBA" else info "Basketball")))
  else if bool_decide (sport ∈ ["Ice Hockey"; "Hockey"]) then Returned (info "NHL")
  else Returned (info sport).

End leagues.
End Leagues.

(** ** scrapers/ppv.py: [scrape] *)

Module ppv_scrape.

Definition BASE_URL : string := "https://ppv.to".
Definition exp : Z := 10800.

Section adapter.
Context (out_of_range : Z -> option exn).
Context (get_tvg_info : string -> string -> outcome (option string * string)).

(** The loop of [scrape] from position [i] on.  [resolve i ev] is the
    outcome of [await network.safe_process(handler, url_num=i, log=log)];
    nothing is stored for an event without URL. *)
Fixpoint resolve_all (resolve : Z -> event -> outcome (option string))
    (i : Z) (events : list event) (st : adapter_state)
  : outcome unit * adapter_state :=
  match events with
  | [] => (Returned tt, st)
  | ev :: rest =>
      match resolve i ev with
      | Raised e => (Raised e, st)
      | Returned url =>
          if truthy url then
            let key := ppv.key_of (ev_sport ev) (ev_event ev) in
            match get_tvg_info (ev_sport ev) (ev_event ev) with
            | Raised e => (Raised e, st)
            | Returned (tvg_id, pic) =>
                let entry :=
                  Entry url (or_else (ev_logo ev) pic) BASE_URL (ev_timestamp ev)
                    (or_else tvg_id "Live.Event.us") None in
                resolve_all resolve (i + 1) rest
                  (AdapterState (<[key := entry]> (cached_urls st))
                     (<[key := entry]> (urls st)) (written st))
            end
          else resolve_all resolve (i + 1) rest st
      end
  end.

(** [scrape(client)], started with the module dictionary [urls0]; [loaded]
    and [refreshed] are as in [ppv.get_events]; the browser is taken to
    start and stop without error. *)
Definition scrape (now_ts : Z) (file : Cache.file_content)
    (urls0 : gmap string entry) (loaded refreshed : ppv.api_blob)
    (resolve : Z -> event -> outcome (option string))
  : outcome unit * adapter_state :=
  let cached := Cache.load exp now_ts file in
  let st := AdapterState cached (dict_update urls0 cached) None in
  match ppv.get_events out_of_range loaded refreshed now_ts (dom cached) with
  | Raised e => (Raised e, st)
  | Returned events =>
      match resolve_all resolve 1 events st with
      | (Returned _, st') =>
          (Returned tt,
           AdapterState (cached_urls st') (urls st') (Some (cached_urls st')))
      | (Raised e, st') => (Raised e, st')
      end
  end.

End adapter.
End ppv_scrape.

(** ** Texts of integers *)

(** A text made of decimal digits only, and at least one: its value. *)
Definition digits_value (s : string) : option Z :=
  match take_digits 0 0 s with
  | (v, S _, EmptyString) => Some v
  | _ => None
  end.

(** [int(s)] for a text made of an optional minus sign and decimal digits,
    the only characters [str] of an integer holds; the empty text and a
    lone sign are a [ValueError]. *)
Definition int_of_str (s : string) : outcome Z :=
  match s with
  | String a r =>
      if decide (a = "-"%char) then
        match digits_value r with
        | Some v => Returned (- v)
        | None => Raised ValueError
        end
      else
        match digits_value s with
        | Some v => Returned v
        | None => Raised ValueError
        end
  | EmptyString => Raised ValueError
  end.

(** [s[:-n]] *)
Definition drop_end (n : nat) (s : string) : string :=
  String.substring 0 (String.length s - n) s.

(** [int(str(ts)[:-3])], on the texts. *)
Definition drop_millis_text (ts : Z) : outcome Z :=
  int_of_str (drop_end 3 (pretty ts)).

(** ** scrapers/lotus.py: [fix_league] *)

(** The methods of [str] that [fix_league] calls, on the encoded text:
    [len(s)], [s.upper()], [x.capitalize()] and [s.split()].  They count
    and map code points and follow the Unicode character database. *)
Record str_methods : Type := StrMethods {
  py_len : string -> nat;
  py_upper : string -> string;
  py_capitalize : string -> string;
  py_split : string -> list string
}.

Definition fix_league (py : str_methods) (s : string) : string :=
  if (5 <? py_len py s)%nat then join " " (map (py_capitalize py) (py_split py s))
  else py_upper py s.

(** [x.capitalize()] on ASCII letters. *)
Definition capitalize (x : string) : string :=
  match x with
  | String a r => String (upper_ascii a) (lower r)
  | EmptyString => EmptyString
  end.

(** The characters of ASCII that are printable or white space. *)
Definition ascii_char (a : ascii) : bool :=
  Ascii.is_space a || ((32 <=? nat_of_ascii a) && (nat_of_ascii a <=? 126))%nat.

Fixpoint ascii_text (s : string) : bool :=
  match s with
  | EmptyString => true
  | String a r => ascii_char a && ascii_text r
  end.

(** On a text of such characters a code point is a byte and the methods
    are those of ASCII. *)
Definition on_ascii (py : str_methods) : Prop :=
  forall s, ascii_text s = true ->
    py_len py s = String.length s /\ py_upper py s = upper s /\
    py_capitalize py s = capitalize s /\ py_split py s = String.words s.

Definition ascii_methods : str_methods :=
  StrMethods String.length upper capitalize String.words.

(** ** scrapers/tvpass.py *)

(** [s.endswith(suffix)]: [suffix] is [s] or ends what follows the first
    character of [s]. *)
Fixpoint ends_with (suffix s : string) : bool :=
  bool_decide (s = suffix) ||
  match s with
  | String _ s' => ends_with suffix s'
  | EmptyString => false
  end.

(** The text before the first double quote of [s], when there is one. *)
Fixpoint until_quote (s : string) : option string :=
  match s with
  | EmptyString => None
  | String a s' =>
      if decide (a = dquote) then Some EmptyString
      else option_map (String a) (until_quote s')
  end.

(** [re.search] on the pattern made of [name], the equals sign and a run
    of characters other than the double quote between two double quotes:
    group 1 of the leftmost match. *)
Fixpoint attribute (name : string) (line : string) : option string :=
  let here :=
    match strip_prefix (name +:+ "=" +:+ String dquote "") line with
    | Some r => until_quote r
    | None => None
    end in
  match here with
  | Some v => Some v
  | None =>
      match line with
      | String _ rest => attribute name rest
      | EmptyString => None
      end
  end.

(** [c in s] for a character. *)
Fixpoint has_char (c : ascii) (s : string) : bool :=
  match s with
  | EmptyString => false
  | String a s' => bool_decide (a = c) || has_char c s'
  end.

(** [c.join(s.split(c)[:-1])]: the text before the last [c], empty when
    [c] does not occur. *)
Fixpoint before_last (c : ascii) (s : string) : string :=
  match s with
  | EmptyString => EmptyString
  | String a s' => if has_char c s' then String a (before_last c s') else EmptyString
  end.

(** [s.split(c)] *)
Fixpoint split_on (c : ascii) (s : string) : list string :=
  match s with
  | EmptyString => [EmptyString]
  | String a s' =>
      if decide (a = c) then EmptyString :: split_on c s'
      else
        match split_on c s' with
        | h :: t => String a h :: t
        | [] => [String a EmptyString]
        end
  end.

(** [parts[-2]] *)
Definition second_last (parts : list string) : outcome string :=
  match rev parts with
  | _ :: x :: _ => Returned x
  | _ => Raised IndexError
  end.

Module tvpass.

Definition BASE_URL : string := "https://tvpass.org/playlist/m3u".
Definition exp : Z := 86400.

Definition stream_url (channel : string) : string :=
  "http://origin.thetvapp.to/hls/" +:+ channel +:+ "/mono.m3u8".

Definition key_of (sport event : string) : string :=
  "[" +:+ sport +:+ "] " +:+ event +:+ " (TVP)".

Section adapter.
Context (info : string -> option string * string).

(** The [for] loop of [scrape] over the lines from [line] on; [data[i + 1]]
    is the line that follows.  The dictionary comes back as the loop left
    it, also when it raises. *)
Fixpoint visit (now_ts : Z) (data : list string) (urls : gmap string entry)
  : outcome unit * gmap string entry :=
  match data with
  | [] => (Returned tt, urls)
  | line :: following =>
      if starts_with "#EXTINF" line then
        if truthy (attribute "tvg-id" line) then visit now_ts following urls
        else
          match following with
          | [] => (Raised IndexError, urls)
          | url :: _ =>
              if ends_with "/sd" url then
                match attribute "tvg-name" line with
                | None => (Raised TypeError, urls)
                | Some tvg_name =>
                    if truthy (Some tvg_name) then
                      match attribute "group-title" line with
                      | None => (Raised TypeError, urls)
                      | Some group_title =>
                          let sport := strip (upper group_title) in
                          let event := strip (before_last "("%char tvg_name) in
                          let key := key_of sport event in
                          match second_last (split_on "/"%char url) with
                          | Raised e => (Raised e, urls)
                          | Returned channel =>
                              let entry :=
                                Entry (Some (stream_url channel)) (snd (info sport))
                                  "https://tvpass.org" now_ts
                                  (or_else (fst (info sport)) "Live.Event.us") None in
                              visit now_ts following (<[key := entry]> urls)
                          end
                      end
                    else visit now_ts following urls
                end
              else visit now_ts following urls
          end
      else visit now_ts following urls
  end.

(** [scrape(client)], started with the module dictionary [urls0]; [fetched]
    is what [fetch_m3u8] returns, the empty list when the request failed. *)
Definition scrape (now_ts : Z) (file : Cache.file_content)
    (urls0 : gmap string entry) (fetched : list string)
  : outcome unit * adapter_state :=
  let cached := Cache.load exp now_ts file in
  if decide (cached = ∅) then
    match fetched with
    | [] => (Returned tt, AdapterState cached urls0 None)
    | _ :: _ =>
        match visit now_ts fetched urls0 with
        | (Returned _, urls) => (Returned tt, AdapterState cached urls (Some urls))
        | (Raised e, urls) => (Raised e, AdapterState cached urls None)
        end
    end
  else (Returned tt, AdapterState cached (dict_update urls0 cached) None).

End adapter.
End tvpass.

(** ** scrapers/fstv.py: [process_event] *)

(** [s.split(sep)[0]]: the text before the first occurrence of [sep]. *)
Fixpoint before_sub (sep s : string) : string :=
  if starts_with sep s then EmptyString
  else
    match s with
    | String a s' => String a (before_sub sep s')
    | EmptyString => EmptyString
    end.

(** [s.split(sep)[-1]]: the text after the last occurrence of [sep], for a
    separator no two occurrences of which can overlap. *)
Fixpoint after_last_sub (sep s : string) : string :=
  match s with
  | EmptyString => EmptyString
  | String a s' =>
      if contains sep s' then after_last_sub sep s'
      else
        match strip_prefix sep s with
        | Some r => r
        | None => s
        end
  end.

Module fstv_page.

(** What the selectors of [process_event] reach in the page of a match:
    the texts of the category links, stripped; the ["content"] of the
    [og:title] element when there is one (the empty text for an element
    without the attribute, [None] for an attribute without value); the
    ["src"] of the first [iframe] when there is one ([None] when the
    attribute is absent or has no value). *)
Record match_page : Type := MatchPage {
  category_links : list string;
  og_title : option (option string);
  iframe : option (option string)
}.

Section adapter.
Context (unquote : string -> string).

(** [process_event(client, url, url_num)]: [fetched] is [None] when the
    request failed.  [Returned None] is the value of a call that falls off
    the end of the function. *)
Definition process_event (fetched : option match_page)
  : outcome (option (string * string)) :=
  match fetched with
  | None => Returned (Some ("", ""))
  | Some soup =>
      let match_name := last (category_links soup) in
      bind_outcome
        (if negb (truthy match_name) ||
            bool_decide (lower (default "" match_name) = "vs")
         then
           match og_title soup with
           | Some (Some content) => Returned (Some (strip (before_sub " start on" content)))
           | Some None => Raised AttributeError
           | None => Returned match_name
           end
         else Returned match_name)
        (fun match_name =>
           match iframe soup with
           | None => Returned (Some ("", ""))
           | Some src =>
               if truthy src then
                 Returned
                   (Some (or_else match_name "",
                          after_last_sub "link=" (unquote (default "" src))))
               else Returned None
           end)
  end.

End adapter.
End fstv_page.

(** ** scrapers/streambtw.py *)

Module streambtw.

Definition BASE_URL : string := "https://streambtw.com".
Definition exp : Z := 3600.

Definition key_of (sport name : string) : string :=
  "[" ++ sport ++ "] " ++ name ++ " (SBTW)".

(** One [div.card] of the front page: the button [a.btn.btn-primary], if
    the card has one, with its [href], if it has one; the stripped texts
    of [h5.card-title] and [p.card-text], for the cards that have them. *)
Record card : Type := Card {
  button : option (option string);
  card_title : option string;
  card_text : option string
}.

(** The dictionaries [get_events] returns. *)
Record listed : Type := Listed {
  l_sport : string;
  l_event : string;
  l_link : string
}.

Section adapter.
Context (urljoin : string -> string -> string).
Context (get_tvg_info : string -> string -> outcome (option string * string)).

(** The loop over the cards; [css_first] gives [None] for a missing node,
    and an attribute or a method of [None] is an [AttributeError]. *)
Fixpoint list_cards (cards : list card) (events : list listed)
  : outcome (list listed) :=
  match cards with
  | [] => Returned events
  | c :: rest =>
      match button c with
      | None => Raised AttributeError
      | Some href =>
          if negb (truthy href) then list_cards rest events
          else
            match card_title c with
            | None => Raised AttributeError
            | Some sport =>
                match card_text c with
                | None => Raised AttributeError
                | Some name =>
                    list_cards rest
                      (events ++
                       [Listed sport name (urljoin BASE_URL (default "" href))])
                end
            end
      end
  end.

(** [get_events(client)]; [page] is the outcome of fetching the front page
    and checking its status, with the cards of the page. *)
Definition get_events (page : outcome (list card)) : outcome (list listed) :=
  match page with
  | Raised e => if is_Exception e then Returned [] else Raised e
  | Returned cards => list_cards cards []
  end.

(** The loop of [scrape] from position [i] on; [resolve i ev] is the
    outcome of [await network.safe_process(handler, url_num=i, log=log,
    timeout=10)].  Only the module dictionary is updated. *)
Fixpoint resolve_all (resolve : Z -> listed -> outcome (option string))
    (now_ts : Z) (i : Z) (events : list listed) (st : adapter_state)
  : outcome unit * adapter_state :=
  match events with
  | [] => (Returned tt, st)
  | ev :: rest =>
      match resolve i ev with
      | Raised e => (Raised e, st)
      | Returned url =>
          if truthy url then
            let key := key_of (l_sport ev) (l_event ev) in
            match get_tvg_info (l_sport ev) (l_event ev) with
            | Raised e => (Raised e, st)
            | Returned (tvg_id, logo) =>
                let entry :=
                  Entry url logo BASE_URL now_ts
                    (or_else tvg_id "Live.Event.us") None in
                resolve_all resolve now_ts (i + 1) rest
                  (AdapterState (cached_urls st) (<[key := entry]> (urls st))
                     (written st))
            end
          else resolve_all resolve now_ts (i + 1) rest st
      end
  end.

(** [scrape(client)], started with the module dictionary [urls0];
    [cached] is what [CACHE_FILE.load()] returned and [now_ts] the time
    read once events have been listed. *)
Definition scrape (cached urls0 : gmap string entry) (page : outcome (list card))
    (now_ts : Z) (resolve : Z -> listed -> outcome (option string))
  : outcome unit * adapter_state :=
  if bool_decide (cached <> ∅) then
    (Returned tt, AdapterState cached (dict_update urls0 cached) None)
  else
    let st := AdapterState cached urls0 None in
    match get_events page with
    | Raised e => (Raised e, st)
    | Returned events =>
        match resolve_all resolve now_ts 1 events st with
        | (Returned _, st') =>
            (Returned tt, AdapterState (cached_urls st') (urls st') (Some (urls st')))
        | (Raised e, st') => (Raised e, st')
        end
    end.

End adapter.
End streambtw.

(** * Properties *)

(** ** Dictionaries *)

Lemma dict_or_lookup {V} (a b : gmap string V) k :
  dict_or a b !! k = match b !! k with Some v => Some v | None => a !! k end.
Proof.
  unfold dict_or. destruct (b !! k) as [v|] eqn:Hb.
  - by apply lookup_union_Some_l.
  - by rewrite lookup_union_r.
Qed.

Lemma dict_update_lookup {V} (d other : gmap string V) k :
  dict_update d other !! k =
  match other !! k with Some v => Some v | None => d !! k end.
Proof. apply dict_or_lookup. Qed.

(** ** The aggregator (fetch.py) *)

Section fetch_facts.
Import fetch.

Global Instance key_le_trans : Transitive key_le.
Proof. intros a b c. unfold key_le. apply transitivity. Qed.

Global Instance key_le_total : Total key_le.
Proof. intros a b. unfold key_le. apply total, _. Qed.

Lemma foldl_max_ge (xs : list Z) (x : Z) :
  x <= foldl Z.max x xs /\ Forall (fun y => y <= foldl Z.max x xs) xs.
Proof.
  revert x. induction xs as [|y ys IH]; intros x; simpl.
  - split; [lia | constructor].
  - destruct (IH (Z.max x y)) as [H1 H2]. split; [lia|].
    constructor; [lia | exact H2].
Qed.

Lemma foldl_max_elem (xs : list Z) (x : Z) :
  foldl Z.max x xs ∈ x :: xs.
Proof.
  revert x. induction xs as [|y ys IH]; intros x; simpl.
  - apply list_elem_of_here.
  - specialize (IH (Z.max x y)).
    apply elem_of_cons in IH as [IH | IH].
    + rewrite IH. destruct (Z.max_spec x y) as [[_ ->] | [_ ->]].
      * apply list_elem_of_further, list_elem_of_here.
      * apply list_elem_of_here.
    + by do 2 apply list_elem_of_further.
Qed.

(** [max(xs, default=0)] is the greatest element, and [0] when there is
    none. *)
Lemma max_default_spec (xs : list Z) :
  match xs with
  | [] => max_default 0 xs = 0
  | _ :: _ => max_default 0 xs ∈ xs /\ Forall (fun y => y <= max_default 0 xs) xs
  end.
Proof.
  destruct xs as [|x xs]; [reflexivity|]. simpl. split.
  - apply foldl_max_elem.
  - destruct (foldl_max_ge xs x) as [H1 H2]. by constructor.
Qed.

Lemma number_names (t i : Z) (items : list (string * entry)) :
  map tvg_name (fst (number t i items)) = map fst items /\
  map tvg_name (snd (number t i items)) = map fst items.
Proof.
  revert i. induction items as [|[ev info] rest IH]; intros i; simpl; [done|].
  specialize (IH (i + 1)). destruct (number t (i + 1) rest) as [c l]; simpl in *.
  destruct IH as [-> ->]. done.
Qed.

Lemma number_chnos (t i : Z) (items : list (string * entry)) :
  map chno (fst (number t i items)) = seqZ (t + i) (Z.of_nat (length items)) /\
  map chno (snd (number t i items)) = seqZ i (Z.of_nat (length items)).
Proof.
  revert i. induction items as [|[ev info] rest IH]; intros i.
  - done.
  - cbn [number length]. specialize (IH (i + 1)).
    destruct (number t (i + 1) rest) as [c l].
    cbn [fst snd map chno] in *. destruct IH as [IH1 IH2].
    rewrite Nat2Z.inj_succ.
    rewrite (seqZ_cons (t + i)), (seqZ_cons i) by lia.
    rewrite Z.pred_succ, IH1, IH2.
    replace (Z.succ (t + i)) with (t + (i + 1)) by lia.
    replace (Z.succ i) with (i + 1) by lia. done.
Qed.

Lemma sorted_items_perm (m : gmap string entry) :
  sorted_items m ≡ₚ map_to_list m.
Proof. apply merge_sort_Permutation. Qed.

Lemma sorted_items_length (m : gmap string entry) :
  length (sorted_items m) = size m.
Proof. rewrite sorted_items_perm. apply length_map_to_list. Qed.



Lemma sorted_items_lookup (m : gmap string entry) k e :
  (k, e) ∈ sorted_items m <-> m !! k = Some e.
Proof. rewrite sorted_items_perm. apply elem_of_map_to_list. Qed.

End fetch_facts.

Example load_base_example :
  fetch.load_base (fun s => [s])
    ("#EXTINF:-1 tvg-chno=" +:+ fetch.quoted "12" +:+ " tvg-id=" +:+ fetch.quoted "a" +:+
     newline +:+ "#EXTINF:-1 tvg-chno=" +:+ fetch.quoted "107" +:+
     newline +:+ "#EXTINF:-1 tvg-chno=" +:+ fetch.quoted "x9")
  = (["#EXTINF:-1 tvg-chno=" +:+ fetch.quoted "12" +:+ " tvg-id=" +:+ fetch.quoted "a" +:+
      newline +:+ "#EXTINF:-1 tvg-chno=" +:+ fetch.quoted "107" +:+
      newline +:+ "#EXTINF:-1 tvg-chno=" +:+ fetch.quoted "x9"], 107).
Proof. reflexivity. Qed.

(** ** The cache store *)

(** The entry [e] with its discovery time stamp set to [t]. *)
Definition stored_at (t : Z) (e : entry) : entry :=
  Entry (e_url e) (e_logo e) (e_base e) t (e_id e) (e_href e).

Lemma load_lookup (exp now_ts : Z) (m : gmap string entry) k e :
  Cache.load exp now_ts (Cache.Snapshot m) !! k = Some e <->
  m !! k = Some e /\ Cache.age now_ts e < exp.
Proof. unfold Cache.load. apply map_lookup_filter_Some. Qed.

(** C4.  [load] returns a stored entry exactly when its age is strictly
    below the TTL of the store; with a TTL of 3600 an entry stored at time 0
    is returned at time 3599 and the map is empty at time 3601; a missing or
    corrupt file gives the empty map. *)
Theorem C4_cache_load (exp now_ts : Z) (m : gmap string entry) (k : string)
    (e : entry) :
  (Cache.load exp now_ts (Cache.Snapshot m) !! k = Some e <->
   m !! k = Some e /\ Cache.age now_ts e < exp) /\
  Cache.load 3600 3599 (Cache.Snapshot {[k := stored_at 0 e]})
    = {[k := stored_at 0 e]} /\
  Cache.load 3600 3601 (Cache.Snapshot {[k := stored_at 0 e]}) = ∅ /\
  Cache.load exp now_ts Cache.Missing = ∅ /\
  Cache.load exp now_ts Cache.Corrupt = ∅.
Proof.
  split; [apply load_lookup|].
  split; [|split; [|done]].
  - unfold Cache.load. apply map_filter_id. intros i x Hx.
    apply lookup_singleton_Some in Hx as [_ <-]. unfold Cache.age. simpl. lia.
  - unfold Cache.load. apply map_empty_filter_2. intros i x Hx.
    apply lookup_singleton_Some in Hx as [_ <-]. unfold Cache.age. simpl. lia.
Qed.

(** ** The mirror selector *)

Section get_base_facts.
Import Network asyncio.

(** The verdict [get_base] reaches on one mirror. *)
Definition counted_as_working (r : response) : bool :=
  success_truth (as_gathered (check_status r)).

Lemma check_status_true (r : response) :
  check_status r = Returned true <-> r = Response 200.
Proof.
  destruct r as [s|e]; unfold check_status.
  - unfold raise_for_status.
    destruct ((200 <=? s) && (s <? 300)) eqn:Hs; simpl.
    + split; [intros [= H%Z.eqb_eq]; by subst | intros [= ->]; done].
    + split; [done | intros [= ->]; done].
  - destruct (is_httpx_error e); split; done.
Qed.

Lemma zip_with_map {A B} (f : A -> B) (l : list A) :
  zip l (map f l) = map (fun x => (x, f x)) l.
Proof. induction l as [|x l IH]; simpl; [done | by rewrite IH]. Qed.

(** [get_base] is the first mirror, in the order of the list, on which the
    verdict is positive; the times at which the probes end play no role. *)
Lemma get_base_first (net : string -> nat * response) (mirrors : list string) :
  get_base net mirrors =
  head (List.filter (fun m => counted_as_working (snd (net m))) mirrors).
Proof.
  unfold get_base, gather_return_exceptions. rewrite map_map. simpl.
  rewrite (zip_with_map (fun m => as_gathered (check_status (snd (net m))))).
  f_equal. induction mirrors as [|m ms IH]; simpl; [done|].
  unfold counted_as_working. destruct (success_truth _); simpl; by rewrite IH.
Qed.

Lemma get_base_order_independent (net net' : string -> nat * response)
    (mirrors : list string) :
  (forall m, snd (net m) = snd (net' m)) ->
  get_base net mirrors = get_base net' mirrors.
Proof.
  intros H. rewrite !get_base_first. f_equal.
  induction mirrors as [|m ms IH]; simpl; [done|]. by rewrite H, IH.
Qed.

(** When no probe lets an exception escape, the verdict is the health of
    the mirror: [get_base] is the first mirror answering with status 200,
    and [None] when there is none. *)
Lemma get_base_first_healthy (net : string -> nat * response)
    (mirrors : list string) :
  Forall (fun m => is_raised (check_status (snd (net m))) = false) mirrors ->
  get_base net mirrors =
  head (List.filter (fun m => bool_decide (snd (net m) = Response 200)) mirrors).
Proof.
  intros Hall. rewrite get_base_first. f_equal.
  induction Hall as [|m ms Hm _ IH]; simpl; [done|].
  rewrite IH. unfold counted_as_working.
  destruct (check_status (snd (net m))) as [b|e] eqn:Hc; [|done]. simpl.
  destruct b.
  - apply check_status_true in Hc. rewrite Hc. by rewrite bool_decide_eq_true_2.
  - rewrite bool_decide_eq_false_2; [done|].
    intros Heq. apply check_status_true in Heq. congruence.
Qed.

End get_base_facts.

(** The network of the example: mirror A is down, B and C are up. *)
Definition net_A_down (m : string) : nat * Network.response :=
  if decide (m = "A") then (1%nat, Network.Response 503)
  else if decide (m = "B") then (9%nat, Network.Response 200)
  else (2%nat, Network.Response 200).

Example get_base_A_down :
  Network.get_base net_A_down ["A"; "B"; "C"] = Some "B".
Proof. reflexivity. Qed.

(** A network on which the probe of the first mirror raises
    [httpx.InvalidURL], which [check_status] does not catch, and the second
    mirror answers 503. *)
Definition net_bad_url (m : string) : nat * Network.response :=
  if decide (m = "https://mirror.example:port") then (0%nat, Network.Fails InvalidURL)
  else (3%nat, Network.Response 503).

(** C5 (failing input).  No probe succeeds: the first one raises, the second
    one returns [False].  [get_base] still returns the first mirror, because
    the exception object gathered for it is truthy. *)
Theorem C5_get_base_takes_raised_probe :
  Network.check_status (snd (net_bad_url "https://mirror.example:port"))
    = Raised InvalidURL /\
  Network.check_status (snd (net_bad_url "https://fstv.us")) = Returned false /\
  Network.get_base net_bad_url ["https://mirror.example:port"; "https://fstv.us"]
    = Some "https://mirror.example:port".
Proof. repeat split; reflexivity. Qed.

(** ** The top-level join *)

Section gather_facts.
Import asyncio.
Context {A : Type}.

Definition first_raised_step (acc : option (nat * exn)) (t : nat * outcome A)
  : option (nat * exn) :=
  match snd t with
  | Returned _ => acc
  | Raised e =>
      match acc with
      | Some (t', _) => if (fst t <? t')%nat then Some (fst t, e) else acc
      | None => Some (fst t, e)
      end
  end.

Lemma first_raised_keeps (tasks : list (nat * outcome A)) (acc : option (nat * exn)) :
  is_Some acc -> is_Some (foldl first_raised_step acc tasks).
Proof.
  revert acc. induction tasks as [|t ts IH]; intros acc Hacc; simpl; [done|].
  apply IH. unfold first_raised_step.
  destruct (snd t); [done|]. destruct acc as [[t' e']|]; [|done].
  by destruct (fst t <? t')%nat.
Qed.

Lemma first_raised_finds (tasks : list (nat * outcome A)) (acc : option (nat * exn)) :
  Exists (fun t => is_raised (snd t) = true) tasks ->
  is_Some (foldl first_raised_step acc tasks).
Proof.
  intros H. revert acc. induction H as [t ts Ht | t ts _ IH]; intros acc; simpl.
  - apply first_raised_keeps. unfold first_raised_step.
    destruct (snd t); [done|]. destruct acc as [[t' e']|]; [|done].
    by destruct (fst t <? t')%nat.
  - apply IH.
Qed.

(** The plain [gather] raises as soon as one awaitable raises. *)
Lemma gather_raises (tasks : list (nat * outcome A)) :
  Exists (fun t => is_raised (snd t) = true) tasks ->
  exists e, gather tasks = Raised e.
Proof.
  intros H. unfold gather.
  destruct (first_raised_finds tasks None H) as [[t e] He].
  unfold first_raised. change (foldl _ None tasks) with (foldl first_raised_step None tasks).
  rewrite He. by exists e.
Qed.

End gather_facts.

(** Whenever one adapter task raises, [main] raises and writes no file,
    whatever the other adapters put into their [urls]. *)
Lemma main_fails_fast (splitlines : string -> list string) (data : string)
    (runs : list fetch.adapter_run) :
  Exists (fun r => is_raised (fetch.scrape_outcome r) = true) runs ->
  exists e, fetch.main splitlines data runs = (Raised e, fetch.Files None None).
Proof.
  intros H. unfold fetch.main. simpl.
  destruct (gather_raises (map (fun r => (fetch.finished_at r, fetch.scrape_outcome r)) runs))
    as [e He].
  - apply Exists_fmap. eapply Exists_impl; [exact H|]. done.
  - rewrite He. by exists e.
Qed.

Lemma gather_returns {A} (tasks : list (nat * outcome A)) :
  Forall (fun t => is_raised (snd t) = false) tasks ->
  asyncio.gather tasks = Returned (asyncio.returned_values tasks).
Proof.
  intros H. unfold asyncio.gather, asyncio.first_raised.
  change (foldl _ None tasks) with (foldl (@first_raised_step A) None tasks).
  assert (foldl (@first_raised_step A) None tasks = None) as ->; [|done].
  induction H as [|t ts Ht _ IH]; simpl; [done|].
  unfold first_raised_step at 2. by destruct (snd t).
Qed.

(** When every adapter task returns, [main] goes on to merge what the
    modules hold and to write the playlists. *)
Lemma main_merges (splitlines : string -> list string) (data : string)
    (runs : list fetch.adapter_run) :
  Forall (fun r => is_raised (fetch.scrape_outcome r) = false) runs ->
  fetch.main splitlines data runs =
  fetch.merge_and_write (fst (fetch.load_base splitlines data))
    (snd (fetch.load_base splitlines data)) runs.
Proof.
  intros H. unfold fetch.main. simpl.
  rewrite gather_returns; [done|].
  apply Forall_fmap. eapply Forall_impl; [exact H|]. done.
Qed.

(** The inputs of the failing run: every fstv mirror answers, the schedule
    page lists one match, and its resolution times out inside
    [safe_process], which then returns [None]. *)
Definition net_all_up (m : string) : nat * Network.response :=
  (1%nat, Network.Response 200).

Definition one_match_page : fstv.page :=
  [[fstv.LeagueBlock (Some "[NBA] Lakers vs Celtics") [Some "/match/1"]]].

Definition plain_urljoin (b h : string) : string := b +:+ h.
Definition no_league_info (sport : string) : option string * string :=
  (None, "https://i.gyazo.com/978f2eb4a199ca5b56b447aded0cb9e3.png").

Definition fstv_failing_run : outcome unit * adapter_state :=
  fstv.scrape plain_urljoin no_league_info 1000 Cache.Missing ∅ net_all_up
    (Some one_match_page) (fun _ _ => None).

Definition tvpass_entry : entry :=
  Entry (Some "http://origin.thetvapp.to/hls/espn/mono.m3u8")
    "https://i.gyazo.com/978f2eb4a199ca5b56b447aded0cb9e3.png"
    "https://tvpass.org" 1000 "Live.Event.us" None.

Definition failing_runs : list fetch.adapter_run :=
  [fetch.AdapterRun 5 (fst fstv_failing_run) (urls (snd fstv_failing_run));
   fetch.AdapterRun 2 (Returned tt) {["[SPORTS] ESPN (TVP)" := tvpass_entry]}].

(** C1 (failing input).  The fstv task raises [TypeError] when it unpacks the
    [None] that [safe_process] returned; the watchfooty refresh raises
    [IndexError] when every endpoint request failed.  With the fstv task
    raising and another adapter having contributed a live entry, [main]
    raises at the join and writes neither playlist. *)
Theorem C1_main_aborts_on_adapter_error :
  fst fstv_failing_run = Raised TypeError /\
  watchfooty.refresh_api_cache [[]; []; []; []; []; []; []; []] 1000
    = Raised IndexError /\
  fetch.additions failing_runs !! "[SPORTS] ESPN (TVP)" = Some tvpass_entry /\
  fetch.main (fun s => [s]) "#EXTM3U" failing_runs
    = (Raised TypeError, fetch.Files None None).
Proof. repeat split; vm_compute; reflexivity. Qed.

(** ** The bounded resolver *)

Section safe_process_facts.
Import Network asyncio.
Context {A : Type}.

(** [fn] finished by itself before the deadline: the caller gets the value,
    or [None] and an error record when [fn] raised an exception other than
    [TimeoutError]. *)
Lemma safe_process_completed (fl : flavour) (fn : coro A) (url_num : Z) (timeout : nat) :
  completes_before fn (seconds timeout) = true ->
  safe_process fl fn url_num timeout =
  match result fn with
  | Returned v => Some (Returned (Some v), SpFinal (Done (Returned v)) [] [TaskCreate])
  | Raised e =>
      if decide (e = TimeoutError) then
        Some (Returned None,
              SpFinal (Done (Raised e))
                [LogRecord WARNING (timed_out_msg url_num timeout);
                 LogRecord DEBUG (ignore_msg url_num e)]
                [TaskCreate; TaskCancel; TaskAwait])
      else if is_Exception e then
        Some (Returned None,
              SpFinal (Done (Raised e)) [LogRecord ERROR (unexpected_msg url_num e)]
                [TaskCreate])
      else Some (Raised e, SpFinal (Done (Raised e)) [] [TaskCreate])
  end.
Proof.
  intros Hc. unfold safe_process, wait_for. rewrite Hc.
  destruct (result fn) as [v|e]; [done|].
  destruct e; simpl; try done.
Qed.

(** The deadline expired and the operation, once cancelled, ended as
    cancelled: [None], one warning, and the task cancelled and awaited. *)
Lemma safe_process_timed_out (fl : flavour) (fn : coro A) (url_num : Z) (timeout : nat) :
  completes_before fn (seconds timeout) = false ->
  on_cancel fn = Some (Raised CancelledError) ->
  safe_process fl fn url_num timeout =
  Some (Returned None,
        SpFinal (Done (Raised CancelledError))
          [LogRecord WARNING (timed_out_msg url_num timeout)]
          [TaskCreate; TaskCancel; TaskAwait]).
Proof.
  intros Hc Hoc. unfold safe_process, wait_for, await, cancel.
  rewrite Hc, Hoc. by destruct fl.
Qed.

(** The deadline expired and the cancelled operation ended with an
    exception of class [Exception]: [None] again. *)
Lemma safe_process_timed_out_failing (fl : flavour) (fn : coro A) (url_num : Z)
    (timeout : nat) (e : exn) :
  completes_before fn (seconds timeout) = false ->
  on_cancel fn = Some (Raised e) -> is_Exception e = true ->
  exists fin, safe_process fl fn url_num timeout = Some (Returned None, fin).
Proof.
  intros Hc Hoc He. unfold safe_process, wait_for, await, cancel.
  rewrite Hc, Hoc. destruct fl, e; simpl in *; try done; eauto.
Qed.

(** [wait_for], waiting for the task it cancels, reports the timeout: the
    caller gets [None], and the first record logged is the warning. *)
Lemma safe_process_timeout_reported (fn : coro A) (url_num : Z) (timeout : nat)
    (st : task_state A) :
  wait_for CancelAndWait fn Pending (seconds timeout) = Some (Raised TimeoutError, st) ->
  exists fin,
    safe_process CancelAndWait fn url_num timeout = Some (Returned None, fin) /\
    head (map lvl (sp_logs fin)) = Some WARNING.
Proof.
  intros Hw. unfold safe_process. rewrite Hw.
  assert (exists e, st = Done (Raised e) /\ (e = CancelledError \/ e = TimeoutError))
    as (e & -> & He).
  { revert Hw. unfold wait_for.
    destruct (completes_before fn (seconds timeout)).
    - intros [= -> <-]. eauto.
    - destruct (on_cancel fn) as [[v|e]|]; [done | | done].
      destruct e; intros [= <-]; eauto. }
  simpl. destruct He as [-> | ->]; simpl; eauto.
Qed.

(** The deadline expired: what comes back is decided by how the cancelled
    operation ends. *)
Lemma safe_process_expired (fl : flavour) (fn : coro A) (url_num : Z) (timeout : nat) :
  completes_before fn (seconds timeout) = false ->
  match on_cancel fn with
  | None => safe_process fl fn url_num timeout = None
  | Some o =>
      exists r logged ops,
        safe_process fl fn url_num timeout = Some (r, SpFinal (Done o) logged ops) /\
        (is_raised r = true -> exists e, o = Raised e /\ r = Raised e /\ is_Exception e = false)
  end.
Proof.
  intros Hc. unfold safe_process, wait_for, await, cancel. rewrite Hc.
  destruct (on_cancel fn) as [[v|e]|], fl; try done;
    try destruct e; simpl; eexists _, _, _; (split; [reflexivity|]);
    intros; simplify_eq/=; eauto.
Qed.

Lemma safe_process_done (fl : flavour) (fn : coro A) (url_num : Z) (timeout : nat)
    (r : outcome (option A)) (fin : sp_final A) :
  safe_process fl fn url_num timeout = Some (r, fin) ->
  done (sp_task fin) = true.
Proof.
  intros H. destruct (completes_before fn (seconds timeout)) eqn:Hc.
  - rewrite (safe_process_completed _ _ _ _ Hc) in H.
    destruct (result fn) as [v|e]; [by simplify_eq|].
    destruct (decide (e = TimeoutError)); [by simplify_eq|].
    destruct (is_Exception e); by simplify_eq.
  - pose proof (safe_process_expired fl fn url_num timeout Hc) as He.
    destruct (on_cancel fn); [|congruence].
    destruct He as (r' & lg & ops & He & _). rewrite He in H. by simplify_eq.
Qed.

Lemma safe_process_cancelled_task (fl : flavour) (fn : coro A) (url_num : Z)
    (timeout : nat) (r : outcome (option A)) (fin : sp_final A) :
  safe_process fl fn url_num timeout = Some (r, fin) ->
  completes_before fn (seconds timeout) = false ->
  exists o, on_cancel fn = Some o /\ sp_task fin = Done o.
Proof.
  intros H Hc. pose proof (safe_process_expired fl fn url_num timeout Hc) as He.
  destruct (on_cancel fn) as [o|]; [|congruence].
  destruct He as (r' & lg & ops & He & _). rewrite He in H. simplify_eq. eauto.
Qed.

Lemma safe_process_cancels_then_awaits (fl : flavour) (fn : coro A) (url_num : Z)
    (timeout : nat) (r : outcome (option A)) (fin : sp_final A)
    (st : task_state A) :
  safe_process fl fn url_num timeout = Some (r, fin) ->
  wait_for fl fn Pending (seconds timeout) = Some (Raised TimeoutError, st) ->
  sp_ops fin = [TaskCreate; TaskCancel; TaskAwait].
Proof.
  unfold safe_process. intros H Hw. rewrite Hw in H.
  destruct (await fn (cancel st)) as [[[v|e] st']|]; [by simplify_eq | | done].
  destruct (decide (e = CancelledError)); [by simplify_eq|].
  destruct (is_Exception e); by simplify_eq.
Qed.

Lemma safe_process_returns (fl : flavour) (fn : coro A) (url_num : Z) (timeout : nat) :
  completes_before fn (seconds timeout) = true \/ is_Some (on_cancel fn) ->
  is_Some (safe_process fl fn url_num timeout).
Proof.
  intros H. destruct (completes_before fn (seconds timeout)) eqn:Hc.
  - rewrite (safe_process_completed _ _ _ _ Hc).
    destruct (result fn) as [v|e]; [done|].
    destruct (decide (e = TimeoutError)); [done|]. by destruct (is_Exception e).
  - destruct H as [H | [o Ho]]; [done|].
    pose proof (safe_process_expired fl fn url_num timeout Hc) as He.
    rewrite Ho in He. destruct He as (r' & lg & ops & He & _). by rewrite He.
Qed.

Lemma safe_process_no_propagation (fl : flavour) (fn : coro A) (url_num : Z)
    (timeout : nat) (r : outcome (option A)) (fin : sp_final A) :
  (forall e, result fn = Raised e -> is_Exception e = true) ->
  (forall e, on_cancel fn = Some (Raised e) ->
             is_Exception e = true \/ e = CancelledError) ->
  safe_process fl fn url_num timeout = Some (r, fin) ->
  exists x, r = Returned x.
Proof.
  intros Hres Hoc H. destruct (completes_before fn (seconds timeout)) eqn:Hc.
  - rewrite (safe_process_completed _ _ _ _ Hc) in H.
    destruct (result fn) as [v|e]; [simplify_eq; eauto|].
    destruct (decide (e = TimeoutError)); [simplify_eq; eauto|].
    rewrite (Hres e eq_refl) in H. simplify_eq; eauto.
  - pose proof (safe_process_expired fl fn url_num timeout Hc) as He.
    destruct (on_cancel fn) as [o|] eqn:Hon; [|congruence].
    destruct He as (r' & lg & ops & He & Hr). rewrite He in H. simplify_eq.
    destruct r as [x|e]; [eauto|].
    destruct (Hr eq_refl) as (e' & -> & ? & Hne). simplify_eq.
    destruct (Hoc e' eq_refl) as [Hx | ->]; [congruence|].
    rewrite (safe_process_timed_out _ _ _ _ Hc Hon) in He. simplify_eq.
Qed.

End safe_process_facts.

(** C2 (amended).  [safe_process] returns the result of [fn] when [fn]
    completes before the deadline.  When [fn] raises before the deadline,
    an exception of class [Exception] is answered by [None] and one record
    at level ERROR, unless it is a [TimeoutError]: that one is taken for the
    deadline and answered by [None] after a WARNING (and a DEBUG record
    for the await that follows); an exception outside [Exception] reaches
    the caller.  When the deadline expires the task is cancelled, and what
    comes back depends on how the cancelled operation ends: as cancelled,
    [None] after one WARNING; with an exception of class [Exception],
    [None], after the WARNING when [wait_for] only requests the
    cancellation or the exception is a [TimeoutError], after an ERROR
    otherwise; with an exception outside [Exception], that exception; with
    a value, that value and no record when [wait_for] waits for the
    cancelled task, [None] after one WARNING otherwise; and when the
    cancelled operation never ends, the call does not come back. *)
Theorem C2_safe_process_outcomes {A : Type} (fl : asyncio.flavour)
    (fn : asyncio.coro A) (url_num : Z) (timeout : nat) :
  let run := Network.safe_process fl fn url_num timeout in
  let ends (r : outcome (option A)) (levels : list level) : Prop :=
    exists fin, run = Some (r, fin) /\ map lvl (Network.sp_logs fin) = levels in
  (asyncio.completes_before fn (seconds timeout) = true ->
   match asyncio.result fn with
   | Returned v => ends (Returned (Some v)) []
   | Raised e =>
       if decide (e = TimeoutError) then ends (Returned None) [WARNING; DEBUG]
       else if is_Exception e then ends (Returned None) [ERROR]
       else ends (Raised e) []
   end) /\
  (asyncio.completes_before fn (seconds timeout) = false ->
   match asyncio.on_cancel fn with
   | None => run = None
   | Some (Raised e) =>
       if decide (e = CancelledError) then ends (Returned None) [WARNING]
       else if is_Exception e then
         ends (Returned None)
           match fl with
           | asyncio.CancelOnly => [WARNING; DEBUG]
           | asyncio.CancelAndWait =>
               if decide (e = TimeoutError) then [WARNING; DEBUG] else [ERROR]
           end
       else
         ends (Raised e)
           match fl with
           | asyncio.CancelOnly => [WARNING]
           | asyncio.CancelAndWait => []
           end
   | Some (Returned v) =>
       match fl with
       | asyncio.CancelAndWait => ends (Returned (Some v)) []
       | asyncio.CancelOnly => ends (Returned None) [WARNING]
       end
   end).
Proof.
  intros run ends. subst run ends. cbv beta. split.
  - intros Hc. rewrite (safe_process_completed _ _ _ _ Hc).
    destruct (asyncio.result fn) as [v|e]; [by eexists|].
    destruct (decide (e = TimeoutError)); [by eexists|].
    destruct (is_Exception e); by eexists.
  - intros Hc. unfold Network.safe_process, asyncio.wait_for, asyncio.await,
      asyncio.cancel. rewrite Hc.
    destruct (asyncio.on_cancel fn) as [[v|e]|]; [by destruct fl; eexists | | by destruct fl].
    destruct fl, e; simpl; by eexists.
Qed.

(** Four operations: one that resolves after three seconds, one that never
    ends by itself, one that fails after ten milliseconds, one that fails
    after ten milliseconds with a time-out of its own; each honours a
    cancellation. *)
Definition op_resolves : asyncio.coro string :=
  asyncio.Coro (Some 3000%nat) (Returned "https://cdn.example/live.m3u8")
    (Some (Raised CancelledError)).
Definition op_hangs : asyncio.coro string :=
  asyncio.Coro None (Returned "") (Some (Raised CancelledError)).
Definition op_fails : asyncio.coro string :=
  asyncio.Coro (Some 10%nat) (Raised (RuntimeError "boom"))
    (Some (Raised CancelledError)).
Definition op_own_timeout : asyncio.coro string :=
  asyncio.Coro (Some 10%nat) (Raised TimeoutError) (Some (Raised CancelledError)).

Lemma C2_safe_process_outcomes_witness :
  (exists fin,
     Network.safe_process asyncio.CancelAndWait op_resolves 1 15
       = Some (Returned (Some "https://cdn.example/live.m3u8"), fin) /\
     map lvl (Network.sp_logs fin) = []) /\
  (exists fin,
     Network.safe_process asyncio.CancelAndWait op_hangs 2 15
       = Some (Returned None, fin) /\
     map lvl (Network.sp_logs fin) = [WARNING]) /\
  (exists fin,
     Network.safe_process asyncio.CancelAndWait op_fails 3 15
       = Some (Returned None, fin) /\
     map lvl (Network.sp_logs fin) = [ERROR]).
Proof.
  split; [|split].
  - destruct (C2_safe_process_outcomes asyncio.CancelAndWait op_resolves 1 15)
      as [H _].
    exact (H eq_refl).
  - destruct (C2_safe_process_outcomes asyncio.CancelAndWait op_hangs 2 15)
      as [_ H].
    exact (H eq_refl).
  - destruct (C2_safe_process_outcomes asyncio.CancelAndWait op_fails 3 15)
      as [H _].
    exact (H eq_refl).
Defined.

(** Two more operations.  One never ends, cancelled or not.  The other
    answers its cancellation by returning a value. *)
Definition op_deaf : asyncio.coro string := asyncio.Coro None (Returned "") None.
Definition op_late : asyncio.coro string :=
  asyncio.Coro None (Returned "") (Some (Returned "late")).

(** C2 (counterexample to the claim as stated).  An operation that fails
    before the deadline with a [TimeoutError] of its own is reported as a
    time-out, at level WARNING, and no record at level ERROR is logged; and
    when the deadline expires on an operation that answers its cancellation
    with a value, [wait_for], waiting for the cancelled task, hands that
    value over and [safe_process] returns it, not [None], with no record. *)
Lemma C2_own_timeout_logged_as_warning :
  asyncio.completes_before op_own_timeout (seconds 15) = true /\
  (exists fin,
     Network.safe_process asyncio.CancelAndWait op_own_timeout 1 15
       = Some (Returned None, fin) /\
     map lvl (Network.sp_logs fin) = [WARNING; DEBUG] /\
     head (map msg (Network.sp_logs fin)) = Some (Network.timed_out_msg 1 15)) /\
  asyncio.completes_before op_late (seconds 5) = false /\
  (exists fin,
     Network.safe_process asyncio.CancelAndWait op_late 1 5
       = Some (Returned (Some "late"), fin) /\
     Network.sp_logs fin = []).
Proof.
  split; [reflexivity|]. split; [eexists; repeat split; reflexivity|].
  split; [reflexivity|]. eexists. split; reflexivity.
Qed.

(** C3.  [safe_process] comes back unless the cancelled operation never
    ends; whenever it comes back the task it created for [fn] is done; when
    the deadline expired that task has been cancelled and has run its
    cancellation to the end; and when [wait_for] reports the timeout the
    function itself cancels the task and then awaits it before returning. *)
Theorem C3_safe_process_leaves_no_task {A : Type} (fl : asyncio.flavour)
    (fn : asyncio.coro A) (url_num : Z) (timeout : nat) :
  (asyncio.completes_before fn (seconds timeout) = true \/
   is_Some (asyncio.on_cancel fn) ->
   is_Some (Network.safe_process fl fn url_num timeout)) /\
  (forall r fin,
     Network.safe_process fl fn url_num timeout = Some (r, fin) ->
     asyncio.done (Network.sp_task fin) = true /\
     (asyncio.completes_before fn (seconds timeout) = false ->
      exists o, asyncio.on_cancel fn = Some o /\
                Network.sp_task fin = asyncio.Done o) /\
     (forall st,
        asyncio.wait_for fl fn asyncio.Pending (seconds timeout)
          = Some (Raised TimeoutError, st) ->
        Network.sp_ops fin = [TaskCreate; TaskCancel; TaskAwait])).
Proof.
  split; [apply safe_process_returns|].
  intros r fin H. split; [|split].
  - eapply safe_process_done; eauto.
  - intros Hc. eapply safe_process_cancelled_task; eauto.
  - intros st Hw. eapply safe_process_cancels_then_awaits; eauto.
Qed.

Lemma C3_safe_process_leaves_no_task_witness :
  exists r fin,
    Network.safe_process asyncio.CancelOnly op_hangs 1 5 = Some (r, fin) /\
    asyncio.done (Network.sp_task fin) = true /\
    Network.sp_task fin = asyncio.Done (Raised CancelledError) /\
    Network.sp_ops fin = [TaskCreate; TaskCancel; TaskAwait].
Proof.
  destruct (C3_safe_process_leaves_no_task asyncio.CancelOnly op_hangs 1 5)
    as [Hret Hfin].
  destruct Hret as [[r fin] Hrun]; [right; eexists; reflexivity|].
  exists r, fin. destruct (Hfin r fin Hrun) as [Hdone [Hc Hops]].
  split; [exact Hrun|]. split; [exact Hdone|]. split.
  - destruct (Hc eq_refl) as [o [Ho ->]]. simpl in Ho. congruence.
  - apply (Hops asyncio.Cancelling). reflexivity.
Defined.

(** An operation that never ends keeps [safe_process] from coming back,
    since it waits for the cancelled task; the value with which an operation
    answers its cancellation is lost when [wait_for] only requested the
    cancellation. *)
Remark safe_process_waits_for_cancellation (fl : asyncio.flavour) :
  Network.safe_process fl op_deaf 1 5 = None.
Proof. by destruct fl. Qed.

Remark safe_process_swallowed_cancellation :
  fst <$> Network.safe_process asyncio.CancelAndWait op_late 1 5
    = Some (Returned (Some "late")) /\
  fst <$> Network.safe_process asyncio.CancelOnly op_late 1 5
    = Some (Returned None).
Proof. split; reflexivity. Qed.

(** ** The capture bridge: pages and listeners *)

Definition is_page_op (o : op) : bool :=
  match o with
  | NewPage | On | RemoveListener | Close => true
  | _ => false
  end.

(** The operations of a trace that open or close a page or a listener. *)
Definition page_ops (tr : list op) : list op := List.filter is_page_op tr.

(** Pages opened and not closed, listeners installed and not removed. *)
Definition open_pages (tr : list op) : Z :=
  Z.of_nat (count_occ op_eq_dec tr NewPage) - Z.of_nat (count_occ op_eq_dec tr Close).
Definition live_listeners (tr : list op) : Z :=
  Z.of_nat (count_occ op_eq_dec tr On) - Z.of_nat (count_occ op_eq_dec tr RemoveListener).

(** A computation that always comes back and neither opens nor closes
    anything. *)
Definition quiet {A} (m : M A) : Prop :=
  forall w, exists r w', m w = Some (r, w') /\ page_ops (trace w') = page_ops (trace w).

Create HintDb quiet.

Section quiet_facts.
Context {A B : Type}.

Lemma quiet_ret (a : A) : quiet (ret a).
Proof. intros w. by exists (Returned a), w. Qed.

Lemma quiet_raise (e : exn) : quiet (@raise A e).
Proof. intros w. by exists (Raised e), w. Qed.

Lemma quiet_of_outcome (o : outcome A) : quiet (of_outcome o).
Proof. intros w. by exists o, w. Qed.

Lemma quiet_bind (m : M A) (k : A -> M B) :
  quiet m -> (forall a, quiet (k a)) -> quiet (bind m k).
Proof.
  intros Hm Hk w. destruct (Hm w) as (r & w1 & Hr & Ht). unfold bind. rewrite Hr.
  destruct r as [a|e].
  - destruct (Hk a w1) as (r2 & w2 & Hr2 & Ht2). exists r2, w2.
    split; [done | congruence].
  - by exists (Raised e), w1.
Qed.

Lemma quiet_try_except (m : M A) (c : exn -> bool) (h : exn -> M A) :
  quiet m -> (forall e, quiet (h e)) -> quiet (try_except m c h).
Proof.
  intros Hm Hh w. destruct (Hm w) as (r & w1 & Hr & Ht). unfold try_except. rewrite Hr.
  destruct r as [a|e]; [by exists (Returned a), w1|].
  destruct (c e); [|by exists (Raised e), w1].
  destruct (Hh e w1) as (r2 & w2 & Hr2 & Ht2). exists r2, w2.
  split; [done | congruence].
Qed.

Lemma quiet_try_finally (m : M A) (f : M unit) :
  quiet m -> quiet f -> quiet (try_finally m f).
Proof.
  intros Hm Hf w. destruct (Hm w) as (r & w1 & Hr & Ht).
  destruct (Hf w1) as (r2 & w2 & Hr2 & Ht2).
  unfold try_finally. rewrite Hr, Hr2.
  destruct r2 as [[]|e]; eexists _, w2; (split; [done | congruence]).
Qed.

End quiet_facts.

Lemma quiet_emit (o : op) : is_page_op o = false -> quiet (emit o).
Proof.
  intros Ho w. eexists _, _. split; [reflexivity|]. simpl.
  unfold page_ops. rewrite List.filter_app. simpl. rewrite Ho. by rewrite app_nil_r.
Qed.

Lemma quiet_tick (d : nat) : quiet (tick d).
Proof. intros w. eexists _, _. split; [reflexivity | done]. Qed.

Lemma quiet_now : quiet now.
Proof. intros w. eexists _, _. split; [reflexivity | done]. Qed.

Lemma quiet_log_call (has_log : bool) (l : level) (m : string) :
  quiet (log_call has_log l m).
Proof.
  intros w. unfold log_call. destruct has_log; eexists _, _; (split; [reflexivity | done]).
Qed.

Global Hint Resolve quiet_ret quiet_raise quiet_of_outcome quiet_bind
  quiet_try_except quiet_try_finally quiet_tick quiet_now quiet_log_call : quiet.

Section wait_facts.
Import Network asyncio.

Lemma quiet_await_wait_for (fl : flavour) (reqs : timeline) (t timeout : nat)
    (i : option nat) :
  quiet (await_wait_for fl (got_one_wait reqs t) timeout i).
Proof.
  intros w. unfold await_wait_for, wait_for_interruptible, wait_for. simpl.
  repeat case_match; simplify_eq; eexists _, _; (split; [reflexivity | done]).
Qed.

Lemma quiet_reap_wait_task (reqs : timeline) (t : nat) (st : task_state bool) :
  quiet (reap_wait_task (got_one_wait reqs t) st).
Proof.
  unfold reap_wait_task. destruct (done st) eqn:Hd; [apply quiet_ret|].
  apply quiet_bind; [by apply quiet_emit|]. intros _.
  apply quiet_bind; [by apply quiet_emit|]. intros _.
  apply quiet_try_except; [|intros; apply quiet_ret].
  apply quiet_bind; [|intros; apply quiet_ret].
  intros w. unfold await_task, await.
  destruct st; simpl in *; try done; eexists _, _; (split; [reflexivity | done]).
Qed.

Lemma quiet_wait_block (fl : flavour) (env : page_env) (t0 : nat) (url_num : Z)
    (timeout : nat) (log : bool) :
  quiet (wait_block fl env t0 url_num timeout log).
Proof.
  unfold wait_block.
  apply quiet_bind; [apply quiet_now|]. intros t.
  apply quiet_bind; [by apply quiet_emit|]. intros _.
  apply quiet_bind; [apply quiet_await_wait_for|]. intros r.
  apply quiet_try_finally; [|apply quiet_reap_wait_task].
  auto 10 with quiet.
Qed.

Lemma teardown_trace (env : page_env) (w : world) :
  exists r w', teardown env w = Some (r, w') /\
               trace w' = trace w ++ [RemoveListener; Close].
Proof.
  unfold teardown, bind, emit, of_outcome. simpl.
  eexists _, _. split; [reflexivity|]. simpl. by rewrite <- app_assoc.
Qed.

End wait_facts.

Section release_facts.
Import Network asyncio.

(** What a resolution adds to the page operations of the trace. *)
Definition opened_and_released (env : page_env) : list op :=
  match new_page_res env with
  | Returned _ => [NewPage; On; RemoveListener; Close]
  | Raised _ => []
  end.

Lemma count_page_ops (tr : list op) (o : op) :
  is_page_op o = true ->
  count_occ op_eq_dec (page_ops tr) o = count_occ op_eq_dec tr o.
Proof.
  intros Ho. induction tr as [|x tr IH]; simpl; [done|].
  destruct (is_page_op x) eqn:Hx; simpl.
  - destruct (op_eq_dec x o); by rewrite IH.
  - destruct (op_eq_dec x o) as [->|]; [congruence | done].
Qed.

Lemma balance_of_page_ops (tr tr' : list op) (env : page_env) :
  page_ops tr' = page_ops tr ++ opened_and_released env ->
  open_pages tr' = open_pages tr /\ live_listeners tr' = live_listeners tr.
Proof.
  intros H. unfold open_pages, live_listeners.
  rewrite <- !(count_page_ops tr'), <- !(count_page_ops tr) by done.
  rewrite H, !count_occ_app. unfold opened_and_released.
  destruct (new_page_res env); simpl; lia.
Qed.

(** The common frame of both [process_event] functions: a page is opened,
    the handler installed, and a guarded body runs under the [finally]
    clause that removes the handler and closes the page. *)
Lemma guarded_page (env : page_env) (body : nat -> M (option string)) (w : world) :
  (forall t0, quiet (body t0)) ->
  exists r w',
    (of_outcome (new_page_res env) ;;
     emit NewPage ;;
     emit On ;;
     t0 <- now ;;
     try_finally (body t0) (teardown env))%py w = Some (r, w') /\
    page_ops (trace w') = page_ops (trace w) ++ opened_and_released env.
Proof.
  intros Hq. unfold opened_and_released, bind at 1, of_outcome.
  destruct (new_page_res env) as [[]|e].
  - unfold bind, emit, now, try_finally. cbn -[teardown page_ops].
    destruct (Hq (clock w) (World (clock w) (logs w) ((trace w ++ [NewPage]) ++ [On])))
      as (r & w1 & Hr & Ht).
    rewrite Hr. destruct (teardown_trace env w1) as (r2 & w2 & Hr2 & Ht2).
    rewrite Hr2. cbn -[page_ops] in Ht.
    assert (page_ops (trace w2) = page_ops (trace w) ++ [NewPage; On; RemoveListener; Close])
      as Hops.
    { rewrite Ht2. unfold page_ops in *. rewrite List.filter_app, Ht.
      rewrite !List.filter_app. simpl. by rewrite <- !app_assoc. }
    destruct r2 as [[]|e2]; eexists _, w2; (split; [reflexivity | exact Hops]).
  - exists (Raised e), w. split; [done | by rewrite app_nil_r].
Qed.

Lemma process_event_page_ops (fl : flavour) (env : page_env) (url_num : Z)
    (timeout : nat) (log : bool) (w : world) :
  exists r w',
    Network.process_event fl env url_num timeout log w = Some (r, w') /\
    page_ops (trace w') = page_ops (trace w) ++ opened_and_released env.
Proof.
  unfold Network.process_event. apply guarded_page. intros t0.
  apply quiet_try_except; [|auto with quiet].
  apply quiet_bind; [by apply quiet_emit|]. intros _.
  apply quiet_bind; [apply quiet_tick|]. intros _.
  apply quiet_bind; [apply quiet_of_outcome|]. intros _.
  apply quiet_bind; [apply quiet_wait_block|]. intros [v|]; [apply quiet_ret|].
  apply quiet_bind; [apply quiet_now|]. intros t.
  destruct (fst (observed (requests env) (t - t0))); auto with quiet.
Qed.

Lemma watchfooty_process_event_page_ops (fl : flavour) (env : page_env)
    (header : nat * outcome string) (url_num : Z) (w : world) :
  exists r w',
    watchfooty.process_event fl env header url_num w = Some (r, w') /\
    page_ops (trace w') = page_ops (trace w) ++ opened_and_released env.
Proof.
  unfold watchfooty.process_event. apply guarded_page. intros t0.
  apply quiet_try_except; [|auto with quiet].
  apply quiet_bind; [by apply quiet_emit|]. intros _.
  apply quiet_bind; [apply quiet_tick|]. intros _.
  apply quiet_bind; [apply quiet_of_outcome|]. intros _.
  apply quiet_bind.
  { unfold watchfooty.read_header. apply quiet_try_except; [|auto with quiet].
    apply quiet_bind; [by apply quiet_emit|]. intros _.
    auto 10 with quiet. }
  intros [text|]; [|apply quiet_ret].
  case_match; [auto with quiet|].
  apply quiet_bind; [apply quiet_wait_block|]. intros [v|]; [apply quiet_ret|].
  apply quiet_bind; [apply quiet_now|]. intros t.
  destruct (last _); auto with quiet.
Qed.

(** Resolutions one after the other, as the loop of an adapter runs them. *)
Fixpoint resolve_in_turn (fl : flavour)
    (calls : list (page_env * Z * nat * bool)) (w : world) : option world :=
  match calls with
  | [] => Some w
  | (env, url_num, timeout, log) :: rest =>
      match Network.process_event fl env url_num timeout log w with
      | Some (_, w') => resolve_in_turn fl rest w'
      | None => None
      end
  end.

Lemma resolve_in_turn_no_leak (fl : flavour)
    (calls : list (page_env * Z * nat * bool)) (w : world) :
  exists w', resolve_in_turn fl calls w = Some w' /\
             open_pages (trace w') = open_pages (trace w) /\
             live_listeners (trace w') = live_listeners (trace w).
Proof.
  revert w. induction calls as [|[[[env n] t] l] rest IH]; intros w; simpl.
  - by exists w.
  - destruct (process_event_page_ops fl env n t l w) as (r & w1 & Hr & Hops).
    rewrite Hr. destruct (IH w1) as (w2 & Hw2 & Hp & Hl).
    destruct (balance_of_page_ops _ _ _ Hops) as [Hp1 Hl1].
    exists w2. split; [done|]. split; congruence.
Qed.

End release_facts.

(** C8.  Whatever the page does and however the resolution ends (capture,
    inner timeout, exception, cancellation by the caller), each of the two
    [process_event] functions comes back having added to the page operations
    exactly: the page opened, the handler installed, the handler removed,
    the page closed (nothing when no page could be opened); pages and
    listeners are balanced afterwards, also over repeated calls. *)
Theorem C8_page_and_listener_released (fl : asyncio.flavour)
    (env : Network.page_env) (header : nat * outcome string) (url_num : Z)
    (timeout : nat) (log : bool)
    (calls : list (Network.page_env * Z * nat * bool)) (w : world) :
  (exists r w',
     Network.process_event fl env url_num timeout log w = Some (r, w') /\
     page_ops (trace w') = page_ops (trace w) ++ opened_and_released env /\
     open_pages (trace w') = open_pages (trace w) /\
     live_listeners (trace w') = live_listeners (trace w)) /\
  (exists r w',
     watchfooty.process_event fl env header url_num w = Some (r, w') /\
     page_ops (trace w') = page_ops (trace w) ++ opened_and_released env /\
     open_pages (trace w') = open_pages (trace w) /\
     live_listeners (trace w') = live_listeners (trace w)) /\
  (exists w',
     resolve_in_turn fl calls w = Some w' /\
     open_pages (trace w') = open_pages (trace w) /\
     live_listeners (trace w') = live_listeners (trace w)).
Proof.
  split; [|split].
  - destruct (process_event_page_ops fl env url_num timeout log w)
      as (r & w' & Hr & Hops).
    exists r, w'. split; [done|]. split; [done|].
    by apply (balance_of_page_ops _ _ env).
  - destruct (watchfooty_process_event_page_ops fl env header url_num w)
      as (r & w' & Hr & Hops).
    exists r, w'. split; [done|]. split; [done|].
    by apply (balance_of_page_ops _ _ env).
  - apply resolve_in_turn_no_leak.
Qed.

(** ** The capture bridge: what is returned *)

Section capture_facts.
Import Network asyncio.

Lemma starts_with_lower (p s : string) :
  starts_with p s = true -> starts_with (lower p) (lower s) = true.
Proof.
  unfold starts_with. revert s. induction p as [|a p IH]; intros s; [done|].
  destruct s as [|b s]; simpl; [done|].
  destruct (decide (a = b)) as [->|]; [|done].
  rewrite decide_True by done. apply IH.
Qed.

Lemma contains_lower (needle hay : string) :
  contains needle hay = true -> contains (lower needle) (lower hay) = true.
Proof.
  induction hay as [|b hay IH]; simpl; intros H.
  - apply orb_true_iff in H as [H|H]; [|done].
    apply starts_with_lower in H. simpl in H. by rewrite H.
  - apply orb_true_iff in H as [H|H].
    + apply starts_with_lower in H. simpl in H. by rewrite H.
    + rewrite (IH H). apply orb_true_r.
Qed.

(** A URL the pattern accepts holds [.m3u8] in some letter case and none of
    the denylisted hosts in any letter case. *)
Lemma pattern_search_spec (u : string) :
  pattern_search u = true <->
  contains_ci ".m3u8" u = true /\
  contains_ci "amazonaws" u = false /\ contains_ci "knitcdn" u = false.
Proof.
  unfold pattern_search, invalids. simpl. rewrite orb_false_r.
  destruct (contains_ci "amazonaws" u), (contains_ci "knitcdn" u),
    (contains_ci ".m3u8" u); simpl; intuition congruence.
Qed.

Lemma pattern_search_no_denylisted (u : string) :
  pattern_search u = true ->
  contains "amazonaws" u = false /\ contains "knitcdn" u = false.
Proof.
  intros H. apply pattern_search_spec in H as (_ & Ha & Hk). split.
  - destruct (contains "amazonaws" u) eqn:E; [|done].
    apply contains_lower in E. unfold contains_ci in Ha.
    change (lower "amazonaws") with "amazonaws" in E. congruence.
  - destruct (contains "knitcdn" u) eqn:E; [|done].
    apply contains_lower in E. unfold contains_ci in Hk.
    change (lower "knitcdn") with "knitcdn" in E. congruence.
Qed.


Lemma observed_foldl (us : list string) (acc : list string) (flag : bool) :
  fst (foldl (fun st u => capture_req u st) (acc, flag) us)
    = acc ++ List.filter pattern_search us.
Proof.
  revert acc flag. induction us as [|u us IH]; intros acc flag; simpl.
  - by rewrite app_nil_r.
  - unfold capture_req at 2. destruct (pattern_search u); simpl.
    + rewrite IH. by rewrite <- app_assoc.
    + apply IH.
Qed.

(** [captured] holds the accepted requests among those issued so far, in
    the order they were issued. *)
Lemma observed_captured (reqs : timeline) (t : nat) :
  fst (observed reqs t) = List.filter pattern_search (arrived t reqs).
Proof. unfold observed. by rewrite observed_foldl. Qed.





(** Once the event has been set, the first capture is there. *)
Lemma first_match_arrived (reqs : timeline) (m t : nat) :
  first_match_time reqs = Some m -> (m <= t)%nat ->
  exists u rest, fst (observed reqs t) = u :: rest.
Proof.
  rewrite observed_captured. revert m t.
  induction reqs as [|[gap u] reqs IH]; intros m t Hm Ht; simpl in *; [done|].
  destruct (pattern_search u) eqn:Hu.
  - simplify_eq. rewrite (proj2 (Nat.leb_le _ _) Ht). simpl. rewrite Hu. eauto.
  - destruct (first_match_time reqs) as [m'|] eqn:Hm'; simplify_eq/=.
    assert (gap <= t)%nat as Hg by lia.
    rewrite (proj2 (Nat.leb_le _ _) Hg). simpl. rewrite Hu.
    apply (IH m'); [done | lia].
Qed.

End capture_facts.

(** Every value a computation returns satisfies [P]. *)
Definition yields {A} (P : A -> Prop) (m : M A) : Prop :=
  forall w x w', m w = Some (Returned x, w') -> P x.

Section yields_facts.
Context {A B : Type}.

Lemma yields_ret (P : A -> Prop) (a : A) : P a -> yields P (ret a).
Proof. intros H w x w' E. unfold ret in E. by simplify_eq. Qed.

Lemma yields_raise (P : A -> Prop) (e : exn) : yields P (raise e).
Proof. intros w x w' E. unfold raise in E. by simplify_eq. Qed.

Lemma yields_bind (P : B -> Prop) (m : M A) (k : A -> M B) :
  (forall a, yields P (k a)) -> yields P (bind m k).
Proof.
  intros Hk w x w' E. unfold bind in E.
  destruct (m w) as [[[a|e] w1]|]; simplify_eq. by eapply Hk.
Qed.

Lemma yields_try_except (P : A -> Prop) (m : M A) (c : exn -> bool) (h : exn -> M A) :
  yields P m -> (forall e, yields P (h e)) -> yields P (try_except m c h).
Proof.
  intros Hm Hh w x w' E. unfold try_except in E.
  destruct (m w) as [[[a|e] w1]|] eqn:Em; simplify_eq.
  - by eapply Hm.
  - destruct (c e); simplify_eq. by eapply Hh.
Qed.

Lemma yields_try_finally (P : A -> Prop) (m : M A) (f : M unit) :
  yields P m -> yields P (try_finally m f).
Proof.
  intros Hm w x w' E. unfold try_finally in E.
  destruct (m w) as [[o w1]|] eqn:Em; simplify_eq.
  destruct (f w1) as [[[[]|e] w2]|]; simplify_eq. by eapply Hm.
Qed.

End yields_facts.

Section result_facts.
Import Network asyncio.




End result_facts.

Section normal_path.
Import Network asyncio.




End normal_path.


(** A page that requests a script, then a manifest whose extension is in
    capital letters, then a second manifest. *)
Definition page_upper_case : Network.page_env :=
  Network.PageEnv (Returned tt) 2000 (Returned tt)
    [(500%nat, "https://site.example/player.js");
     (1000%nat, "https://cdn.example/live/INDEX.M3U8");
     (100%nat, "https://cdn.example/live/chunks.m3u8")]
    None (Returned tt).




(** On the same page the watchfooty variant returns the last capture. *)
Example watchfooty_returns_last :
  exists w',
    watchfooty.process_event asyncio.CancelAndWait page_upper_case
      (300%nat, Returned "Stream Links (2)") 1 world0
      = Some (Returned (Some "https://cdn.example/live/chunks.m3u8"), w').
Proof. eexists. vm_compute. reflexivity. Qed.

(** ** Discovery against the cache *)

Section discovery_facts.

(** The key under which the ppv adapter stores an event. *)
Definition ppv_key (ev : event) : string := ppv.key_of (ev_sport ev) (ev_event ev).

(** The event is not in the cache yet. *)
Definition ppv_fresh (existing_keys : gset string) (ev : event) : bool :=
  bool_decide (ppv_key ev ∉ existing_keys).

Section ppv_loops.
Context (out_of_range : Z -> option exn).

(** What holds of every event one turn of the inner loop hands over holds
    of every event discovery returns. *)
Lemma ppv_visit_streams_Forall (P : event -> Prop) (now_ts : Z) (K : gset string)
    (sport : string) (ss : list ppv.api_stream) (evs : list event) :
  (forall s ev, ppv.visit out_of_range now_ts K sport s = Returned (Some ev) -> P ev) ->
  ppv.visit_streams out_of_range now_ts K sport ss = Returned evs ->
  Forall P evs.
Proof.
  intros HP. revert evs. induction ss as [|s ss IH]; intros evs; cbn [ppv.visit_streams].
  - by intros [= <-].
  - destruct (ppv.visit out_of_range now_ts K sport s) as [found|] eqn:Hs; [|done].
    cbn [bind_outcome].
    destruct (ppv.visit_streams out_of_range now_ts K sport ss) as [rest|]; [|done].
    cbn [bind_outcome]. intros [= <-]. apply Forall_app. split; [|by apply IH].
    destruct found as [ev|]; [|constructor]. constructor; [|constructor].
    by eapply HP.
Qed.

Lemma ppv_visit_groups_Forall (P : event -> Prop) (now_ts : Z) (K : gset string)
    (groups : list ppv.stream_group) (evs : list event) :
  (forall sport s ev,
     sport <> "24/7 Streams" ->
     ppv.visit out_of_range now_ts K sport s = Returned (Some ev) -> P ev) ->
  ppv.visit_groups out_of_range now_ts K groups = Returned evs ->
  Forall P evs.
Proof.
  intros HP. revert evs. induction groups as [|g groups IH]; intros evs;
    cbn [ppv.visit_groups].
  - by intros [= <-].
  - destruct (decide (ppv.g_category g = "24/7 Streams")) as [|Hcat].
    + cbn [bind_outcome].
      destruct (ppv.visit_groups out_of_range now_ts K groups) as [rest|]; [|done].
      cbn [bind_outcome]. intros [= <-]. by apply IH.
    + destruct (ppv.visit_streams out_of_range now_ts K (ppv.g_category g) (ppv.g_streams g))
        as [evs1|] eqn:H1; [|done].
      cbn [bind_outcome].
      destruct (ppv.visit_groups out_of_range now_ts K groups) as [rest|]; [|done].
      cbn [bind_outcome]. intros [= <-]. apply Forall_app. split; [|by apply IH].
      eapply ppv_visit_streams_Forall; [|exact H1]. intros s ev. by apply HP.
Qed.

Lemma ppv_get_events_Forall (P : event -> Prop) (loaded refreshed : ppv.api_blob)
    (now_ts : Z) (K : gset string) (evs : list event) :
  (forall sport s ev,
     sport <> "24/7 Streams" ->
     ppv.visit out_of_range now_ts K sport s = Returned (Some ev) -> P ev) ->
  ppv.get_events out_of_range loaded refreshed now_ts K = Returned evs ->
  Forall P evs.
Proof.
  intros HP. unfold ppv.get_events.
  destruct (match loaded with Some g => Some g | None => refreshed end) as [groups|];
    [|done].
  by apply ppv_visit_groups_Forall.
Qed.

(** One turn of the loop hands over no event whose key is cached. *)
Lemma ppv_visit_excludes_cached (now_ts : Z) (K : gset string) (sport : string)
    (s : ppv.api_stream) (ev : event) :
  ppv.visit out_of_range now_ts K sport s = Returned (Some ev) -> ppv_key ev ∉ K.
Proof.
  unfold ppv.visit, ppv_key.
  destruct (ppv.s_name s) as [name|]; [|done].
  destruct (ppv.s_starts_at s) as [start|]; [|done].
  destruct (ppv.s_iframe s) as [iframe|]; [|done].
  destruct (truthy (Some name) && negb (start =? 0) && truthy (Some iframe)); [|done].
  destruct (bool_decide (ppv.key_of sport name ∈ K)) eqn:HK; [done|].
  apply bool_decide_eq_false in HK.
  destruct (Time.from_ts out_of_range start) as [event_ts|]; [|done].
  cbn [bind_outcome]. destruct (Time.in_window now_ts event_ts); [|done].
  by intros [= <-].
Qed.

Lemma ppv_get_events_excludes_cached (loaded refreshed : ppv.api_blob) (now_ts : Z)
    (K : gset string) (evs : list event) :
  ppv.get_events out_of_range loaded refreshed now_ts K = Returned evs ->
  Forall (fun ev => ppv_key ev ∉ K) evs.
Proof.
  apply ppv_get_events_Forall. intros sport s ev _. apply ppv_visit_excludes_cached.
Qed.

(** A turn that comes back against the empty cache comes back against any
    cache, with the same event unless its key is cached. *)
Lemma ppv_visit_filter (now_ts : Z) (K : gset string) (sport : string)
    (s : ppv.api_stream) (found : option event) :
  ppv.visit out_of_range now_ts ∅ sport s = Returned found ->
  ppv.visit out_of_range now_ts K sport s =
  Returned match found with
           | Some ev => if ppv_fresh K ev then Some ev else None
           | None => None
           end.
Proof.
  unfold ppv.visit, ppv_fresh, ppv_key.
  destruct (ppv.s_name s) as [name|]; [|by intros [= <-]].
  destruct (ppv.s_starts_at s) as [start|]; [|by intros [= <-]].
  destruct (ppv.s_iframe s) as [iframe|]; [|by intros [= <-]].
  destruct (truthy (Some name) && negb (start =? 0) && truthy (Some iframe));
    [|by intros [= <-]].
  rewrite (bool_decide_eq_false_2 (_ ∈ ∅)) by set_solver.
  destruct (Time.from_ts out_of_range start) as [event_ts|]; [|done].
  cbn [bind_outcome].
  destruct (bool_decide (ppv.key_of sport name ∈ K)) eqn:HK.
  - apply bool_decide_eq_true in HK.
    destruct (Time.in_window now_ts event_ts); intros [= <-]; [|done]. simpl.
    by rewrite bool_decide_eq_false_2 by (intros Hn; by apply Hn).
  - apply bool_decide_eq_false in HK.
    destruct (Time.in_window now_ts event_ts); intros [= <-]; [|done]. simpl.
    by rewrite bool_decide_eq_true_2.
Qed.

Lemma ppv_visit_streams_filter (now_ts : Z) (K : gset string) (sport : string)
    (ss : list ppv.api_stream) (evs : list event) :
  ppv.visit_streams out_of_range now_ts ∅ sport ss = Returned evs ->
  ppv.visit_streams out_of_range now_ts K sport ss
    = Returned (List.filter (ppv_fresh K) evs).
Proof.
  revert evs. induction ss as [|s ss IH]; intros evs; cbn [ppv.visit_streams].
  - by intros [= <-].
  - destruct (ppv.visit out_of_range now_ts ∅ sport s) as [found|] eqn:Hs; [|done].
    rewrite (ppv_visit_filter _ _ _ _ _ Hs). cbn [bind_outcome].
    destruct (ppv.visit_streams out_of_range now_ts ∅ sport ss) as [rest|]; [|done].
    rewrite (IH rest eq_refl). cbn [bind_outcome]. intros [= <-].
    rewrite List.filter_app. f_equal. f_equal.
    destruct found as [ev|]; [|done]. simpl. by destruct (ppv_fresh K ev).
Qed.

Lemma ppv_visit_groups_filter (now_ts : Z) (K : gset string)
    (groups : list ppv.stream_group) (evs : list event) :
  ppv.visit_groups out_of_range now_ts ∅ groups = Returned evs ->
  ppv.visit_groups out_of_range now_ts K groups
    = Returned (List.filter (ppv_fresh K) evs).
Proof.
  revert evs. induction groups as [|g groups IH]; intros evs; cbn [ppv.visit_groups].
  - by intros [= <-].
  - destruct (decide (ppv.g_category g = "24/7 Streams")) as [|Hcat].
    + cbn [bind_outcome].
      destruct (ppv.visit_groups out_of_range now_ts ∅ groups) as [rest|]; [|done].
      rewrite (IH rest eq_refl). cbn [bind_outcome]. by intros [= <-].
    + destruct (ppv.visit_streams out_of_range now_ts ∅ (ppv.g_category g) (ppv.g_streams g))
        as [evs1|] eqn:H1; [|done].
      rewrite (ppv_visit_streams_filter _ _ _ _ _ H1). cbn [bind_outcome].
      destruct (ppv.visit_groups out_of_range now_ts ∅ groups) as [rest|]; [|done].
      rewrite (IH rest eq_refl). cbn [bind_outcome]. intros [= <-].
      by rewrite List.filter_app.
Qed.

(** When discovery comes back against the empty cache, discovery against
    a cache comes back with the same events minus those whose key is
    cached. *)
Lemma ppv_get_events_filter (loaded refreshed : ppv.api_blob) (now_ts : Z)
    (K : gset string) (discovered : list event) :
  ppv.get_events out_of_range loaded refreshed now_ts ∅ = Returned discovered ->
  ppv.get_events out_of_range loaded refreshed now_ts K
    = Returned (List.filter (ppv_fresh K) discovered).
Proof.
  unfold ppv.get_events.
  destruct (match loaded with Some g => Some g | None => refreshed end) as [groups|];
    [|done].
  apply ppv_visit_groups_filter.
Qed.

End ppv_loops.

Lemma filter_length_split {X} (p : X -> bool) (l : list X) :
  (length (List.filter p l) + length (List.filter (fun x => negb (p x)) l)
   = length l)%nat.
Proof.
  induction l as [|x l IH]; [done|]. simpl.
  destruct (p x); simpl; lia.
Qed.

Context (urljoin : string -> string -> string).

(** The [href] of an fstv event is not in the set. *)
Definition fstv_fresh (hrefs : gset string) (ev : event) : bool :=
  match ev_href ev with
  | Some h => bool_decide (h ∉ hrefs)
  | None => true
  end.

Lemma fstv_visit_games_filter (base_url sport : string) (gs : list (option string))
    (K S : gset string) :
  fstv.visit_games urljoin base_url sport gs (K ∪ S) =
  (List.filter (fstv_fresh K) (fst (fstv.visit_games urljoin base_url sport gs S)),
   K ∪ snd (fstv.visit_games urljoin base_url sport gs S)).
Proof.
  revert S. induction gs as [|g gs IH]; intros S; [done|].
  cbn [fstv.visit_games].
  destruct g as [[|a r]|]; [apply IH | | apply IH].
  set (h := String a r).
  destruct (decide (h ∈ S)) as [HS|HS].
  - rewrite !bool_decide_eq_true_2 by set_solver. apply IH.
  - rewrite (bool_decide_eq_false_2 (h ∈ S)) by done.
    destruct (fstv.visit_games urljoin base_url sport gs ({[h]} ∪ S)) as [evs hs] eqn:E.
    destruct (decide (h ∈ K)) as [HK|HK].
    + rewrite bool_decide_eq_true_2 by set_solver. simpl.
      unfold fstv_fresh at 1. simpl. rewrite bool_decide_eq_false_2 by (intros Hn; by apply Hn).
      replace (K ∪ S) with (K ∪ ({[h]} ∪ S)) by set_solver.
      by rewrite IH, E.
    + rewrite bool_decide_eq_false_2 by set_solver.
      replace ({[h]} ∪ (K ∪ S)) with (K ∪ ({[h]} ∪ S)) by set_solver.
      rewrite IH, E. simpl.
      unfold fstv_fresh at 2. simpl. by rewrite bool_decide_eq_true_2.
Qed.

Lemma fstv_visit_blocks_filter (base_url : string) (bs : list fstv.league_block)
    (K S : gset string) :
  fstv.visit_blocks urljoin base_url bs (K ∪ S) =
  (List.filter (fstv_fresh K) (fst (fstv.visit_blocks urljoin base_url bs S)),
   K ∪ snd (fstv.visit_blocks urljoin base_url bs S)).
Proof.
  revert S. induction bs as [|b bs IH]; intros S; [done|].
  cbn [fstv.visit_blocks]. destruct (fstv.league_name b) as [full|]; [|apply IH].
  rewrite fstv_visit_games_filter.
  destruct (fstv.visit_games urljoin base_url (fstv.event_name_of full) (fstv.games b) S)
    as [evs1 hs1].
  cbn [fst snd]. rewrite IH.
  destruct (fstv.visit_blocks urljoin base_url bs hs1) as [evs2 hs2].
  cbn [fst snd]. by rewrite List.filter_app.
Qed.

(** The same for the fstv adapter, which identifies an event by its
    [href]. *)
Lemma fstv_get_events_filter (fetched : option fstv.page) (base_url : string)
    (K : gset string) :
  fst (fstv.get_events urljoin fetched base_url K) =
  List.filter (fstv_fresh K) (fst (fstv.get_events urljoin fetched base_url ∅)).
Proof.
  unfold fstv.get_events. destruct fetched as [wrappers|]; [|done].
  replace K with (K ∪ ∅) at 1 by set_solver.
  by rewrite fstv_visit_blocks_filter.
Qed.

End discovery_facts.

(** C9 (amended).  Discovery returns only events that are not in the set
    of cached identities it is given.  The ppv adapter identifies an event
    by its composite key: no event it returns has its key among the
    existing keys, and when three events are discovered against an empty
    cache and the keys of two of them are cached, exactly one of the three
    is returned.  The fstv adapter, whose composite key is only known after
    resolution, identifies an event by its [href] and is given the cached
    hrefs: no event it returns has its [href] among them. *)
Theorem C9_discovery_excludes_cached (out_of_range : Z -> option exn)
    (loaded refreshed : ppv.api_blob)
    (now_ts : Z) (urljoin : string -> string -> string)
    (fetched : option fstv.page) (base_url : string)
    (existing_keys : gset string) :
  (forall evs,
     ppv.get_events out_of_range loaded refreshed now_ts existing_keys = Returned evs ->
     Forall (fun ev => ppv_key ev ∉ existing_keys) evs) /\
  (forall discovered,
     ppv.get_events out_of_range loaded refreshed now_ts ∅ = Returned discovered ->
     length discovered = 3%nat ->
     length (List.filter (fun ev => negb (ppv_fresh existing_keys ev)) discovered) = 2%nat ->
     exists ev,
       ppv.get_events out_of_range loaded refreshed now_ts existing_keys = Returned [ev] /\
       ev ∈ discovered) /\
  Forall (fun ev => forall h, ev_href ev = Some h -> h ∉ existing_keys)
    (fst (fstv.get_events urljoin fetched base_url existing_keys)).
Proof.
  pose proof (fstv_get_events_filter urljoin fetched base_url existing_keys) as Hfstv.
  split; [|split].
  - intros evs. apply ppv_get_events_excludes_cached.
  - intros discovered E Hlen Hcached.
    rewrite (ppv_get_events_filter _ _ _ _ existing_keys _ E).
    pose proof (filter_length_split (ppv_fresh existing_keys) discovered) as Hsplit.
    destruct (List.filter (ppv_fresh existing_keys) discovered) as [|ev [|ev' rest]] eqn:Hf;
      simpl in Hsplit; [lia | | lia].
    exists ev. split; [done|].
    assert (In ev (List.filter (ppv_fresh existing_keys) discovered)) as Hin
      by (rewrite Hf; by left).
    apply List.filter_In in Hin as [Hin _]. by apply list_elem_of_In.
  - rewrite Hfstv. apply Forall_forall. intros ev Hev h Hh.
    apply list_elem_of_In, List.filter_In in Hev as [_ Hf].
    unfold fstv_fresh in Hf. rewrite Hh in Hf. by apply bool_decide_eq_true in Hf.
Qed.

(** Three streams of one group, all starting within the window. *)
Definition three_streams : ppv.api_blob :=
  Some [ppv.StreamGroup "Basketball"
          [ppv.ApiStream (Some "Lakers vs Celtics") (Some 100000) None (Some "https://ppv.to/e/1");
           ppv.ApiStream (Some "Bulls vs Knicks") (Some 100300) None (Some "https://ppv.to/e/2");
           ppv.ApiStream (Some "Heat vs Nets") (Some 100600) None (Some "https://ppv.to/e/3")]].

Definition two_cached : gset string :=
  {["[Basketball] Lakers vs Celtics (PPV)"; "[Basketball] Heat vs Nets (PPV)"]}.

Lemma C9_discovery_excludes_cached_witness :
  ppv.get_events Time.epoch_to_9999 three_streams None 100000 two_cached
    = Returned [Event "Basketball" "Bulls vs Knicks" "https://ppv.to/e/2" None 100300 None] /\
  Forall (fun ev => ppv_key ev ∉ two_cached)
    [Event "Basketball" "Bulls vs Knicks" "https://ppv.to/e/2" None 100300 None].
Proof.
  destruct (C9_discovery_excludes_cached Time.epoch_to_9999 three_streams None 100000
              plain_urljoin None "" two_cached) as (Hall & Hone & _).
  assert (ppv.get_events Time.epoch_to_9999 three_streams None 100000 two_cached
          = Returned [Event "Basketball" "Bulls vs Knicks" "https://ppv.to/e/2" None 100300 None])
    as Hrun.
  { destruct (Hone _ eq_refl eq_refl eq_refl) as [ev [Hev _]].
    rewrite Hev. vm_compute in Hev. congruence. }
  split; [exact Hrun | exact (Hall _ Hrun)].
Defined.

(** A stream whose start lies in the year 31690708: discovery raises when
    its key is not cached and skips it, without converting the start, when
    it is. *)
Example ppv_far_start_cached_or_not :
  let blob :=
    Some [ppv.StreamGroup "Basketball"
            [ppv.ApiStream (Some "Lakers vs Celtics") (Some 1000000000000000) None
               (Some "https://ppv.to/e/1")]] in
  ppv.get_events Time.epoch_to_9999 blob None 100000 ∅ = Raised ValueError /\
  ppv.get_events Time.epoch_to_9999 blob None 100000
    {["[Basketball] Lakers vs Celtics (PPV)"]} = Returned [].
Proof. split; reflexivity. Qed.

(** An fstv cache holding one resolved match, and a schedule page that lists
    the match under its old link and under a new one; the page behind the
    new link names the same match. *)
Definition fstv_key : string := "[NBA] Lakers vs Celtics (FSTV)".
Definition fstv_old_entry : entry :=
  Entry (Some "https://cdn.example/lakers.m3u8") "pic" "https://fstv.online"
    99000 "Live.Event.us" (Some "/match/1").
Definition fstv_file : Cache.file_content :=
  Cache.Snapshot {[fstv_key := fstv_old_entry]}.
Definition relisted_page : fstv.page :=
  [[fstv.LeagueBlock (Some "[Basketball] NBA") [Some "/match/1"; Some "/match/2"]]].
Definition same_match (i : Z) (ev : event) : option (string * string) :=
  Some ("Lakers vs Celtics", "https://cdn.example/lakers-2.m3u8").

Definition fstv_rerun : outcome unit * adapter_state :=
  fstv.scrape plain_urljoin no_league_info 100000 fstv_file ∅ net_all_up
    (Some relisted_page) same_match.

(** C9 (counterexample to the claim as stated).  The composite key is among
    the existing keys of the cache, yet fstv's discovery, which compares
    hrefs, returns the event listed under the new link; its resolution gives
    that same composite key, and the cached entry is replaced. *)
Lemma C9_fstv_discovers_event_with_cached_key :
  fstv_key ∈ dom (Cache.load fstv.exp 100000 fstv_file) /\
  fst (fstv.get_events plain_urljoin (Some relisted_page) "https://fstv.online"
         {["/match/1"]})
    = [Event "NBA" "" "https://fstv.online/match/2" None 0 (Some "/match/2")] /\
  fstv.key_of "NBA" "Lakers vs Celtics" = fstv_key /\
  cached_urls (snd fstv_rerun) !! fstv_key
    = Some (Entry (Some "https://cdn.example/lakers-2.m3u8")
              "https://i.gyazo.com/978f2eb4a199ca5b56b447aded0cb9e3.png"
              "https://fstv.online" 100000 "Live.Event.us" (Some "/match/2")).
Proof.
  split; [apply elem_of_dom; eexists; vm_compute; reflexivity|].
  repeat split; vm_compute; reflexivity.
Qed.

(** ** Tombstones (watchfooty) *)

Section tombstone_facts.
Context (out_of_range : Z -> option exn).
Context (urljoin : string -> string -> string).
Context (get_tvg_info : string -> string -> outcome (option string * string)).

Abbreviation resolve_all := (watchfooty.resolve_all get_tvg_info).
Abbreviation visit := (watchfooty.visit out_of_range urljoin).
Abbreviation get_events := (watchfooty.get_events out_of_range urljoin).

(** The key under which the adapter stores an event. *)
Definition wfty_key (ev : event) : string :=
  watchfooty.key_of (ev_sport ev) (ev_event ev).

(** The entry written for an event whose resolution gave [url], [tvg]
    being what [get_tvg_info] returned for it. *)
Definition wfty_entry (base_url : string) (ev : event) (url : option string)
    (tvg : option string * string) : entry :=
  Entry url (or_else (ev_logo ev) (snd tvg)) base_url (ev_timestamp ev)
    (or_else (fst tvg) "Live.Event.us") None.

(** One resolution attempt after which [get_tvg_info] returns: the entry is
    written to [cached_urls] under the key of the event whatever the URL
    is, and to [urls] only when the URL is truthy. *)
Lemma resolve_all_attempt (resolve : Z -> event -> outcome (option string))
    (base_url : string) (i : Z) (ev : event) (rest : list event)
    (st : adapter_state) (url : option string) (tvg : option string * string) :
  resolve i ev = Returned url ->
  get_tvg_info (ev_sport ev) (ev_event ev) = Returned tvg ->
  resolve_all resolve base_url i (ev :: rest) st =
  resolve_all resolve base_url (i + 1) rest
    (AdapterState (<[wfty_key ev := wfty_entry base_url ev url tvg]> (cached_urls st))
       (if truthy url then <[wfty_key ev := wfty_entry base_url ev url tvg]> (urls st)
        else urls st)
       (written st)).
Proof. intros H Ht. cbn [watchfooty.resolve_all]. rewrite H, Ht. by destruct tvg. Qed.

(** One resolution attempt after which [get_tvg_info] raises: the loop is
    left at once and nothing is recorded for the attempt. *)
Lemma resolve_all_tvg_raises (resolve : Z -> event -> outcome (option string))
    (base_url : string) (i : Z) (ev : event) (rest : list event)
    (st : adapter_state) (url : option string) (e : exn) :
  resolve i ev = Returned url ->
  get_tvg_info (ev_sport ev) (ev_event ev) = Raised e ->
  resolve_all resolve base_url i (ev :: rest) st = (Raised e, st).
Proof. intros H Ht. cbn [watchfooty.resolve_all]. by rewrite H, Ht. Qed.

(** The three ways one turn of the loop ends. *)
Lemma resolve_all_cons (resolve : Z -> event -> outcome (option string))
    (base_url : string) (i : Z) (ev : event) (rest : list event)
    (st : adapter_state) :
  (exists e, resolve_all resolve base_url i (ev :: rest) st = (Raised e, st)) \/
  exists url tvg,
    resolve i ev = Returned url /\
    get_tvg_info (ev_sport ev) (ev_event ev) = Returned tvg /\
    resolve_all resolve base_url i (ev :: rest) st =
    resolve_all resolve base_url (i + 1) rest
      (AdapterState (<[wfty_key ev := wfty_entry base_url ev url tvg]> (cached_urls st))
         (if truthy url then <[wfty_key ev := wfty_entry base_url ev url tvg]> (urls st)
          else urls st)
         (written st)).
Proof.
  destruct (resolve i ev) as [url|e] eqn:Hr.
  - destruct (get_tvg_info (ev_sport ev) (ev_event ev)) as [tvg|e] eqn:Ht.
    + right. exists url, tvg. split; [done|]. split; [done|].
      by apply resolve_all_attempt.
    + left. exists e. by eapply resolve_all_tvg_raises.
  - left. exists e. cbn [watchfooty.resolve_all]. by rewrite Hr.
Qed.

Definition all_live (m : gmap string entry) : Prop :=
  forall k e, m !! k = Some e -> truthy (e_url e) = true.

Lemma resolve_all_live (resolve : Z -> event -> outcome (option string))
    (base_url : string) (i : Z) (events : list event) (st : adapter_state) :
  all_live (urls st) ->
  all_live (urls (snd (resolve_all resolve base_url i events st))).
Proof.
  revert i st. induction events as [|ev rest IH]; intros i st Hst; [done|].
  destruct (resolve_all_cons resolve base_url i ev rest st)
    as [[e ->] | (url & tvg & _ & _ & ->)]; [done|].
  apply IH. simpl. destruct (truthy url) eqn:Hu; [|done].
  intros k e Hk. apply lookup_insert_Some in Hk as [[_ <-]|[_ Hk]]; [done | by eapply Hst].
Qed.

(** Keys that no event of the batch has are left alone. *)
Lemma resolve_all_other_keys (resolve : Z -> event -> outcome (option string))
    (base_url : string) (i : Z) (events : list event) (st : adapter_state)
    (k : string) :
  Forall (fun ev => wfty_key ev <> k) events ->
  urls (snd (resolve_all resolve base_url i events st)) !! k = urls st !! k /\
  cached_urls (snd (resolve_all resolve base_url i events st)) !! k
    = cached_urls st !! k.
Proof.
  intros Hall. revert i st. induction Hall as [|ev rest Hev _ IH]; intros i st; [done|].
  destruct (resolve_all_cons resolve base_url i ev rest st)
    as [[e ->] | (url & tvg & _ & _ & ->)]; [done|].
  destruct (IH (i + 1)
    (AdapterState (<[wfty_key ev := wfty_entry base_url ev url tvg]> (cached_urls st))
       (if truthy url then <[wfty_key ev := wfty_entry base_url ev url tvg]> (urls st)
        else urls st) (written st))) as [-> ->].
  simpl. split.
  - destruct (truthy url); [by rewrite lookup_insert_ne | done].
  - by rewrite lookup_insert_ne.
Qed.

(** The loop never writes the cache file and never drops a cached key. *)
Lemma resolve_all_keeps (resolve : Z -> event -> outcome (option string))
    (base_url : string) (i : Z) (events : list event) (st : adapter_state) :
  written (snd (resolve_all resolve base_url i events st)) = written st /\
  forall k, is_Some (cached_urls st !! k) ->
            is_Some (cached_urls (snd (resolve_all resolve base_url i events st)) !! k).
Proof.
  revert i st. induction events as [|ev rest IH]; intros i st; [done|].
  destruct (resolve_all_cons resolve base_url i ev rest st)
    as [[e ->] | (url & tvg & _ & _ & ->)]; [done|].
  destruct (IH (i + 1)
    (AdapterState (<[wfty_key ev := wfty_entry base_url ev url tvg]> (cached_urls st))
       (if truthy url then <[wfty_key ev := wfty_entry base_url ev url tvg]> (urls st)
        else urls st) (written st))) as [-> Hkeep].
  split; [done|]. intros k Hk. apply Hkeep. simpl.
  apply lookup_insert_is_Some'. by right.
Qed.

(** When the loop runs to its end, every event of the batch has an entry. *)
Lemma resolve_all_stored (resolve : Z -> event -> outcome (option string))
    (base_url : string) (i : Z) (events : list event) (st : adapter_state) :
  fst (resolve_all resolve base_url i events st) = Returned tt ->
  Forall (fun ev =>
            is_Some (cached_urls (snd (resolve_all resolve base_url i events st))
                       !! wfty_key ev)) events.
Proof.
  revert i st. induction events as [|ev rest IH]; intros i st Hret; [done|].
  destruct (resolve_all_cons resolve base_url i ev rest st)
    as [[e He] | (url & tvg & _ & _ & He)]; rewrite He in *; [done|].
  constructor; [|by apply IH].
  apply resolve_all_keeps. simpl. rewrite lookup_insert_eq. eauto.
Qed.

(** An attempt whose key no later event of the batch shares leaves its
    entry in the cache, with the URL it found or with none; without a URL
    the live map is not touched under that key. *)
Lemma resolve_all_first_entry (resolve : Z -> event -> outcome (option string))
    (base_url : string) (i : Z) (ev : event) (rest : list event)
    (st : adapter_state) (url : option string) (tvg : option string * string) :
  resolve i ev = Returned url ->
  get_tvg_info (ev_sport ev) (ev_event ev) = Returned tvg ->
  Forall (fun ev' => wfty_key ev' <> wfty_key ev) rest ->
  cached_urls (snd (resolve_all resolve base_url i (ev :: rest) st)) !! wfty_key ev
    = Some (wfty_entry base_url ev url tvg) /\
  (truthy url = false ->
   urls (snd (resolve_all resolve base_url i (ev :: rest) st)) !! wfty_key ev
     = urls st !! wfty_key ev).
Proof.
  intros Hr Ht Hrest.
  rewrite (resolve_all_attempt _ _ _ _ _ _ _ _ Hr Ht).
  match goal with
  | |- context [resolve_all resolve base_url (i + 1) rest ?st1] =>
      destruct (resolve_all_other_keys resolve base_url (i + 1) rest st1
                  (wfty_key ev) Hrest) as [-> ->]
  end.
  simpl. split; [by rewrite lookup_insert_eq|]. by intros ->.
Qed.

(** Discovery hands over no event whose key is cached. *)
Lemma visit_excludes_cached (base_url : string) (now_ts : Z) (K : gset string)
    (api_data : list watchfooty.api_match) (evs : list event) :
  visit base_url now_ts K api_data = Returned evs ->
  Forall (fun ev => wfty_key ev ∉ K) evs.
Proof.
  revert evs. induction api_data as [|m rest IH]; intros evs H; cbn [watchfooty.visit] in H.
  - by simplify_eq.
  - destruct (watchfooty.ts m) as [t|]; [|by apply IH].
    destruct (t =? 0); [by apply IH|].
    destruct (drop_millis t) as [start|]; [|done]. cbn [bind_outcome] in H.
    destruct (Time.from_ts out_of_range start) as [event_ts|]; [|done].
    cbn [bind_outcome] in H.
    destruct (negb (Time.in_window now_ts event_ts)); [by apply IH|].
    destruct (bool_decide _) eqn:HK; [by apply IH|].
    apply bool_decide_eq_false in HK.
    destruct (visit base_url now_ts K rest) as [evs'|]; [|done].
    cbn [bind_outcome] in H. simplify_eq. constructor; [exact HK | by apply IH].
Qed.

Lemma get_events_excludes_cached (loaded : list watchfooty.api_match)
    (refreshed : outcome (list watchfooty.api_match)) (base_url : string)
    (now_ts : Z) (K : gset string) (evs : list event) :
  get_events loaded refreshed base_url now_ts K = Returned evs ->
  Forall (fun ev => wfty_key ev ∉ K) evs.
Proof.
  unfold watchfooty.get_events.
  destruct (match loaded with [] => refreshed | _ :: _ => Returned loaded end)
    as [api_data|]; [|done].
  apply visit_excludes_cached.
Qed.

Lemma valid_urls_live (cached : gmap string entry) :
  all_live (watchfooty.valid_urls cached).
Proof.
  intros k e H. unfold watchfooty.valid_urls in H.
  by apply map_lookup_filter_Some in H as [_ H].
Qed.

End tombstone_facts.

Section scrape_facts.
Context (out_of_range : Z -> option exn).
Context (urljoin : string -> string -> string).
Context (get_tvg_info : string -> string -> outcome (option string * string)).
Context (now_ts : Z) (file : Cache.file_content).
Context (net : string -> nat * Network.response).
Context (loaded : list watchfooty.api_match).
Context (refreshed : outcome (list watchfooty.api_match)).
Context (resolve : Z -> event -> outcome (option string)).

Abbreviation cached0 := (Cache.load watchfooty.exp now_ts file).
Abbreviation st0 :=
  (AdapterState cached0 (dict_update ∅ (watchfooty.valid_urls cached0)) None).
Abbreviation run :=
  (watchfooty.scrape out_of_range urljoin get_tvg_info now_ts file ∅ net loaded
     refreshed resolve).

(** The dictionaries at the end of [scrape]: those of the loop when it
    ran, the initial ones otherwise. *)
Lemma scrape_dictionaries :
  (urls (snd run), cached_urls (snd run)) =
  match Network.get_base net watchfooty.MIRRORS with
  | None => (urls st0, cached0)
  | Some base_url =>
      match watchfooty.get_events out_of_range urljoin loaded refreshed base_url now_ts
              (dom cached0) with
      | Raised _ => (urls st0, cached0)
      | Returned events =>
          (urls (snd (watchfooty.resolve_all get_tvg_info resolve base_url 1 events st0)),
           cached_urls (snd (watchfooty.resolve_all get_tvg_info resolve base_url 1 events st0)))
      end
  end.
Proof.
  unfold watchfooty.scrape.
  destruct (Network.get_base net watchfooty.MIRRORS) as [base_url|]; [|done].
  destruct (watchfooty.get_events _ _ _ _ _ _ _) as [events|e]; [|done].
  by destruct (watchfooty.resolve_all _ _ _ _ _ _) as [[[]|e] st'].
Qed.

Lemma st0_live : all_live (urls st0).
Proof.
  intros k e H. simpl in H. rewrite dict_update_lookup in H.
  destruct (watchfooty.valid_urls cached0 !! k) as [e'|] eqn:Hv; [|done].
  simplify_eq. by eapply valid_urls_live.
Qed.

Lemma scrape_live : all_live (urls (snd run)).
Proof.
  pose proof scrape_dictionaries as H.
  destruct (Network.get_base net watchfooty.MIRRORS) as [base_url|].
  - destruct (watchfooty.get_events _ _ _ _ _ _ _) as [events|e].
    + injection H as -> _. apply resolve_all_live, st0_live.
    + injection H as -> _. apply st0_live.
  - injection H as -> _. apply st0_live.
Qed.

Lemma st0_tombstone (k : string) (e : entry) :
  cached0 !! k = Some e -> truthy (e_url e) = false -> urls st0 !! k = None.
Proof.
  intros Hk Ht. simpl. rewrite dict_update_lookup.
  destruct (watchfooty.valid_urls cached0 !! k) as [e'|] eqn:Hv; [|done].
  unfold watchfooty.valid_urls in Hv.
  apply map_lookup_filter_Some in Hv as [Hv Hl]. simpl in Hl. congruence.
Qed.

Lemma scrape_tombstone (k : string) (e : entry) :
  cached0 !! k = Some e -> truthy (e_url e) = false ->
  urls (snd run) !! k = None /\ cached_urls (snd run) !! k = Some e.
Proof.
  intros Hk Ht. pose proof scrape_dictionaries as H.
  pose proof (st0_tombstone k e Hk Ht) as H0.
  destruct (Network.get_base net watchfooty.MIRRORS) as [base_url|].
  - destruct (watchfooty.get_events _ _ _ _ _ _ _) as [events|e'] eqn:Hev.
    + injection H as -> ->.
      destruct (resolve_all_other_keys get_tvg_info resolve base_url 1 events st0 k)
        as [-> ->]; [|done].
      eapply Forall_impl; [exact (get_events_excludes_cached _ _ _ _ _ _ _ _ Hev)|].
      intros ev Hn <-. apply Hn. apply elem_of_dom. eauto.
    + by injection H as -> ->.
  - by injection H as -> ->.
Qed.

(** A run that ends normally has resolved every discovered event, holds an
    entry for each of them and has written the whole cache. *)
Lemma scrape_persists (base_url : string) (events : list event) :
  fst run = Returned tt ->
  written (snd run) = Some (cached_urls (snd run)) /\
  (Network.get_base net watchfooty.MIRRORS = Some base_url ->
   watchfooty.get_events out_of_range urljoin loaded refreshed base_url now_ts (dom cached0)
     = Returned events ->
   Forall (fun ev => is_Some (cached_urls (snd run) !! wfty_key ev)) events).
Proof.
  unfold watchfooty.scrape.
  destruct (Network.get_base net watchfooty.MIRRORS) as [b|]; [|done].
  destruct (watchfooty.get_events out_of_range urljoin loaded refreshed b now_ts _)
    as [evs|e] eqn:Hev; [|done].
  destruct (watchfooty.resolve_all _ _ _ _ _ _) as [[[]|e] st'] eqn:Hloop; [|done].
  intros _. split; [done|]. intros [= <-] Hevs. rewrite Hev in Hevs. simplify_eq.
  pose proof (resolve_all_stored get_tvg_info resolve b 1 events st0) as Hs.
  rewrite Hloop in Hs. by apply Hs.
Qed.

(** A run that ends by raising has not written the cache file: whatever the
    loop recorded before is lost with the run. *)
Lemma scrape_raises_unwritten (e : exn) :
  fst run = Raised e -> written (snd run) = None.
Proof.
  unfold watchfooty.scrape.
  destruct (Network.get_base net watchfooty.MIRRORS) as [b|]; [|done].
  destruct (watchfooty.get_events out_of_range urljoin loaded refreshed b now_ts _)
    as [evs|e']; [|done].
  pose proof (resolve_all_keeps get_tvg_info resolve b 1 evs st0) as [Hw _].
  destruct (watchfooty.resolve_all _ _ _ _ _ _) as [[[]|e'] st']; [done|].
  intros _. exact Hw.
Qed.

End scrape_facts.

(** X27.  What holds of the tombstones of [watchfooty.scrape]: an attempt
    after which [get_tvg_info] returns writes its entry to the cache, with
    or without a URL, and the entry is there at the end unless a later event
    of the batch has the same key; the live map only ever holds entries
    with a URL, however the run ends; a key cached without URL is among the
    existing keys, is not discovered again, stays in the cache and out of
    the live map; a run that returns has written the cache with an entry for
    every discovered event. *)
Theorem X27_tombstones_while_tvg_info_returns
    (out_of_range : Z -> option exn)
    (urljoin : string -> string -> string)
    (get_tvg_info : string -> string -> outcome (option string * string))
    (now_ts : Z) (file : Cache.file_content)
    (net : string -> nat * Network.response)
    (loaded : list watchfooty.api_match)
    (refreshed : outcome (list watchfooty.api_match))
    (resolve : Z -> event -> outcome (option string)) :
  let cached := Cache.load watchfooty.exp now_ts file in
  let existing_keys := dom cached in
  let run :=
    watchfooty.scrape out_of_range urljoin get_tvg_info now_ts file ∅ net loaded
      refreshed resolve in
  (forall base_url i ev rest st url tvg,
     resolve i ev = Returned url ->
     get_tvg_info (ev_sport ev) (ev_event ev) = Returned tvg ->
     Forall (fun ev' => wfty_key ev' <> wfty_key ev) rest ->
     cached_urls
       (snd (watchfooty.resolve_all get_tvg_info resolve base_url i (ev :: rest) st))
       !! wfty_key ev = Some (wfty_entry base_url ev url tvg) /\
     (truthy url = false ->
      urls (snd (watchfooty.resolve_all get_tvg_info resolve base_url i (ev :: rest) st))
        !! wfty_key ev = urls st !! wfty_key ev)) /\
  (forall k e, urls (snd run) !! k = Some e -> truthy (e_url e) = true) /\
  (forall k e,
     cached !! k = Some e -> truthy (e_url e) = false ->
     k ∈ existing_keys /\
     (forall base_url events,
        watchfooty.get_events out_of_range urljoin loaded refreshed base_url now_ts
          existing_keys = Returned events ->
        Forall (fun ev => wfty_key ev <> k) events) /\
     urls (snd run) !! k = None /\
     cached_urls (snd run) !! k = Some e) /\
  (forall base_url events,
     fst run = Returned tt ->
     written (snd run) = Some (cached_urls (snd run)) /\
     (Network.get_base net watchfooty.MIRRORS = Some base_url ->
      watchfooty.get_events out_of_range urljoin loaded refreshed base_url now_ts
        existing_keys = Returned events ->
      Forall (fun ev => is_Some (cached_urls (snd run) !! wfty_key ev)) events)).
Proof.
  intros cached existing_keys run.
  split; [intros; by apply resolve_all_first_entry|].
  split; [apply scrape_live|].
  split.
  - intros k e Hk Ht.
    assert (k ∈ existing_keys) as Hdom by (apply elem_of_dom; eauto).
    split; [exact Hdom|]. split.
    + intros base_url events Hev.
      eapply Forall_impl; [exact (get_events_excludes_cached _ _ _ _ _ _ _ _ Hev)|].
      intros ev Hn <-. by apply Hn.
    + by apply scrape_tombstone.
  - intros base_url events. apply scrape_persists.
Qed.

(** A cache holding one unresolved and one live event; an API blob that
    lists the unresolved event again, a new match, and the second game of a
    series, whose title has two separators; a resolution that finds
    nothing; a league table without teams. *)
Definition dead_key : string := "[NBA] Lakers vs Celtics (WFTY)".
Definition dead_entry : entry :=
  Entry None "pic" "https://www.watchfooty.cc" 99000 "Live.Event.us" None.
Definition live_entry : entry :=
  Entry (Some "https://cdn.example/knicks.m3u8") "pic" "https://www.watchfooty.cc"
    99000 "Live.Event.us" None.
Definition wfty_file : Cache.file_content :=
  Cache.Snapshot
    (<[dead_key := dead_entry]> {["[NBA] Bulls vs Knicks (WFTY)" := live_entry]}).
Definition wfty_api : list watchfooty.api_match :=
  [watchfooty.ApiMatch "11" "Lakers vs Celtics" "NBA - Regular Season"
     (Some 100000000) None None;
   watchfooty.ApiMatch "12" "Heat vs Nets" "NBA" (Some 100100000) None None;
   watchfooty.ApiMatch "13" "Suns at Kings - Game 2" "NBA (Playoffs)"
     (Some 100200000) None (Some 99500)].
Definition no_teams : Leagues.data := Leagues.Data ∅ [].
Definition finds_nothing (i : Z) (ev : event) : outcome (option string) := Returned None.

Definition wfty_run : outcome unit * adapter_state :=
  watchfooty.scrape Time.epoch_to_9999 plain_urljoin (Leagues.get_tvg_info no_teams)
    100000 wfty_file ∅ net_all_up wfty_api (Raised IndexError) finds_nothing.

Definition heat_nets : event :=
  Event "NBA" "Heat vs Nets" "https://www.watchfooty.ccstream/12" None 100100 None.
Definition suns_kings : event :=
  Event "NBA" "Suns at Kings - Game 2" "https://www.watchfooty.ccstream/13" None
    100200 None.

(** C10 (failing input).  Discovery hands two events to the loop of
    [watchfooty.scrape].  The first is resolved without URL and its
    tombstone goes into [cached_urls].  The second is resolved too, but
    [leagues.get_tvg_info] raises [ValueError] on its title before the
    assignment to [cached_urls]: no entry is recorded for that attempt,
    [scrape] raises, and the cache file is not written, so that the
    tombstone of the first attempt is lost as well and neither key is among
    the existing keys of the next run. *)
Theorem C10_attempt_lost_when_tvg_info_raises :
  watchfooty.get_events Time.epoch_to_9999 plain_urljoin wfty_api (Raised IndexError)
    "https://www.watchfooty.cc" 100000 (dom (Cache.load watchfooty.exp 100000 wfty_file))
    = Returned [heat_nets; suns_kings] /\
  finds_nothing 2 suns_kings = Returned None /\
  Leagues.get_tvg_info no_teams (ev_sport suns_kings) (ev_event suns_kings)
    = Raised ValueError /\
  fst wfty_run = Raised ValueError /\
  is_Some (cached_urls (snd wfty_run) !! wfty_key heat_nets) /\
  cached_urls (snd wfty_run) !! wfty_key suns_kings = None /\
  written (snd wfty_run) = None.
Proof. repeat split; try (vm_compute; reflexivity). vm_compute. by eexists. Qed.

(** * Further properties *)

(** ** The aggregator: precedence, failure and output *)

Section merge_facts.
Import fetch.

Lemma additions_snoc (runs : list adapter_run) (r : adapter_run) :
  additions (runs ++ [r]) = dict_or (additions runs) (module_urls r).
Proof. unfold additions. by rewrite map_app, foldl_app. Qed.

(** X1.  On a key that several adapters hold, the merged map has the entry of
    the adapter that comes last in the order of the tasks: a key is merged
    with an entry exactly when some adapter holds it with that entry and no
    later adapter holds the key. *)
Theorem X1_additions_last_adapter_wins (runs : list adapter_run) (k : string)
    (e : entry) :
  additions runs !! k = Some e <->
  exists pre r post,
    runs = pre ++ r :: post /\ module_urls r !! k = Some e /\
    Forall (fun r' => module_urls r' !! k = None) post.
Proof.
  induction runs as [|r0 runs IH] using rev_ind.
  - split; [done|]. intros (pre & r & post & H & _). by destruct pre.
  - rewrite additions_snoc, dict_or_lookup.
    destruct (module_urls r0 !! k) as [v|] eqn:Hr0.
    + split.
      * intros [= ->]. exists runs, r0, []. by repeat split.
      * intros (pre & r & post & H & Hr & Hpost).
        destruct post as [|p post _] using rev_ind.
        -- apply app_inj_tail in H as [_ <-]. congruence.
        -- rewrite app_comm_cons, app_assoc in H.
           apply app_inj_tail in H as [_ <-].
           apply Forall_app in Hpost as [_ Hp]. inversion Hp; congruence.
    + rewrite IH. split.
      * intros (pre & r & post & -> & Hr & Hpost).
        exists pre, r, (post ++ [r0]). split; [by rewrite <- app_assoc|].
        split; [done|]. apply Forall_app. split; [done|]. by constructor.
      * intros (pre & r & post & H & Hr & Hpost).
        destruct post as [|p post _] using rev_ind.
        -- apply app_inj_tail in H as [_ <-]. congruence.
        -- rewrite app_comm_cons, app_assoc in H.
           apply app_inj_tail in H as [-> <-].
           apply Forall_app in Hpost as [Hpost _]. by exists pre, r, post.
Qed.

End merge_facts.

Section join_facts.
Import asyncio.
Context {A : Type}.

Lemma first_raised_snoc (tasks : list (nat * outcome A)) (t : nat * outcome A) :
  first_raised (tasks ++ [t]) = first_raised_step (first_raised tasks) t.
Proof. unfold first_raised. by rewrite foldl_app. Qed.

(** What the plain [gather] raises: the exception of a task that raised,
    none of the raising tasks having ended before it. *)
Lemma first_raised_earliest (tasks : list (nat * outcome A)) :
  match first_raised tasks with
  | None => Forall (fun x => is_raised (snd x) = false) tasks
  | Some (t, e) =>
      (t, Raised e) ∈ tasks /\
      Forall (fun x => is_raised (snd x) = true -> (t <= fst x)%nat) tasks
  end.
Proof.
  induction tasks as [|[t0 o] tasks IH] using rev_ind; [by constructor|].
  rewrite first_raised_snoc. unfold first_raised_step. simpl.
  destruct o as [a|e0].
  - destruct (first_raised tasks) as [[t e]|].
    + destruct IH as [Hin Hall]. split; [set_solver|].
      apply Forall_app. split; [done|]. by constructor.
    + apply Forall_app. split; [done|]. by constructor.
  - destruct (first_raised tasks) as [[t e]|].
    + destruct IH as [Hin Hall]. destruct (t0 <? t)%nat eqn:Hlt.
      * apply Nat.ltb_lt in Hlt. split; [set_solver|].
        apply Forall_app. split.
        -- eapply Forall_impl; [exact Hall|]. simpl. intros x Hx Hr.
           specialize (Hx Hr). lia.
        -- constructor; [|constructor]. simpl. lia.
      * apply Nat.ltb_ge in Hlt. split; [set_solver|].
        apply Forall_app. split; [done|]. constructor; [|constructor]. simpl. lia.
    + split; [set_solver|]. apply Forall_app. split.
      * eapply Forall_impl; [exact IH|]. simpl. intros x Hx Hr. congruence.
      * constructor; [|constructor]. simpl. lia.
Qed.

End join_facts.

(** X2.  When some adapter task raises, [main] raises the exception of the
    raising task that ended first and writes neither playlist, whatever the
    other adapters collected. *)
Theorem X2_main_raises_earliest_failure (splitlines : string -> list string)
    (data : string) (runs : list fetch.adapter_run) :
  Exists (fun r => is_raised (fetch.scrape_outcome r) = true) runs ->
  exists r e,
    r ∈ runs /\ fetch.scrape_outcome r = Raised e /\
    Forall (fun r' => is_raised (fetch.scrape_outcome r') = true ->
                      (fetch.finished_at r <= fetch.finished_at r')%nat) runs /\
    fetch.main splitlines data runs = (Raised e, fetch.Files None None).
Proof.
  intros Hex. unfold fetch.main. simpl.
  set (tasks := map (fun r => (fetch.finished_at r, fetch.scrape_outcome r)) runs).
  pose proof (first_raised_earliest tasks) as Hspec.
  unfold asyncio.gather.
  destruct (asyncio.first_raised tasks) as [[t e]|] eqn:Hf.
  - destruct Hspec as [Hin Hall].
    apply list_elem_of_fmap in Hin as (r & [= -> Hr] & Hin).
    exists r, e. split; [done|]. split; [done|]. split; [|done].
    apply Forall_fmap in Hall. eapply Forall_impl; [exact Hall|]. done.
  - exfalso. apply Exists_exists in Hex as (r & Hin & Hr).
    rewrite Forall_forall in Hspec.
    specialize (Hspec (fetch.finished_at r, fetch.scrape_outcome r)).
    simpl in Hspec. rewrite Hspec in Hr; [done|].
    apply list_elem_of_fmap. by exists r.
Qed.

(** Two adapter runs, the second of which raises, before the first one ends. *)
Definition late_entry : entry :=
  Entry (Some "https://cdn.example/a.m3u8") "logo" "https://base.example" 1000
    "Live.Event.us" None.

Definition runs_one_failing : list fetch.adapter_run :=
  [fetch.AdapterRun 7 (Returned tt) {["[NBA] A vs B (PPV)" := late_entry]};
   fetch.AdapterRun 3 (Raised (KeyError "streams")) ∅;
   fetch.AdapterRun 5 (Raised IndexError) ∅].

Lemma X2_main_raises_earliest_failure_witness :
  exists r e,
    r ∈ runs_one_failing /\ fetch.scrape_outcome r = Raised e /\
    Forall (fun r' => is_raised (fetch.scrape_outcome r') = true ->
                      (fetch.finished_at r <= fetch.finished_at r')%nat)
      runs_one_failing /\
    fetch.main (fun s => [s]) "#EXTM3U" runs_one_failing
      = (Raised e, fetch.Files None None).
Proof.
  apply (X2_main_raises_earliest_failure (fun s => [s]) "#EXTM3U" runs_one_failing).
  apply Exists_cons_tl, Exists_cons_hd. reflexivity.
Defined.

Section output_facts.
Import fetch.

(** The five lines a channel contributes to a playlist. *)
Definition channel_lines (c : channel) : list string :=
  [newline +:+ extinf c;
   "#EXTVLCOPT:http-referrer=" +:+ base c;
   "#EXTVLCOPT:http-origin=" +:+ base c;
   "#EXTVLCOPT:http-user-agent=" +:+ Network.UA;
   default "" (url c)].

Lemma blocks_checked (cs : list channel) :
  Forall (fun c => is_Some (url c)) cs ->
  mapM id (flat_map block cs) = Some (flat_map channel_lines cs).
Proof.
  induction 1 as [|c cs [u Hu] _ IH]; [done|].
  cbn [flat_map]. unfold block at 1, vlc_block, channel_lines at 1.
  rewrite Hu. cbn -[extinf Network.UA]. rewrite IH. done.
Qed.

Lemma join_checked_app (pre : list string) (cs : list channel) :
  Forall (fun c => is_Some (url c)) cs ->
  join_checked newline (map Some pre ++ flat_map block cs)
    = Returned (join newline (pre ++ flat_map channel_lines cs)).
Proof.
  intros H. unfold join_checked.
  assert (mapM id (map Some pre ++ flat_map block cs)
          = Some (pre ++ flat_map channel_lines cs)) as ->; [|done].
  induction pre as [|p pre IH]; simpl.
  - by apply blocks_checked.
  - by rewrite IH.
Qed.

Lemma number_urls (t i : Z) (items : list (string * entry)) :
  Forall (fun kv => is_Some (e_url (snd kv))) items ->
  Forall (fun c => is_Some (url c)) (fst (number t i items)) /\
  Forall (fun c => is_Some (url c)) (snd (number t i items)).
Proof.
  intros H. revert i. induction H as [|[ev info] rest Hx _ IH]; intros i; simpl.
  - by split.
  - specialize (IH (i + 1)). destruct (number t (i + 1) rest) as [c l]; simpl in *.
    destruct IH as [IH1 IH2]. split; by constructor.
Qed.

Lemma sorted_items_urls (m : gmap string entry) :
  (forall k e, m !! k = Some e -> is_Some (e_url e)) ->
  Forall (fun kv => is_Some (e_url (snd kv))) (sorted_items m).
Proof.
  intros H. apply Forall_forall. intros [k e] Hin.
  apply sorted_items_lookup in Hin. simpl. by eapply H.
Qed.

(** X3.  When every adapter task returns and every merged entry has a URL,
    [main] returns and writes both playlists: the combined one is the lines
    of the base playlist followed by five lines per merged entry, the events
    one is the header followed by the same five lines per entry under the
    live numbering; with nothing merged they are the base playlist and the
    header alone. *)
Theorem X3_main_writes_both_playlists (splitlines : string -> list string)
    (data : string) (runs : list adapter_run) :
  Forall (fun r => is_raised (scrape_outcome r) = false) runs ->
  (forall k e, additions runs !! k = Some e -> is_Some (e_url e)) ->
  let numbered :=
    number (max_default 0 (findall_chno 0 data)) 1 (sorted_items (additions runs)) in
  main splitlines data runs =
    (Returned tt,
     Files (Some (join newline (splitlines data ++ flat_map channel_lines (fst numbered))))
           (Some (events_header +:+ join newline (flat_map channel_lines (snd numbered))))) /\
  length (flat_map channel_lines (fst numbered)) = (5 * size (additions runs))%nat /\
  length (flat_map channel_lines (snd numbered)) = (5 * size (additions runs))%nat /\
  (additions runs = ∅ ->
   main splitlines data runs =
     (Returned tt, Files (Some (join newline (splitlines data))) (Some events_header))).
Proof.
  intros Hret Hurls numbered.
  assert (main splitlines data runs =
    (Returned tt,
     Files (Some (join newline (splitlines data ++ flat_map channel_lines (fst numbered))))
           (Some (events_header +:+ join newline (flat_map channel_lines (snd numbered))))))
    as Hmain.
  { rewrite main_merges by done. unfold merge_and_write, load_base. cbn [fst snd].
    fold numbered.
    destruct (number_urls (max_default 0 (findall_chno 0 data)) 1
                (sorted_items (additions runs)) (sorted_items_urls _ Hurls)) as [H1 H2].
    fold numbered in H1, H2.
    destruct numbered as [combined live]. cbn [fst snd] in *.
    rewrite join_checked_app by done.
    pose proof (join_checked_app [] live H2) as Hlive. simpl in Hlive.
    rewrite Hlive. done. }
  assert (forall cs : list channel,
            length (flat_map channel_lines cs) = (5 * length cs)%nat) as Hlen.
  { induction cs as [|c cs IH]; [done|]. cbn [flat_map]. rewrite length_app, IH.
    simpl. lia. }
  destruct (number_chnos (max_default 0 (findall_chno 0 data)) 1
              (sorted_items (additions runs))) as [Hc1 Hc2].
  fold numbered in Hc1, Hc2.
  apply (f_equal length) in Hc1, Hc2.
  rewrite length_map, length_seqZ, sorted_items_length in Hc1, Hc2.
  split; [exact Hmain|]. rewrite !Hlen.
  split; [lia|]. split; [lia|].
  intros Hempty. rewrite Hmain. subst numbered. rewrite Hempty.
  unfold sorted_items. rewrite map_to_list_empty. simpl.
  by rewrite app_nil_r.
Qed.

End output_facts.

Definition runs_all_returning : list fetch.adapter_run :=
  [fetch.AdapterRun 7 (Returned tt) {["[NBA] A vs B (PPV)" := late_entry]};
   fetch.AdapterRun 3 (Returned tt) ∅].

Lemma X3_main_writes_both_playlists_witness :
  exists combined events,
    fetch.main (fun s => [s]) "#EXTM3U" runs_all_returning
      = (Returned tt, fetch.Files (Some combined) (Some events)).
Proof.
  destruct (X3_main_writes_both_playlists (fun s => [s]) "#EXTM3U" runs_all_returning)
    as (H & _).
  - repeat constructor.
  - intros k e Hk. unfold fetch.additions in Hk. simpl in Hk.
    rewrite !dict_or_lookup, !lookup_empty in Hk.
    destruct (_ !! k) as [e'|] eqn:Hs in Hk; [|done].
    apply lookup_singleton_Some in Hs as [_ <-]. injection Hk as <-. by eexists.
  - eexists _, _. exact H.
Defined.

(** ** The aggregator: channel numbers of the base playlist *)

Section base_facts.
Import fetch.

Lemma take_digits_nonneg (acc : Z) (n : nat) (s : string) :
  0 <= acc -> 0 <= fst (fst (take_digits acc n s)).
Proof.
  revert acc n. induction s as [|c s IH]; intros acc n Hacc; simpl; [done|].
  destruct (Ascii.is_nat c) as [d|]; [|done]. apply IH. lia.
Qed.

Lemma findall_chno_nonneg (skip : nat) (s : string) :
  Forall (fun v => 0 <= v) (findall_chno skip s).
Proof.
  revert skip. induction s as [|c s IH]; intros skip; cbn [findall_chno]; [constructor|].
  destruct skip as [|k]; [|apply IH].
  destruct (match_chno (String c s)) as [[v len]|] eqn:Hm; [|apply IH].
  constructor; [|apply IH].
  unfold match_chno in Hm. destruct (strip_prefix _ _) as [r|]; [|done].
  pose proof (take_digits_nonneg 0 0 r ltac:(lia)) as Hv.
  destruct (take_digits 0 0 r) as [[v' n'] rest]. simpl in Hv.
  destruct n' as [|n']; [done|]. destruct rest as [|q rest]; [done|].
  destruct (decide (q = dquote)); [|done]. by injection Hm as <- _.
Qed.

(** X4.  A channel number given to a live event in the combined playlist
    is greater than every number the pattern finds in the base playlist, so
    no live event gets a number the base playlist uses; the numbers given
    are pairwise different; the greatest number of the base playlist is
    never negative. *)
Theorem X4_combined_numbers_are_new (splitlines : string -> list string)
    (data : string) (runs : list adapter_run) :
  let base_max := snd (load_base splitlines data) in
  let combined := fst (number base_max 1 (sorted_items (additions runs))) in
  0 <= base_max /\
  Forall (fun c => Forall (fun n => n < chno c) (findall_chno 0 data)) combined /\
  NoDup (map chno combined).
Proof.
  intros base_max combined.
  pose proof (max_default_spec (findall_chno 0 data)) as Hmax.
  pose proof (findall_chno_nonneg 0 data) as Hnn.
  destruct (number_chnos base_max 1 (sorted_items (additions runs))) as [Hc _].
  fold combined in Hc.
  assert (Forall (fun y => y <= base_max) (findall_chno 0 data)) as Hle.
  { subst base_max. unfold load_base. simpl.
    destruct (findall_chno 0 data); [constructor | by destruct Hmax]. }
  split; [|split].
  - subst base_max. unfold load_base. simpl.
    destruct (findall_chno 0 data) as [|x xs] eqn:Hf; [by rewrite Hmax|].
    destruct Hmax as [Hin _]. rewrite Forall_forall in Hnn. by apply Hnn.
  - apply Forall_forall. intros c Hin.
    assert (chno c ∈ map chno combined) as Hc' by (apply list_elem_of_fmap; eauto).
    rewrite Hc in Hc'. apply elem_of_seqZ in Hc'.
    eapply Forall_impl; [exact Hle|]. simpl. lia.
  - rewrite Hc. apply NoDup_seqZ.
Qed.

End base_facts.

(** ** The mirror selector: which mirror is returned *)

Section selector_facts.
Import Network asyncio.

Lemma head_filter_Some {X} (p : X -> bool) (l : list X) (x : X) :
  head (List.filter p l) = Some x <->
  exists pre post, l = pre ++ x :: post /\ p x = true /\ Forall (fun y => p y = false) pre.
Proof.
  induction l as [|y l IH]; simpl.
  - split; [done|]. intros (pre & post & H & _). by destruct pre.
  - destruct (p y) eqn:Hy; simpl.
    + split.
      * intros [= ->]. exists [], l. by repeat split.
      * intros (pre & post & H & Hx & Hpre). destruct pre as [|z pre].
        -- simpl in H. congruence.
        -- simpl in H. injection H as -> ->. inversion Hpre; congruence.
    + rewrite IH. split.
      * intros (pre & post & -> & Hx & Hpre). exists (y :: pre), post.
        repeat split; [done|]. by constructor.
      * intros (pre & post & H & Hx & Hpre). destruct pre as [|z pre].
        -- simpl in H. congruence.
        -- simpl in H. injection H as -> ->. inversion Hpre; subst.
           by exists pre, post.
Qed.

Lemma head_filter_None {X} (p : X -> bool) (l : list X) :
  head (List.filter p l) = None <-> Forall (fun y => p y = false) l.
Proof.
  induction l as [|y l IH]; simpl; [by split; [constructor|]|].
  destruct (p y) eqn:Hy; simpl.
  - split; [done|]. intros H. inversion H; congruence.
  - rewrite IH. split; [by constructor | by inversion 1].
Qed.

(** The probe of a mirror counts as a success when the mirror answers with
    status 200, and also when the request raises an exception that
    [check_status] does not catch. *)
Lemma counted_as_working_spec (r : response) :
  counted_as_working r = true <->
  r = Response 200 \/ exists e, r = Fails e /\ is_httpx_error e = false.
Proof.
  unfold counted_as_working.
  destruct (check_status r) as [b|e] eqn:Hc; simpl.
  - destruct b.
    + apply check_status_true in Hc. split; [by left | done].
    + split; [done|]. intros [-> | (e & -> & He)].
      * by vm_compute in Hc.
      * unfold check_status in Hc. by rewrite He in Hc.
  - split; [|done]. intros _. right. destruct r as [s|e'].
    + unfold check_status, raise_for_status in Hc.
      destruct ((200 <=? s) && (s <? 300)); simpl in Hc; done.
    + unfold check_status in Hc. destruct (is_httpx_error e') eqn:He; [done|].
      by exists e'.
Qed.

(** X5.  [get_base] returns a mirror exactly when that mirror is in the
    list, its probe counts as a success and the probe of no mirror before it
    in the list does; it returns [None] exactly when no probe counts.  How
    long each probe takes plays no role.  When no request raises anything
    but an httpx error, the mirror returned is the first one, in the order
    of the list, that answers with status 200. *)
Theorem X5_get_base_first_in_input_order (net : string -> nat * response)
    (mirrors : list string) :
  (forall m,
     get_base net mirrors = Some m <->
     exists pre post,
       mirrors = pre ++ m :: post /\
       counted_as_working (snd (net m)) = true /\
       Forall (fun m' => counted_as_working (snd (net m')) = false) pre) /\
  (get_base net mirrors = None <->
   Forall (fun m => counted_as_working (snd (net m)) = false) mirrors) /\
  (forall r,
     counted_as_working r = true <->
     r = Response 200 \/ exists e, r = Fails e /\ is_httpx_error e = false) /\
  (forall net', (forall m, snd (net m) = snd (net' m)) ->
     get_base net mirrors = get_base net' mirrors) /\
  (Forall (fun m => forall e, snd (net m) = Fails e -> is_httpx_error e = true) mirrors ->
   get_base net mirrors =
   head (List.filter (fun m => bool_decide (snd (net m) = Response 200)) mirrors)).
Proof.
  split; [|split; [|split; [|split]]].
  - intros m. rewrite get_base_first.
    apply (head_filter_Some (fun m => counted_as_working (snd (net m)))).
  - rewrite get_base_first.
    apply (head_filter_None (fun m => counted_as_working (snd (net m)))).
  - apply counted_as_working_spec.
  - intros net' H. by apply get_base_order_independent.
  - intros H. apply get_base_first_healthy.
    eapply Forall_impl; [exact H|]. intros m Hm. simpl in Hm.
    destruct (snd (net m)) as [s|e] eqn:Hr.
    + unfold check_status, raise_for_status.
      by destruct ((200 <=? s) && (s <? 300)).
    + unfold check_status. by rewrite (Hm e eq_refl).
Qed.

(** X6.  The handler only ever appends: after any sequence of requests the
    list [captured] holds exactly the requests the pattern accepts, in the
    order they were issued, and [got_one] is set exactly when the list is
    not empty; a request the pattern rejects leaves both as they are. *)
Theorem X6_capture_req_state (us : list string) :
  foldl (fun st u => capture_req u st) ([], false) us
    = (List.filter pattern_search us, existsb pattern_search us) /\
  (snd (foldl (fun st u => capture_req u st) ([], false) us) = true <->
   fst (foldl (fun st u => capture_req u st) ([], false) us) <> []) /\
  (forall u st, pattern_search u = false -> capture_req u st = st).
Proof.
  assert (forall acc flag,
            foldl (fun st u => capture_req u st) (acc, flag) us
            = (acc ++ List.filter pattern_search us, flag || existsb pattern_search us))
    as Hgen.
  { induction us as [|u us IH]; intros acc flag; simpl.
    - by rewrite app_nil_r, orb_false_r.
    - unfold capture_req at 2. destruct (pattern_search u); simpl.
      + rewrite IH. by rewrite <- app_assoc, orb_true_r.
      + apply IH. }
  split; [apply (Hgen [] false)|]. split.
  - rewrite (Hgen [] false). simpl. clear Hgen.
    induction us as [|u us IH]; simpl; [done|].
    destruct (pattern_search u); simpl; [done | exact IH].
  - intros u st Hu. unfold capture_req. by rewrite Hu.
Qed.

End selector_facts.

(** ** The capture bridge: what is logged *)

(** Runs a computation of [M] that has been handed all it depends on. *)
Ltac run_M H :=
  unfold try_finally, try_except, bind, of_outcome, ret, raise, log_call, emit,
    tick, now, Network.reap_wait_task, Network.await_task, asyncio.await,
    asyncio.cancel, asyncio.done in H;
  simpl in H.

Section log_facts.
Import Network asyncio.

(** How the inner block ends: it falls through once the event has been
    set, the clock standing at the moment of the first accepted request or
    later; it returns after the warning of the inner timeout; or it
    raises, having logged nothing. *)
Lemma wait_block_outcomes (fl : flavour) (env : page_env) (t0 : nat) (url_num : Z)
    (timeout : nat) (log : bool) (w : world) (r : outcome (option (option string)))
    (w' : world) :
  wait_block fl env t0 url_num timeout log w = Some (r, w') ->
  (r = Returned None /\ logs w' = logs w /\
   exists m, first_match_time (requests env) = Some m /\
             (m <= clock w' - t0 + (t0 - clock w))%nat) \/
  (log = true /\ r = Returned (Some None) /\
   logs w' = logs w ++ [LogRecord WARNING (inner_timeout_msg url_num)]) \/
  (exists e, r = Raised e /\ logs w' = logs w).
Proof.
  unfold wait_block, bind at 1 2 3, now at 1, emit at 1.
  cbn -[await_wait_for try_finally].
  unfold await_wait_for, wait_for_interruptible.
  set (c := got_one_wait (requests env) (clock w - t0)).
  destruct (interrupts c (seconds timeout) (wait_interrupt env)) as [i|] eqn:Hi.
  - (* the caller is cancelled during the wait *)
    intros H. right. right. exists CancelledError.
    destruct fl; run_M H; simplify_eq; done.
  - unfold wait_for. destruct (completes_before c (seconds timeout)) eqn:Hc.
    + (* the event is set in time *)
      intros H. left. run_M H. simplify_eq. split; [done|]. split; [done|].
      unfold wait_elapsed. rewrite Hi, Hc.
      unfold completes_before in Hc. subst c. simpl in *.
      destruct (first_match_time (requests env)) as [m|]; [|done].
      exists m. split; [done|]. simpl. lia.
    + (* the inner deadline passes *)
      intros H. destruct log.
      * right. left. destruct fl; run_M H; simplify_eq; done.
      * right. right. exists AttributeError.
        destruct fl; run_M H; simplify_eq; done.
Qed.

Lemma teardown_logs (env : page_env) (w : world) (r : outcome unit) (w' : world) :
  teardown env w = Some (r, w') -> logs w' = logs w.
Proof. unfold teardown. intros H. run_M H. by simplify_eq. Qed.

(** The guarded body of [process_event], from the navigation on. *)
Lemma process_event_body_logs (fl : flavour) (env : page_env) (t0 : nat)
    (url_num : Z) (timeout : nat) (w : world) (r : option string) (w' : world) :
  (t0 <= clock w)%nat ->
  (emit Goto ;;
   tick (goto_time env) ;;
   of_outcome (goto_res env) ;;
   r <- wait_block fl env t0 url_num timeout true ;;
   match r with
   | Some v => ret v
   | None =>
       t <- now ;;
       match fst (observed (requests env) (t - t0)) with
       | u :: _ => log_call true INFO (captured_msg url_num) ;; ret (Some u)
       | [] => log_call true WARNING (nothing_msg url_num) ;; ret None
       end
   end)%py w = Some (Returned r, w') ->
  (exists u, r = Some u /\
     logs w' = logs w ++ [LogRecord INFO (captured_msg url_num)]) \/
  (r = None /\
     logs w' = logs w ++ [LogRecord WARNING (inner_timeout_msg url_num)]).
Proof.
  intros Ht0. unfold bind at 1 2 3, emit at 1, tick at 1, of_outcome at 1.
  cbn -[wait_block bind observed].
  destruct (goto_res env) as [[]|e]; [|done].
  unfold bind at 1.
  destruct (wait_block _ _ _ _ _ _ _) as [[o w1]|] eqn:Hw; [|done].
  apply wait_block_outcomes in Hw as
    [(-> & Hl & m & Hm & Hclock) | [(_ & -> & Hl) | (e & -> & Hl)]];
    cbn -[observed] in *.
  - destruct (first_match_arrived (requests env) m (clock w1 - t0) Hm)
      as (u & rest & Hobs); [lia|].
    rewrite Hobs. intros H. run_M H. simplify_eq.
    left. exists u. simpl. by rewrite Hl.
  - intros H. run_M H. simplify_eq. by right.
  - done.
Qed.

(** X7.  Called with a logger, [process_event] logs exactly one record in
    every call that returns: the information that a stream was captured when
    it returns a URL, a warning (the inner timeout, or the exception caught)
    when it returns [None].  The warning that nothing was captured after the
    wait is never logged. *)
Theorem X7_process_event_logs_one_record (fl : flavour) (env : page_env)
    (url_num : Z) (timeout : nat) (w : world) (r : option string) (w' : world) :
  Network.process_event fl env url_num timeout true w = Some (Returned r, w') ->
  exists record,
    logs w' = logs w ++ [record] /\
    match r with
    | Some _ => record = LogRecord INFO (captured_msg url_num)
    | None =>
        record = LogRecord WARNING (inner_timeout_msg url_num) \/
        exists e, record = LogRecord WARNING (exception_msg url_num e)
    end /\
    msg record <> nothing_msg url_num.
Proof.
  assert (forall record,
    record = LogRecord INFO (captured_msg url_num) \/
    record = LogRecord WARNING (inner_timeout_msg url_num) \/
    (exists e, record = LogRecord WARNING (exception_msg url_num e)) ->
    msg record <> nothing_msg url_num) as Hother.
  { unfold captured_msg, inner_timeout_msg, exception_msg, nothing_msg.
    intros record [-> | [-> | [e ->]]]; simpl; intros H;
      apply (inj (String.app "URL ")), (inj (String.app (pretty url_num))) in H;
      discriminate H. }
  unfold Network.process_event, bind at 1 2 3 4, of_outcome at 1, emit at 1 2, now at 1.
  destruct (new_page_res env) as [[]|e0]; [|done].
  cbn -[wait_block try_finally try_except bind observed teardown].
  set (w0 := World (clock w) (logs w) ((trace w ++ [NewPage]) ++ [On])).
  unfold try_finally.
  destruct (try_except _ _ _ w0) as [[o w1]|] eqn:Hbody; [|done].
  destruct (teardown env w1) as [[[[]|e1] w2]|] eqn:Htd; [|done|done].
  intros [= -> ->]. apply teardown_logs in Htd. rewrite Htd. clear Htd.
  unfold try_except in Hbody.
  match type of Hbody with
  | match ?b w0 with _ => _ end = _ => destruct (b w0) as [[[x|e] w3]|] eqn:Hb
  end; [| |done].
  - simplify_eq.
    apply process_event_body_logs in Hb as [(u & -> & Hl) | (-> & Hl)]; [| |done].
    + exists (LogRecord INFO (captured_msg url_num)). split; [done|]. split; [done|].
      apply Hother. by left.
    + exists (LogRecord WARNING (inner_timeout_msg url_num)). split; [done|].
      split; [by left|]. apply Hother. right. by left.
  - destruct (is_Exception e); [|done].
    assert (logs w3 = logs w) as Hl3.
    { revert Hb. unfold bind at 1 2 3, emit at 1, tick at 1, of_outcome at 1.
      cbn -[wait_block bind observed].
      destruct (goto_res env) as [[]|e']; [|by intros [= _ <-]].
      unfold bind at 1.
      destruct (wait_block _ _ _ _ _ _ _) as [[o' w4]|] eqn:Hw; [|done].
      apply wait_block_outcomes in Hw as
        [(-> & Hl & m & Hm & Hclock) | [(_ & -> & Hl) | (e' & -> & Hl)]];
        cbn -[observed] in *.
      - destruct (fst (observed _ _)); intros H; run_M H; simplify_eq.
      - intros H; run_M H; simplify_eq.
      - by intros [= _ <-]. }
    run_M Hbody. simplify_eq. simpl. rewrite Hl3.
    exists (LogRecord WARNING (exception_msg url_num e)). split; [done|].
    split; [right; by exists e|]. apply Hother. right. right. by exists e.
Qed.

End log_facts.

(** A page that asks for a manifest 800 ms after the handler was installed,
    the navigation taking 500 ms. *)
Definition page_one_manifest : Network.page_env :=
  Network.PageEnv (Returned tt) 500 (Returned tt)
    [(200%nat, "https://site.example/app.js");
     (600%nat, "https://cdn.example/hls/index.m3u8")]
    None (Returned tt).

Lemma X7_process_event_logs_one_record_witness :
  exists w',
    Network.process_event asyncio.CancelAndWait page_one_manifest 1 6 true world0
      = Some (Returned (Some "https://cdn.example/hls/index.m3u8"), w') /\
    logs w' = [LogRecord INFO (Network.captured_msg 1)].
Proof.
  destruct (Network.process_event asyncio.CancelAndWait page_one_manifest 1 6 true world0)
    as [[r w']|] eqn:Hrun; [|by vm_compute in Hrun].
  assert (r = Returned (Some "https://cdn.example/hls/index.m3u8")) as ->.
  { vm_compute in Hrun. congruence. }
  exists w'. split; [done|].
  destruct (X7_process_event_logs_one_record _ _ _ _ _ _ _ Hrun)
    as (record & Hlogs & -> & _).
  exact Hlogs.
Defined.

Section no_logger.
Import Network asyncio.

Lemma yields_log_call_none {A} (P : A -> Prop) (l : level) (m : string)
    (k : unit -> M A) :
  yields P (bind (log_call false l m) k).
Proof. intros w x w' E. run_M E. done. Qed.

Lemma wait_block_yields_no_logger (fl : flavour) (env : page_env) (t0 : nat)
    (url_num : Z) (timeout : nat) :
  yields (fun r => r = None) (wait_block fl env t0 url_num timeout false).
Proof.
  unfold wait_block.
  apply yields_bind. intros t. apply yields_bind. intros _.
  apply yields_bind. intros r. apply yields_try_finally.
  apply yields_try_except.
  - apply yields_bind. intros _. by apply yields_ret.
  - intros e. apply yields_log_call_none.
Qed.

(** X8.  Called without a logger (the default of the parameter),
    [process_event] never returns a value: every path to a [return] logs
    first, and the call on [None] raises, so each call ends by raising,
    the page having been released all the same. *)
Theorem X8_process_event_without_logger_raises (fl : flavour) (env : page_env)
    (url_num : Z) (timeout : nat) (w : world) :
  exists e w',
    Network.process_event fl env url_num timeout false w = Some (Raised e, w') /\
    page_ops (trace w') = page_ops (trace w) ++ opened_and_released env.
Proof.
  destruct (process_event_page_ops fl env url_num timeout false w)
    as (r & w' & Hrun & Hops).
  destruct r as [x|e]; [exfalso | by exists e, w'].
  revert Hrun. generalize w, x, w'.
  change (yields (fun _ => False) (Network.process_event fl env url_num timeout false)).
  unfold Network.process_event.
  do 4 (apply yields_bind; intros ?).
  apply yields_try_finally, yields_try_except.
  - do 3 (apply yields_bind; intros ?).
    intros w1 x1 w1' E. unfold bind in E.
    destruct (wait_block _ _ _ _ _ _ w1) as [[[r|e] w2]|] eqn:Ew; simplify_eq.
    rewrite (wait_block_yields_no_logger _ _ _ _ _ _ _ _ Ew) in E.
    unfold now in E. simpl in E.
    destruct (fst (observed (requests env) (clock w2 - a2))); run_M E; done.
  - intros e. apply yields_log_call_none.
Qed.

End no_logger.

(** ** The discovery window *)

(** X9.  The window of the adapters is taken around the current minute, not
    around the current second: [clean] gives the start of the minute, the
    window reaches thirty minutes to either side of it, so an event is in
    the window exactly when it starts within thirty minutes of the start of
    the current minute.  Measured from the current time, every event
    starting between 30 minutes ago and 29 minutes ahead is in the window,
    and no event starting more than 31 minutes ago or more than 30 minutes
    ahead is. *)
Theorem X9_window_around_current_minute (now_ts event_ts : Z) :
  (Time.clean now_ts <= now_ts < Time.clean now_ts + 60 /\
   Time.clean now_ts mod 60 = 0 /\
   Time.clean (Time.clean now_ts) = Time.clean now_ts) /\
  (Time.in_window now_ts event_ts = true <->
   Time.clean now_ts - 1800 <= event_ts <= Time.clean now_ts + 1800) /\
  (now_ts - 1800 <= event_ts <= now_ts + 1740 ->
   Time.in_window now_ts event_ts = true) /\
  (Time.in_window now_ts event_ts = true ->
   now_ts - 1860 < event_ts <= now_ts + 1800).
Proof.
  unfold Time.in_window, Time.delta_minutes, Time.clean.
  pose proof (Z.mod_pos_bound now_ts 60 ltac:(lia)) as Hm.
  assert ((now_ts - now_ts mod 60) mod 60 = 0) as Hz.
  { rewrite Zminus_mod_idemp_r. by rewrite Z.sub_diag. }
  split; [|split; [|split]].
  - split; [lia|]. split; [exact Hz|]. rewrite Hz. lia.
  - rewrite andb_true_iff, !Z.leb_le. lia.
  - intros H. rewrite andb_true_iff, !Z.leb_le. lia.
  - rewrite andb_true_iff, !Z.leb_le. lia.
Qed.

(** ** Leagues *)

Section text_facts.

Lemma upper_ascii_idem (c : ascii) : upper_ascii (upper_ascii c) = upper_ascii c.
Proof.
  unfold upper_ascii.
  destruct ((97 <=? nat_of_ascii c)%nat && (nat_of_ascii c <=? 122)%nat) eqn:H.
  - apply andb_true_iff in H as [H1 H2]. apply Nat.leb_le in H1, H2.
    rewrite nat_ascii_embedding by lia.
    replace ((97 <=? nat_of_ascii c - 32)%nat) with false; [done|].
    symmetry. apply Nat.leb_gt. lia.
  - by rewrite H.
Qed.

Lemma upper_idem (s : string) : upper (upper s) = upper s.
Proof. induction s as [|c s IH]; simpl; [done|]. by rewrite upper_ascii_idem, IH. Qed.

Lemma re_split_nonempty (skip : nat) (acc s : string) :
  (1 <= length (re_split skip acc s))%nat.
Proof.
  revert skip acc. induction s as [|c s IH]; intros skip acc; simpl; [lia|].
  destruct skip; [|apply IH]. destruct (match_sep _); simpl; [lia | apply IH].
Qed.

(** [pattern.search] finds a separator exactly when [re.split] cuts the
    text into more than one part. *)
Lemma re_search_split (acc s : string) :
  re_search s = true <-> (2 <= length (re_split 0 acc s))%nat.
Proof.
  revert acc. induction s as [|c s IH]; intros acc.
  - simpl. split; [done | lia].
  - cbn [re_search re_split]. destruct (match_sep (String c s)) as [rest|].
    + simpl. pose proof (re_split_nonempty (String.length s - String.length rest) "" s).
      split; [lia | done].
    + apply IH.
Qed.

End text_facts.

Section leagues_facts.
Import Leagues.
Context (self : data).

(** X10.  [info] never gives an empty logo: a league without logo, or with
    an empty one, and a name that no league matches get the default image;
    a name is looked up in capitals, so its letter case plays no role; the
    id returned is one of the ids of the table, and [None] exactly when no
    league has the name or lists it among its names. *)
Theorem X10_info_always_has_logo (name : string) :
  snd (info self name) <> "" /\
  info self (upper name) = info self name /\
  (fst (info self name) = None <->
   matches self (upper name) = [] /\ info self name = (None, live_img)) /\
  (forall tvg_id, fst (info self name) = Some tvg_id ->
     tvg_id ∈ map fst (d_leagues self)).
Proof.
  split; [|split; [|split]].
  - unfold info. destruct (head _) as [[tvg_id logo]|]; simpl; [|done].
    destruct logo as [[|a r]|]; done.
  - unfold info. by rewrite upper_idem.
  - unfold info. destruct (matches self (upper name)) as [|[tvg_id logo] rest] eqn:Hm; simpl.
    + done.
    + split; [done | by intros [? _]].
  - intros tvg_id. unfold info.
    destruct (matches self (upper name)) as [|[id logo] rest] eqn:Hm; simpl; [done|].
    intros [= ->].
    assert ((tvg_id, logo) ∈ matches self (upper name)) as Hin by (rewrite Hm; left).
    unfold matches in Hin.
    apply list_elem_of_In, in_flat_map in Hin as ([id ls] & Hid & Hin).
    apply in_flat_map in Hin as (entry & _ & Hin).
    apply in_flat_map in Hin as ([ln ld] & _ & Hin).
    destruct (_ || _); [|done]. destruct Hin as [[= -> _]|[]].
    apply list_elem_of_fmap. exists (tvg_id, ls). split; [done|].
    by apply list_elem_of_In.
Qed.

(** X11.  [is_valid] raises [ValueError] exactly when the separator pattern
    cuts the event name into three parts or more (it occurs twice or more),
    the unpacking into two names failing; it raises nothing else.  So
    [get_tvg_info] raises [ValueError] on such an event name when the sport
    is one of the football and basketball names, and never raises for any
    other sport. *)
Theorem X11_is_valid_needs_one_separator (sport event league : string) :
  (is_valid self event league = Raised ValueError <->
   (3 <= length (re_split 0 "" event))%nat) /\
  (forall e, is_valid self event league = Raised e -> e = ValueError) /\
  ((length (re_split 0 "" event) = 1)%nat ->
   is_valid self event league
     = Returned (bool_decide (lower event ∈ ["nfl redzone"; "college gameday"]))) /\
  (sport ∈ ["American Football"; "NFL"; "Basketball"; "NBA"] ->
   (3 <= length (re_split 0 "" event))%nat ->
   get_tvg_info self sport event = Raised ValueError) /\
  (sport ∉ ["American Football"; "NFL"; "Basketball"; "NBA"] ->
   exists r, get_tvg_info self sport event = Returned r) /\
  ((length (re_split 0 "" event) <= 2)%nat ->
   exists r, get_tvg_info self sport event = Returned r).
Proof.
  pose proof (re_search_split "" event) as Hs.
  assert (forall lg, is_valid self event lg = Raised ValueError <->
                     (3 <= length (re_split 0 "" event))%nat) as Hraise.
  { intros lg. unfold is_valid. destruct (re_search event) eqn:Hsearch.
    - destruct (re_split 0 "" event) as [|t1 [|t2 [|t3 rest]]]; simpl in *;
        (split; [try done; lia | try done; lia]).
    - split; [done|]. intros H3.
      assert (false = true) by (apply Hs; lia). congruence. }
  assert (forall lg, (length (re_split 0 "" event) <= 2)%nat ->
                     exists b, is_valid self event lg = Returned b) as Hok.
  { intros lg Hle. destruct (is_valid self event lg) as [b|e] eqn:Hv; [by exists b|].
    assert (e = ValueError) as ->.
    { unfold is_valid in Hv. destruct (re_search event); [|done].
      destruct (re_split 0 "" event) as [|t1 [|t2 [|t3 rest]]]; congruence. }
    apply Hraise in Hv. lia. }
  split; [apply Hraise|]. split; [|split; [|split; [|split]]].
  - intros e. unfold is_valid. destruct (re_search event); [|done].
    destruct (re_split 0 "" event) as [|t1 [|t2 [|t3 rest]]]; congruence.
  - intros H1. unfold is_valid. destruct (re_search event) eqn:Hsearch; [|done].
    assert (2 <= length (re_split 0 "" event))%nat by (by apply Hs). lia.
  - intros Hsport H3. unfold get_tvg_info.
    destruct (bool_decide (sport ∈ ["American Football"; "NFL"])) eqn:H1.
    { by rewrite (proj2 (Hraise "NFL") H3). }
    destruct (bool_decide (sport ∈ ["Basketball"; "NBA"])) eqn:H2.
    { by rewrite (proj2 (Hraise "NBA") H3). }
    apply bool_decide_eq_false in H1, H2. set_solver.
  - intros Hsport. unfold get_tvg_info.
    rewrite bool_decide_eq_false_2 by set_solver.
    rewrite bool_decide_eq_false_2 by set_solver.
    destruct (bool_decide _); eauto.
  - intros Hle. unfold get_tvg_info.
    destruct (Hok "NFL" Hle) as [b1 ->], (Hok "NBA" Hle) as [b2 ->],
      (Hok "WNBA" Hle) as [b3 ->]. simpl.
    repeat (case_match; simpl; eauto).
Qed.

End leagues_facts.

(** An event name with two separators, as a listing of a series gives it. *)
Example get_tvg_info_two_separators (self : Leagues.data) :
  re_split 0 "" "Lakers at Celtics - Game 2" = ["Lakers"; "Celtics"; "Game 2"] /\
  Leagues.get_tvg_info self "NBA" "Lakers at Celtics - Game 2" = Raised ValueError /\
  Leagues.get_tvg_info self "Hockey" "Bruins at Rangers - Game 2"
    = Returned (Leagues.info self "NHL").
Proof. repeat split; reflexivity. Qed.

(** ** The ppv adapter *)

Section ppv_facts.
Context (out_of_range : Z -> option exn).
Context (get_tvg_info : string -> string -> outcome (option string * string)).

(** What the loop of [scrape] may add to the two dictionaries. *)
Definition ppv_stored (events : list event) (k : string) (e : entry) : Prop :=
  truthy (e_url e) = true /\ e_base e = ppv_scrape.BASE_URL /\ e_href e = None /\
  exists ev, ev ∈ events /\ k = ppv.key_of (ev_sport ev) (ev_event ev) /\
             e_timestamp e = ev_timestamp ev.

Section loop.
Context (resolve : Z -> event -> outcome (option string)).

Local Abbreviation key ev := (ppv.key_of (ev_sport ev) (ev_event ev)).

(** One turn of the loop leaves the state as it is or stores one entry
    under the key of the event in both dictionaries. *)
Lemma ppv_resolve_all_cons (i : Z) (ev : event) (rest : list event)
    (st : adapter_state) (r : outcome unit) (st' : adapter_state) :
  ppv_scrape.resolve_all get_tvg_info resolve i (ev :: rest) st = (r, st') ->
  (st' = st /\ is_raised r = true) \/
  ppv_scrape.resolve_all get_tvg_info resolve (i + 1) rest st = (r, st') \/
  exists e,
    ppv_stored [ev] (key ev) e /\
    ppv_scrape.resolve_all get_tvg_info resolve (i + 1) rest
      (AdapterState (<[key ev := e]> (cached_urls st)) (<[key ev := e]> (urls st))
         (written st)) = (r, st').
Proof.
  simpl. destruct (resolve i ev) as [url|e0]; [|intros [= <- <-]; by left].
  destruct (truthy url) eqn:Hurl; [|by right; left].
  destruct (get_tvg_info _ _) as [[tvg_id pic]|e1]; [|intros [= <- <-]; by left].
  intros H. right. right. eexists. split; [|exact H].
  repeat split; try done. exists ev. split; [left | done].
Qed.

Lemma ppv_stored_mono (ev : event) (events : list event) (k : string) (e : entry) :
  ppv_stored [ev] k e \/ ppv_stored events k e -> ppv_stored (ev :: events) k e.
Proof.
  intros [(H1 & H2 & H3 & ev' & Hin & H) | (H1 & H2 & H3 & ev' & Hin & H)];
    repeat split; try done; exists ev'; (split; [|done]).
  - apply list_elem_of_singleton in Hin as ->. left.
  - by right.
Qed.

Lemma ppv_resolve_all_inv (i : Z) (events : list event) (st : adapter_state)
    (r : outcome unit) (st' : adapter_state) :
  ppv_scrape.resolve_all get_tvg_info resolve i events st = (r, st') ->
  written st' = written st /\
  (forall k e, cached_urls st' !! k = Some e ->
     cached_urls st !! k = Some e \/ ppv_stored events k e) /\
  (forall k, k ∉ map (fun ev => key ev) events ->
     cached_urls st' !! k = cached_urls st !! k /\ urls st' !! k = urls st !! k) /\
  ((forall k e, cached_urls st !! k = Some e -> urls st !! k = Some e) ->
   forall k e, cached_urls st' !! k = Some e -> urls st' !! k = Some e) /\
  (forall k, is_Some (urls st !! k) -> is_Some (urls st' !! k)).
Proof.
  revert i st. induction events as [|ev rest IH]; intros i st Hrun.
  - simpl in Hrun. injection Hrun as <- <-. repeat split; auto.
  - apply ppv_resolve_all_cons in Hrun as [[-> _] | [Hrun | (e0 & Hst & Hrun)]].
    + repeat split; auto.
    + destruct (IH _ _ Hrun) as (Hw & Hc & Hother & Hsub & Hmono).
      split; [done|]. split; [|split; [|split]]; [| |done|done].
      * intros k e Hk. destruct (Hc k e Hk); [by left | right].
        apply ppv_stored_mono. by right.
      * intros k Hk. apply Hother. simpl in Hk. by apply not_elem_of_cons in Hk as [_ ?].
    + destruct (IH _ _ Hrun) as (Hw & Hc & Hother & Hsub & Hmono). simpl in *.
      split; [done|]. split; [|split; [|split]].
      * intros k e Hk. destruct (Hc k e Hk) as [H|H].
        -- apply lookup_insert_Some in H as [[<- <-] | [_ H]]; [right | by left].
           apply ppv_stored_mono. by left.
        -- right. apply ppv_stored_mono. by right.
      * intros k Hk. apply not_elem_of_cons in Hk as [Hne Hk].
        destruct (Hother k Hk) as [-> ->]. by rewrite !lookup_insert_ne.
      * intros Hst0. apply Hsub. intros k e. rewrite !lookup_insert_Some.
        intros [[<- <-] | [Hne H]]; [by left | right; auto].
      * intros k Hk. apply Hmono. rewrite lookup_insert_is_Some. 
        destruct (decide (key ev = k)); [by left | by right].
Qed.

End loop.

(** X12.  A run of [ppv.scrape] that returns writes the cache with the
    whole of what it loaded, unchanged, and with an entry for each event it
    resolved; no entry is stored for an event whose resolution gave no URL,
    so every entry written is one of those loaded or has a URL; every entry
    written to the cache is also in the live map [urls], with the same
    value; and no key that was in [urls] is lost. *)
Theorem X12_ppv_scrape_cache_in_live (now_ts : Z) (file : Cache.file_content)
    (urls0 : gmap string entry) (loaded refreshed : ppv.api_blob)
    (resolve : Z -> event -> outcome (option string)) (st : adapter_state) :
  ppv_scrape.scrape out_of_range get_tvg_info now_ts file urls0 loaded refreshed resolve
    = (Returned tt, st) ->
  let cached := Cache.load ppv_scrape.exp now_ts file in
  written st = Some (cached_urls st) /\
  (forall k e, cached !! k = Some e -> cached_urls st !! k = Some e) /\
  (forall k e, cached_urls st !! k = Some e -> urls st !! k = Some e) /\
  (forall k e, cached_urls st !! k = Some e ->
     cached !! k = Some e \/
     (truthy (e_url e) = true /\ e_base e = ppv_scrape.BASE_URL)) /\
  (forall k e, urls0 !! k = Some e -> is_Some (urls st !! k)).
Proof.
  unfold ppv_scrape.scrape. intros Hrun.
  set (cached := Cache.load ppv_scrape.exp now_ts file) in *.
  destruct (ppv.get_events out_of_range loaded refreshed now_ts (dom cached))
    as [events|e0] eqn:Hev; [|done].
  destruct (ppv_scrape.resolve_all _ _ _ _ _) as [[[]|e1] st1] eqn:Hres; [|done].
  injection Hrun as <-. simpl.
  destruct (ppv_resolve_all_inv _ _ _ _ _ _ Hres) as (_ & Hc & Hother & Hsub & Hmono).
  simpl in *.
  assert (Forall (fun ev => ppv.key_of (ev_sport ev) (ev_event ev) ∉ dom cached) events)
    as Hfresh.
  { exact (ppv_get_events_excludes_cached _ _ _ _ _ _ Hev). }
  split; [done|]. split; [|split; [|split]].
  - intros k e Hk. destruct (Hother k) as [-> _]; [|done].
    intros Hin. apply list_elem_of_fmap in Hin as (ev & -> & Hin).
    rewrite Forall_forall in Hfresh. apply (Hfresh ev Hin).
    apply elem_of_dom. by eexists.
  - apply Hsub. intros k e Hk. rewrite dict_update_lookup. by rewrite Hk.
  - intros k e Hk. destruct (Hc k e Hk) as [H | (H1 & H2 & _)]; [by left | by right].
  - intros k e Hk. apply Hmono. rewrite dict_update_lookup.
    destruct (cached !! k); eauto.
Qed.

End ppv_facts.

(** X13.  When the API blob of the ppv adapter is missing or stale and the
    request that refreshes it fails, [refresh_api_cache] hands back the
    empty dictionary, the lookup of ["streams"] in it raises [KeyError],
    and [scrape] raises it: the cache file is not written, although the
    cached entries have already gone into [urls]; the aggregator run of
    which this task is part then raises and writes neither playlist. *)
Theorem X13_ppv_scrape_refresh_failure (out_of_range : Z -> option exn)
    (get_tvg_info : string -> string -> outcome (option string * string))
    (now_ts : Z) (file : Cache.file_content) (urls0 : gmap string entry)
    (resolve : Z -> event -> outcome (option string))
    (splitlines : string -> list string) (data : string)
    (before after : list fetch.adapter_run) (t : nat) :
  let run :=
    ppv_scrape.scrape out_of_range get_tvg_info now_ts file urls0 None None resolve in
  let cached := Cache.load ppv_scrape.exp now_ts file in
  ppv.get_events out_of_range None None now_ts (dom cached) = Raised (KeyError "streams") /\
  run = (Raised (KeyError "streams"),
         AdapterState cached (dict_update urls0 cached) None) /\
  exists e,
    fetch.main splitlines data
      (before ++ fetch.AdapterRun t (fst run) (urls (snd run)) :: after)
    = (Raised e, fetch.Files None None).
Proof.
  intros run cached. split; [done|]. split; [done|].
  apply main_fails_fast, Exists_app. right. by left.
Qed.

Section ppv_discovery.
Context (out_of_range : Z -> option exn).

(** X14.  Every event [ppv.get_events] returns has a name and a link that
    are not empty and a start time that is not zero and lies in the window
    around the current minute; its sport is the category of its group,
    never the category of the round-the-clock streams; it has no [href]. *)
Theorem X14_ppv_get_events_wellformed (loaded refreshed : ppv.api_blob)
    (now_ts : Z) (cached_keys : gset string) (events : list event) :
  ppv.get_events out_of_range loaded refreshed now_ts cached_keys = Returned events ->
  Forall
    (fun ev =>
       ev_event ev <> "" /\ ev_link ev <> "" /\ ev_timestamp ev <> 0 /\
       Time.in_window now_ts (ev_timestamp ev) = true /\
       ev_sport ev <> "24/7 Streams" /\ ev_href ev = None)
    events.
Proof.
  apply ppv_get_events_Forall. intros sport s ev Hcat Hvisit.
  unfold ppv.visit in Hvisit.
  destruct (ppv.s_name s) as [name|]; [|done].
  destruct (ppv.s_starts_at s) as [start_ts|]; [|done].
  destruct (ppv.s_iframe s) as [iframe|]; [|done].
  destruct (truthy (Some name)) eqn:Hname; [|done].
  destruct (start_ts =? 0) eqn:Hts; [done|].
  destruct (truthy (Some iframe)) eqn:Hif; [|done]. simpl in Hvisit.
  destruct (bool_decide _) eqn:Hkey; [done|].
  unfold Time.from_ts in Hvisit. destruct (out_of_range start_ts); [done|].
  cbn [bind_outcome] in Hvisit.
  destruct (Time.in_window now_ts start_ts) eqn:Hwin; [|done].
  injection Hvisit as <-. simpl.
  apply Z.eqb_neq in Hts.
  repeat split; try done.
  - by destruct name.
  - by destruct iframe.
Qed.

End ppv_discovery.

(** A blob with one match about to start, one match without player and a
    round-the-clock channel. *)
Definition ppv_blob : ppv.api_blob :=
  Some [ppv.StreamGroup "Basketball"
          [ppv.ApiStream (Some "Bulls vs Knicks") (Some 100300) None
             (Some "https://ppv.to/e/2");
           ppv.ApiStream (Some "Heat vs Nets") (Some 100300) None None];
        ppv.StreamGroup "24/7 Streams"
          [ppv.ApiStream (Some "Sports News") (Some 100000) None
             (Some "https://ppv.to/e/9")]].

Lemma X14_ppv_get_events_wellformed_witness :
  ppv.get_events Time.epoch_to_9999 ppv_blob None 100000 ∅
    = Returned [Event "Basketball" "Bulls vs Knicks" "https://ppv.to/e/2" None 100300 None] /\
  Time.in_window 100000 100300 = true.
Proof.
  assert (ppv.get_events Time.epoch_to_9999 ppv_blob None 100000 ∅
    = Returned [Event "Basketball" "Bulls vs Knicks" "https://ppv.to/e/2" None 100300 None])
    as Hrun by reflexivity.
  split; [exact Hrun|].
  pose proof (X14_ppv_get_events_wellformed _ _ _ _ _ _ Hrun) as Hall.
  inversion Hall as [|ev rest (_ & _ & _ & Hwin & _) _]. exact Hwin.
Defined.

Definition tvg_unknown (sport name : string) : outcome (option string * string) :=
  Returned (None, Leagues.live_img).

Definition ppv_run : outcome unit * adapter_state :=
  ppv_scrape.scrape Time.epoch_to_9999 tvg_unknown 100000 Cache.Missing ∅ ppv_blob None
    (fun _ _ => Returned (Some "https://cdn.example/bulls/index.m3u8")).

Lemma X12_ppv_scrape_cache_in_live_witness :
  fst ppv_run = Returned tt /\
  written (snd ppv_run) = Some (cached_urls (snd ppv_run)) /\
  (forall k e, cached_urls (snd ppv_run) !! k = Some e ->
     urls (snd ppv_run) !! k = Some e) /\
  is_Some (cached_urls (snd ppv_run) !! "[Basketball] Bulls vs Knicks (PPV)").
Proof.
  assert (ppv_run = (Returned tt, snd ppv_run)) as Hrun by reflexivity.
  destruct (X12_ppv_scrape_cache_in_live _ _ _ _ _ _ _ _ _ Hrun) as (Hw & _ & Hsub & _).
  split; [reflexivity|]. split; [exact Hw|]. split; [exact Hsub|].
  vm_compute. by eexists.
Defined.

(** ** The fstv adapter *)

Section fstv_facts.
Context (urljoin : string -> string -> string).

(** The links of the events of a list. *)
Definition links_of (evs : list event) : list string := omap ev_href evs.

(** What discovery guarantees about its result, given the set it started
    with: every event has a link that is not empty, no link was in the set,
    no link comes twice, and the set it leaves is the old one with the
    links added. *)
Definition fresh_links (base_url : string) (S : gset string)
    (res : list event * gset string) : Prop :=
  Forall (fun ev => exists h, ev_href ev = Some h /\ h <> "" /\ h ∉ S /\
                              ev_link ev = urljoin base_url h) (fst res) /\
  NoDup (links_of (fst res)) /\
  snd res = S ∪ list_to_set (links_of (fst res)).

Lemma fresh_links_step (base_url : string) (S : gset string) (h : string)
    (ev : event) (res : list event * gset string) :
  ev_href ev = Some h -> h <> "" -> h ∉ S -> ev_link ev = urljoin base_url h ->
  fresh_links base_url ({[h]} ∪ S) res ->
  fresh_links base_url S (ev :: fst res, snd res).
Proof.
  intros Hev Hne Hnin Hlink (Hall & Hnd & Hset). split; [|split]; simpl.
  - constructor; [by exists h|].
    eapply Forall_impl; [exact Hall|]. intros ev' (h' & ? & ? & ? & ?).
    exists h'. repeat split; try done. set_solver.
  - unfold links_of in *. simpl. rewrite Hev. simpl. constructor; [|done].
    intros Hin. apply list_elem_of_omap in Hin as (ev' & Hin & Hh).
    rewrite Forall_forall in Hall.
    destruct (Hall ev' Hin) as (h' & Hh' & _ & Hnin' & _).
    assert (h' = h) as -> by congruence. set_solver.
  - unfold links_of in *. simpl. rewrite Hev. simpl. set_solver.
Qed.

Lemma fresh_links_app (base_url : string) (S : gset string)
    (r1 r2 : list event * gset string) :
  fresh_links base_url S r1 -> fresh_links base_url (snd r1) r2 ->
  fresh_links base_url S (fst r1 ++ fst r2, snd r2).
Proof.
  intros (Hall1 & Hnd1 & Hset1) (Hall2 & Hnd2 & Hset2). split; [|split]; simpl.
  - apply Forall_app. split; [done|].
    eapply Forall_impl; [exact Hall2|]. intros ev (h & ? & ? & ? & ?).
    exists h. repeat split; try done. set_solver.
  - unfold links_of in *. rewrite omap_app. apply NoDup_app. split; [done|].
    split; [|done]. intros h Hin1 Hin2.
    apply list_elem_of_omap in Hin2 as (ev & Hin2 & Hh).
    rewrite Forall_forall in Hall2.
    destruct (Hall2 ev Hin2) as (h' & Hh' & _ & Hnin & _).
    assert (h' = h) as -> by congruence.
    apply Hnin. rewrite Hset1. apply elem_of_union_r. by apply elem_of_list_to_set.
  - unfold links_of in *. rewrite omap_app, Hset2, Hset1. set_solver.
Qed.

Lemma visit_games_fresh (base_url sport : string) (gs : list (option string))
    (S : gset string) :
  fresh_links base_url S (fstv.visit_games urljoin base_url sport gs S).
Proof.
  revert S. induction gs as [|g gs IH]; intros S; simpl.
  - split; [constructor|]. split; [constructor|]. unfold links_of. simpl. set_solver.
  - destruct g as [[|a r]|]; [apply IH | | apply IH].
    destruct (bool_decide (String a r ∈ S)) eqn:Hin; [apply IH|].
    apply bool_decide_eq_false in Hin. specialize (IH ({[String a r]} ∪ S)).
    destruct (fstv.visit_games urljoin base_url sport gs ({[String a r]} ∪ S))
      as [evs hs].
    change (fresh_links base_url S
      (Event sport "" (urljoin base_url (String a r)) None 0 (Some (String a r))
         :: fst (evs, hs), snd (evs, hs))).
    by apply (fresh_links_step base_url S (String a r)).
Qed.

Lemma visit_blocks_fresh (base_url : string) (bs : list fstv.league_block)
    (S : gset string) :
  fresh_links base_url S (fstv.visit_blocks urljoin base_url bs S).
Proof.
  revert S. induction bs as [|b bs IH]; intros S; simpl.
  - split; [constructor|]. split; [constructor|]. unfold links_of. simpl. set_solver.
  - destruct (fstv.league_name b) as [full_text|]; [|apply IH].
    pose proof (visit_games_fresh base_url (fstv.event_name_of full_text)
                  (fstv.games b) S) as H1.
    destruct (fstv.visit_games _ _ _ _ _) as [evs1 hs1].
    specialize (IH hs1). destruct (fstv.visit_blocks _ _ _ _) as [evs2 hs2].
    apply (fresh_links_app base_url S (evs1, hs1) (evs2, hs2) H1 IH).
Qed.

Lemma get_events_fresh (fetched : option fstv.page) (base_url : string)
    (S : gset string) :
  fresh_links base_url S (fstv.get_events urljoin fetched base_url S).
Proof.
  unfold fstv.get_events. destruct fetched as [wrappers|].
  - apply visit_blocks_fresh.
  - split; [constructor|]. split; [constructor|]. unfold links_of. simpl. set_solver.
Qed.

(** X15.  The events [fstv.get_events] returns carry links that are not
    empty, none of which was in the set handed in and none of which comes
    twice, however often the page lists a match; the set is left with
    exactly these links added; a page that could not be fetched gives no
    event and leaves the set as it was. *)
Theorem X15_fstv_get_events_distinct_links (fetched : option fstv.page)
    (base_url : string) (cached_hrefs : gset string) :
  let res := fstv.get_events urljoin fetched base_url cached_hrefs in
  Forall (fun ev => exists h, ev_href ev = Some h /\ h <> "" /\ h ∉ cached_hrefs /\
                              ev_link ev = urljoin base_url h)
    (fst res) /\
  NoDup (links_of (fst res)) /\
  length (links_of (fst res)) = length (fst res) /\
  snd res = cached_hrefs ∪ list_to_set (links_of (fst res)) /\
  fstv.get_events urljoin None base_url cached_hrefs = ([], cached_hrefs).
Proof.
  intros res.
  destruct (get_events_fresh fetched base_url cached_hrefs) as (Hall & Hnd & Hset).
  fold res in Hall, Hnd, Hset.
  split; [exact Hall|]. split; [exact Hnd|]. split; [|by split].
  clear Hnd Hset. unfold links_of. induction Hall as [|ev evs (h & Hh & _) _ IH]; [done|].
  simpl. rewrite Hh. simpl. f_equal. exact IH.
Qed.

Context (info : string -> option string * string).

Definition has_href (e : entry) : Prop := is_Some (e_href e).

(** The set comprehension over the cached entries raises [KeyError] as soon
    as one entry has no ["href"], and gives a set otherwise. *)
Lemma hrefs_of_cases (m : gmap string entry) :
  (map_Forall (fun _ e => has_href e) m /\ exists hs, fstv.hrefs_of m = Returned hs) \/
  ((exists k e, m !! k = Some e /\ e_href e = None) /\
   fstv.hrefs_of m = Raised (KeyError "href")).
Proof.
  unfold fstv.hrefs_of.
  apply (map_fold_weak_ind (fun r m =>
    (map_Forall (fun _ e => has_href e) m /\ exists hs, r = Returned hs) \/
    ((exists k e, m !! k = Some e /\ e_href e = None) /\ r = Raised (KeyError "href")))).
  - left. split; [apply map_Forall_empty | by eexists].
  - intros k e m' r Hk [[Hall [hs ->]] | [(k' & e' & Hk' & He') ->]]; simpl.
    + destruct (e_href e) as [h|] eqn:Hh.
      * left. split; [|by eexists]. apply map_Forall_insert; [done|].
        split; [by exists h | done].
      * right. split; [|done]. exists k, e. by rewrite lookup_insert_eq.
    + right. split; [|done]. exists k', e'. split; [|done].
      rewrite lookup_insert_ne; [done|]. intros ->. congruence.
Qed.

Lemma fstv_resolve_all_inv (resolve : Z -> event -> option (string * string))
    (base_url : string) (now_ts : Z) (i : Z) (events : list event)
    (st : adapter_state) (r : outcome unit) (st' : adapter_state) :
  Forall (fun ev => is_Some (ev_href ev)) events ->
  fstv.resolve_all info resolve base_url now_ts i events st = (r, st') ->
  written st' = written st /\
  (map_Forall (fun _ e => has_href e) (cached_urls st) ->
   map_Forall (fun _ e => has_href e) (cached_urls st')) /\
  dom (cached_urls st) ⊆ dom (cached_urls st') /\
  ((forall k e, cached_urls st !! k = Some e -> urls st !! k = Some e) ->
   forall k e, cached_urls st' !! k = Some e -> urls st' !! k = Some e) /\
  (forall k e, cached_urls st' !! k = Some e ->
     cached_urls st !! k = Some e \/ truthy (e_url e) = true).
Proof.
  intros Hev. revert i st.
  induction Hev as [|ev rest Hh _ IH]; intros i st; cbn [fstv.resolve_all].
  - intros [= <- <-]. repeat split; auto.
  - destruct (resolve i ev) as [[match_name url]|]; [|intros [= <- <-]; repeat split; auto].
    destruct (truthy (Some url)) eqn:Hurl; [|apply IH].
    intros Hrun. destruct (IH _ _ Hrun) as (Hw & Hall & Hdom & Hsub & Horigin).
    simpl in *. split; [done|]. split; [|split; [|split]].
    + intros Hst. apply Hall. apply map_Forall_insert_2; [exact Hh | done].
    + etrans; [|exact Hdom]. rewrite dom_insert. set_solver.
    + intros Hst. apply Hsub. intros k e. rewrite !lookup_insert_Some.
      intros [[<- <-] | [Hne H]]; [by left | right; auto].
    + intros k e Hk. destruct (Horigin k e Hk) as [H|H]; [|by right].
      apply lookup_insert_Some in H as [[<- <-] | [_ H]]; [right; exact Hurl | by left].
Qed.

(** X16.  The fstv adapter can read back the cache it writes: when every
    entry it loads has an ["href"], collecting the cached links does not
    raise, and a run that returns writes a cache in which every entry has
    an ["href"] again; the keys it loaded are still there, each entry
    written is in the live map [urls] as well, and each entry that is not
    one of the loaded ones has a URL.  When an entry it loads has no
    ["href"], the run raises [KeyError] before it touches anything. *)
Theorem X16_fstv_scrape_cache_round_trip (now_ts : Z) (file : Cache.file_content)
    (urls0 : gmap string entry) (net : string -> nat * Network.response)
    (fetched : option fstv.page) (resolve : Z -> event -> option (string * string)) :
  let cached := Cache.load fstv.exp now_ts file in
  let run := fstv.scrape urljoin info now_ts file urls0 net fetched resolve in
  (map_Forall (fun _ e => has_href e) cached ->
   fst run <> Raised (KeyError "href") /\
   (fst run = Returned tt ->
    exists w,
      written (snd run) = Some w /\
      map_Forall (fun _ e => has_href e) w /\
      dom cached ⊆ dom w /\
      (forall k e, w !! k = Some e -> urls (snd run) !! k = Some e) /\
      (forall k e, w !! k = Some e -> cached !! k = Some e \/ truthy (e_url e) = true))) /\
  ((exists k e, cached !! k = Some e /\ e_href e = None) ->
   run = (Raised (KeyError "href"), AdapterState cached urls0 None)).
Proof.
  intros cached run. subst run. unfold fstv.scrape. fold cached.
  destruct (hrefs_of_cases cached) as [[Hall [hs Hhs]] | [(k & e & Hk & He) Hraise]].
  - split.
    + intros _. rewrite Hhs.
      destruct (Network.get_base net fstv.MIRRORS) as [base_url|].
      * destruct (get_events_fresh fetched base_url hs) as (Hev & _).
        destruct (fstv.get_events urljoin fetched base_url hs) as [events hs'].
        simpl in Hev.
        assert (Forall (fun ev => is_Some (ev_href ev)) events) as Hhref.
        { eapply Forall_impl; [exact Hev|]. intros ev (h & -> & _). by eexists. }
        destruct (fstv.resolve_all _ _ _ _ _ _ _) as [[[]|e1] st1] eqn:Hres; simpl.
        -- destruct (fstv_resolve_all_inv _ _ _ _ _ _ _ _ Hhref Hres)
             as (_ & Hall' & Hdom & Hsub & Horigin). simpl in *.
           split; [done|]. intros _. exists (cached_urls st1).
           split; [done|]. split; [by apply Hall'|]. split; [done|]. split; [|done].
           apply Hsub. intros k e Hk. rewrite dict_update_lookup. by rewrite Hk.
        -- split; [|done]. intros [= ->].
           revert Hres. generalize 1 at 1.
           generalize (AdapterState cached (dict_update urls0 cached) None).
           clear. induction events as [|ev rest IH]; intros st i;
             cbn [fstv.resolve_all]; [done|].
           destruct (resolve i ev) as [[mn url]|]; [|done].
           destruct (truthy (Some url)); apply IH.
      * simpl. split; [done|]. intros _. exists cached.
        split; [done|]. split; [done|]. split; [done|]. split; [|by left].
        intros k e Hk. rewrite dict_update_lookup. by rewrite Hk.
    + intros (k & e & Hk & He). specialize (Hall k e Hk). unfold has_href in Hall.
      rewrite He in Hall. by destruct Hall.
  - split.
    + intros Hall. specialize (Hall k e Hk). unfold has_href in Hall.
      rewrite He in Hall. by destruct Hall.
    + intros _. by rewrite Hraise.
Qed.

End fstv_facts.

(** ** The fstv adapter: the page of a match *)

Section match_page_facts.
Import fstv_page.
Context (unquote : string -> string).

Lemma strip_prefix_app (p s r : string) : strip_prefix p s = Some r -> s = p +:+ r.
Proof.
  revert s. induction p as [|a p IH]; intros s; simpl.
  - by intros [= ->].
  - destruct s as [|b s]; [done|]. destruct (decide (a = b)) as [->|]; [|done].
    intros H. apply IH in H as ->. done.
Qed.

Lemma contains_tail (sep x r : string) :
  contains sep r = true -> contains sep (x +:+ r) = true.
Proof.
  intros H. induction x as [|a x IH]; [done|].
  change (String a x +:+ r) with (String a (x +:+ r)). simpl.
  rewrite IH. apply orb_true_r.
Qed.

(** Nothing is left of the separator in the text after its last
    occurrence. *)
Lemma after_last_sub_free (sep s : string) :
  sep <> "" -> contains sep (after_last_sub sep s) = false.
Proof.
  intros Hsep. induction s as [|a s IH]; cbn [after_last_sub].
  - destruct sep; [done|]. done.
  - destruct (contains sep s) eqn:Hc; [exact IH|].
    destruct (strip_prefix sep (String a s)) as [r|] eqn:Hp.
    + destruct sep as [|b sep]; [done|]. simpl in Hp.
      destruct (decide (b = a)) as [->|]; [|done].
      apply strip_prefix_app in Hp. subst s.
      destruct (contains (String a sep) r) eqn:Hr; [|done].
      by rewrite (contains_tail _ sep r Hr) in Hc.
    + simpl. unfold starts_with. by rewrite Hp, Hc.
Qed.

(** X17.  [fstv.process_event] returns the pair of two empty texts when the
    request fails or the page has no [iframe]; it falls off its end, so
    returns [None] instead of a pair, exactly when the page has an [iframe]
    whose [src] is missing or empty and nothing was raised before; it raises
    nothing but [AttributeError], and that only when it turns to an
    [og:title] element whose ["content"] has no value; and the link of a
    pair it returns holds no [link=] any more. *)
Theorem X17_fstv_process_event_outcome (fetched : option match_page) :
  let run := process_event unquote fetched in
  (fetched = None -> run = Returned (Some ("", ""))) /\
  (forall soup, fetched = Some soup -> iframe soup = None ->
     og_title soup <> Some None -> run = Returned (Some ("", ""))) /\
  (run = Returned None <->
   exists soup src,
     fetched = Some soup /\ iframe soup = Some src /\ truthy src = false /\
     (og_title soup = Some None ->
      truthy (last (category_links soup)) = true /\
      lower (default "" (last (category_links soup))) <> "vs")) /\
  (forall e, run = Raised e ->
     e = AttributeError /\ exists soup, fetched = Some soup /\ og_title soup = Some None) /\
  (forall name link, run = Returned (Some (name, link)) ->
     contains "link=" link = false).
Proof.
  intros run. subst run. unfold process_event.
  destruct fetched as [soup|].
  2:{ split; [done|]. split; [done|]. split.
      - split; [done | by intros (? & ? & ? & _)].
      - split; [done|]. by intros name link [= <- <-]. }
  split; [done|].
  set (name0 := last (category_links soup)).
  destruct (negb (truthy name0) || bool_decide (lower (default "" name0) = "vs")) eqn:Hturn.
  - destruct (og_title soup) as [[content|]|] eqn:Hog; cbn [bind_outcome].
    + split.
      { intros s [= <-] Hif _. by rewrite Hif. }
      split; [|split].
      * split.
        -- destruct (iframe soup) as [src|] eqn:Hif; [|done].
           destruct (truthy src) eqn:Hsrc; [done|]. intros _.
           exists soup, src. rewrite Hog. by repeat split.
        -- intros (s & src & [= <-] & Hif & Hsrc & _). by rewrite Hif, Hsrc.
      * intros e. destruct (iframe soup) as [src|]; [|done]. by destruct (truthy src).
      * intros name link. destruct (iframe soup) as [src|]; [|by intros [= <- <-]].
        destruct (truthy src); [|done]. intros [= <- <-].
        by apply after_last_sub_free.
    + split.
      { intros s [= <-] _ H. done. }
      split; [|split].
      * split; [done|]. intros (s & src & [= <-] & Hif & Hsrc & Hname).
        destruct (Hname Hog) as [Ht Hvs]. fold name0 in Ht, Hvs.
        rewrite Ht in Hturn. simpl in Hturn.
        apply bool_decide_eq_true in Hturn. done.
      * intros e [= <-]. split; [done|]. by exists soup.
      * done.
    + split.
      { intros s [= <-] Hif _. by rewrite Hif. }
      split; [|split].
      * split.
        -- destruct (iframe soup) as [src|] eqn:Hif; [|done].
           destruct (truthy src) eqn:Hsrc; [done|]. intros _.
           exists soup, src. rewrite Hog. by repeat split.
        -- intros (s & src & [= <-] & Hif & Hsrc & _). by rewrite Hif, Hsrc.
      * intros e. destruct (iframe soup) as [src|]; [|done]. by destruct (truthy src).
      * intros name link. destruct (iframe soup) as [src|]; [|by intros [= <- <-]].
        destruct (truthy src); [|done]. intros [= <- <-].
        by apply after_last_sub_free.
  - cbn [bind_outcome]. apply orb_false_iff in Hturn as [Ht Hvs].
    apply negb_false_iff in Ht. apply bool_decide_eq_false in Hvs.
    split.
    { intros s [= <-] Hif _. by rewrite Hif. }
    split; [|split].
    * split.
      -- destruct (iframe soup) as [src|] eqn:Hif; [|done].
         destruct (truthy src) eqn:Hsrc; [done|]. intros _.
         exists soup, src. by repeat split.
      -- intros (s & src & [= <-] & Hif & Hsrc & _). by rewrite Hif, Hsrc.
    * intros e. destruct (iframe soup) as [src|]; [|done]. by destruct (truthy src).
    * intros name link. destruct (iframe soup) as [src|]; [|by intros [= <- <-]].
      destruct (truthy src); [|done]. intros [= <- <-].
      by apply after_last_sub_free.
Qed.

End match_page_facts.

(** ** The watchfooty adapter: the API blob *)

Section refresh_facts.
Import watchfooty.

(** A match of the blob as the renaming loop leaves it. *)
Definition renamed (ev : raw_match) (t : Z) : api_match :=
  ApiMatch (r_matchId ev) (r_title ev) (r_league ev) (Some t) (r_poster ev) None.

Lemma rename_timestamps_cases (data : list raw_match) :
  (Exists (fun ev => r_timestamp ev = None) data /\
   rename_timestamps data = Raised (KeyError "timestamp")) \/
  (exists l, rename_timestamps data = Returned l /\
     Forall2 (fun ev m => exists t, r_timestamp ev = Some t /\ m = renamed ev t) data l).
Proof.
  induction data as [|ev rest IH]; simpl.
  - right. exists []. by split.
  - destruct (r_timestamp ev) as [t|] eqn:Ht.
    + destruct IH as [[Hex ->] | (l & -> & Hl)]; simpl.
      * left. split; [by right | done].
      * right. eexists. split; [done|]. constructor; [by exists t | done].
    + left. split; [by left | done].
Qed.

Lemma stamp_last_cases (now_ts : Z) (data : list api_match) :
  match data with
  | [] => stamp_last now_ts data = Raised IndexError
  | _ :: _ =>
      exists init m,
        data = init ++ [m] /\
        stamp_last now_ts data =
          Returned (init ++ [ApiMatch (matchId m) (title m) (league m) (ts m)
                               (poster m) (Some now_ts)])
  end.
Proof.
  induction data as [|m rest IH]; [done|].
  destruct rest as [|m' rest'].
  - by exists [], m.
  - destruct IH as (init & m0 & Hd & Hs). exists (m :: init), m0.
    split; [by rewrite Hd|].
    change (stamp_last now_ts (m :: m' :: rest'))
      with (bind_outcome (stamp_last now_ts (m' :: rest')) (fun r => Returned (m :: r))).
    by rewrite Hs.
Qed.

(** X18.  [refresh_api_cache] raises [KeyError] when some match returned by
    an endpoint has no ["timestamp"], whatever else there is; otherwise it
    raises [IndexError] when the endpoints returned no match at all; and
    otherwise it returns the matches of all endpoints, in the order of the
    endpoints, each with its time stamp moved to ["ts"] and the other fields
    as they were, the last one, and only it, stamped with the time of the
    refresh. *)
Theorem X18_refresh_api_cache_outcome (results : list (list raw_match)) (now_ts : Z) :
  let data := concat results in
  (Exists (fun ev => r_timestamp ev = None) data ->
   refresh_api_cache results now_ts = Raised (KeyError "timestamp")) /\
  (data = [] -> refresh_api_cache results now_ts = Raised IndexError) /\
  (Forall (fun ev => is_Some (r_timestamp ev)) data -> data <> [] ->
   exists l,
     refresh_api_cache results now_ts = Returned l /\
     map matchId l = map r_matchId data /\
     map title l = map r_title data /\
     map league l = map r_league data /\
     map poster l = map r_poster data /\
     map ts l = map r_timestamp data /\
     map blob_timestamp l = replicate (length data - 1) None ++ [Some now_ts]).
Proof.
  intros data. unfold refresh_api_cache. fold data.
  destruct (rename_timestamps_cases data) as [[Hex Hr] | (l & Hr & Hl)]; rewrite Hr; simpl.
  - split; [done|]. split.
    + intros Hd. rewrite Hd in Hex. by apply Exists_nil in Hex.
    + intros Hall. exfalso. apply Exists_exists in Hex as (ev & Hin & Hnone).
      rewrite Forall_forall in Hall. destruct (Hall ev Hin) as [t Ht]. congruence.
  - split; [|split].
    + intros Hex. exfalso. apply Exists_exists in Hex as (ev & Hin & Hnone).
      apply list_elem_of_lookup in Hin as [i Hi].
      destruct (Forall2_lookup_l _ _ _ _ _ Hl Hi) as (m & _ & t & Ht & _). congruence.
    + intros Hd. rewrite Hd in Hl. apply Forall2_nil_inv_l in Hl as ->. done.
    + intros _ Hne.
      assert (map matchId l = map r_matchId data /\ map title l = map r_title data /\
              map league l = map r_league data /\ map poster l = map r_poster data /\
              map ts l = map r_timestamp data /\
              map blob_timestamp l = replicate (length data) None) as Hfields.
      { clear Hr Hne. induction Hl as [|ev m d l' (t & Ht & ->) _ IH]; [done|].
        destruct IH as (IH1 & IH2 & IH3 & IH4 & IH5 & IH6). simpl.
        by rewrite IH1, IH2, IH3, IH4, IH5, IH6, Ht. }
      destruct Hfields as (H1 & H2 & H3 & H4 & H5 & H6).
      pose proof (Forall2_length _ _ _ Hl) as Hlen.
      pose proof (stamp_last_cases now_ts l) as Hs.
      destruct l as [|m0 l0]; [destruct data; done|].
      destruct Hs as (init & m & Hd & ->). eexists. split; [done|].
      rewrite Hd in H1, H2, H3, H4, H5, H6, Hlen.
      rewrite !map_app in *. simpl in *.
      rewrite <- H1, <- H2, <- H3, <- H4, <- H5. repeat split; try done.
      rewrite length_app in Hlen. simpl in Hlen.
      replace (length data - 1)%nat with (length init) by lia.
      replace (length data) with (S (length init)) in H6 by lia.
      rewrite replicate_S_end in H6. apply app_inj_tail in H6 as [-> _]. done.
Qed.

End refresh_facts.

(** ** Texts of integers *)

Section decimal_facts.

Lemma string_app_assoc (a b c : string) : (a +:+ b) +:+ c = a +:+ (b +:+ c).
Proof.
  induction a as [|x a IH]; [done|].
  change (String x ((a +:+ b) +:+ c) = String x (a +:+ (b +:+ c))). by rewrite IH.
Qed.

Lemma string_length_app (a b : string) :
  String.length (a +:+ b) = (String.length a + String.length b)%nat.
Proof.
  induction a as [|x a IH]; [done|].
  change (S (String.length (a +:+ b)) = S (String.length a + String.length b)).
  by rewrite IH.
Qed.

Lemma substring_prefix (a b : string) :
  String.substring 0 (String.length a) (a +:+ b) = a.
Proof.
  induction a as [|x a IH]; [by destruct b|].
  change (String x (String.substring 0 (String.length a) (a +:+ b)) = String x a).
  by rewrite IH.
Qed.

Lemma drop_end_app (a b : string) :
  drop_end (String.length b) (a +:+ b) = a.
Proof.
  unfold drop_end. rewrite string_length_app.
  replace (String.length a + String.length b - String.length b)%nat
    with (String.length a) by lia.
  apply substring_prefix.
Qed.

Lemma drop_end_short (n : nat) (s : string) :
  (String.length s <= n)%nat -> drop_end n s = "".
Proof.
  intros H. unfold drop_end. replace (String.length s - n)%nat with 0%nat by lia.
  by destruct s.
Qed.

Lemma pretty_N_go_app (x : N) (s : string) :
  pretty_N_go x s = pretty_N_go x "" +:+ s.
Proof.
  revert s. induction (N.lt_wf_0 x) as [x _ IH]; intros s.
  destruct (decide (x = 0%N)) as [->|Hx]; [done|].
  rewrite (pretty_N_go_step x s), (pretty_N_go_step x "") by lia.
  rewrite (IH (x `div` 10)%N) by (apply N.div_lt; lia).
  rewrite (IH (x `div` 10)%N ltac:(apply N.div_lt; lia) (String _ "")).
  by rewrite string_app_assoc.
Qed.

Lemma is_nat_pretty_N_char (m : N) :
  (m < 10)%N -> Ascii.is_nat (pretty_N_char m) = Some (N.to_nat m).
Proof.
  intros H.
  assert (m = 0 \/ m = 1 \/ m = 2 \/ m = 3 \/ m = 4 \/ m = 5 \/ m = 6 \/ m = 7 \/
          m = 8 \/ m = 9)%N as Hm by lia.
  repeat (destruct Hm as [-> | Hm]; [done|]). by subst.
Qed.

(** Reading the digits of a printed number gives the number back. *)
Lemma take_digits_pretty (x : N) :
  (0 < x)%N ->
  exists k d, forall a n s,
    take_digits a n (pretty_N_go x s)
      = take_digits (a * k + Z.of_N x) (S (n + d)) s.
Proof.
  induction (N.lt_wf_0 x) as [x _ IH]; intros Hx.
  pose proof (N.mod_lt x 10 ltac:(lia)) as Hmod.
  pose proof (N.div_mod x 10 ltac:(lia)) as Hdm.
  destruct (decide (x `div` 10 = 0)%N) as [Hz|Hnz].
  - exists 10, 0%nat. intros a n s.
    rewrite pretty_N_go_step by done. rewrite Hz, pretty_N_go_0. simpl.
    rewrite is_nat_pretty_N_char by done. rewrite N_nat_Z.
    f_equal; lia.
  - destruct (IH (x `div` 10)%N) as (k & d & Hk); [apply N.div_lt; lia | lia |].
    exists (10 * k), (S d). intros a n s.
    rewrite pretty_N_go_step by done. rewrite Hk. simpl.
    rewrite is_nat_pretty_N_char by done. rewrite N_nat_Z.
    f_equal; lia.
Qed.

Lemma digits_value_pretty (x : N) :
  (0 < x)%N -> digits_value (pretty_N_go x "") = Some (Z.of_N x).
Proof.
  intros Hx. destruct (take_digits_pretty x Hx) as (k & d & H).
  unfold digits_value. rewrite H. simpl. done.
Qed.

Lemma int_of_str_digits (s : string) (v : Z) :
  digits_value s = Some v -> int_of_str s = Returned v.
Proof.
  intros H. unfold int_of_str. destruct s as [|a r]; [done|].
  destruct (decide (a = "-"%char)) as [->|]; [done|]. by rewrite H.
Qed.

(** A number of four digits or more is printed as its thousands followed
    by three digits. *)
Lemma pretty_N_go_thousands (x : N) :
  (1000 <= x)%N ->
  exists low, String.length low = 3%nat /\
    pretty_N_go x "" = pretty_N_go (x `div` 1000) "" +:+ low.
Proof.
  intros Hx.
  assert (0 < x `div` 10)%N by (apply N.div_str_pos; lia).
  assert (0 < x `div` 10 `div` 10)%N.
  { rewrite N.Div0.div_div. apply N.div_str_pos; lia. }
  rewrite pretty_N_go_step by lia.
  rewrite pretty_N_go_step by lia.
  rewrite pretty_N_go_step by lia.
  rewrite !N.Div0.div_div. change (10 * 10 * 10)%N with 1000%N.
  rewrite pretty_N_go_app. eexists. split; [|reflexivity]. done.
Qed.

Lemma pretty_N_go_short (x : N) :
  (x < 1000)%N -> (String.length (pretty_N_go x "") <= 3)%nat.
Proof.
  intros Hx.
  destruct (decide (x = 0%N)) as [->|H0]; [simpl; lia|].
  rewrite pretty_N_go_step by lia.
  destruct (decide (x `div` 10 = 0)%N) as [->|H1]; [simpl; lia|].
  rewrite pretty_N_go_step by (by apply N.neq_0_lt_0).
  destruct (decide (x `div` 10 `div` 10 = 0)%N) as [->|H2]; [simpl; lia|].
  rewrite pretty_N_go_step by (by apply N.neq_0_lt_0).
  assert (x `div` 10 `div` 10 `div` 10 = 0)%N as ->.
  { rewrite !N.Div0.div_div. apply N.div_small. lia. }
  simpl. lia.
Qed.

Lemma pretty_N_go_pos_length (x : N) :
  (0 < x)%N -> (1 <= String.length (pretty_N_go x ""))%nat.
Proof.
  intros Hx. rewrite pretty_N_go_step by done. rewrite pretty_N_go_app.
  rewrite string_length_app. simpl. lia.
Qed.

(** X19.  The start of a match is read off the text of its time stamp in
    milliseconds, the last three characters being dropped: for a time stamp
    of at least 1000 this is the time stamp divided by 1000, rounded down;
    for one of at most -1000 the quotient rounded towards zero; for any
    other one, and so for each positive one below 1000, the text left is
    empty or a lone sign and [int] raises [ValueError]. *)
Theorem X19_drop_millis_by_text (ts : Z) :
  drop_millis_text ts = drop_millis ts /\
  (1000 <= ts -> drop_millis_text ts = Returned (ts / 1000)) /\
  (-1000 < ts < 1000 -> drop_millis_text ts = Raised ValueError) /\
  (ts <= -1000 -> drop_millis_text ts = Returned (- (- ts / 1000))).
Proof.
  assert (drop_millis_text ts = drop_millis ts) as Heq.
  { unfold drop_millis_text, drop_millis. destruct ts as [|p|p].
    - done.
    - change (pretty (Z.pos p)) with (pretty_N_go (N.pos p) "").
      destruct (1000 <=? Z.pos p) eqn:Hp.
      + apply Z.leb_le in Hp.
        destruct (pretty_N_go_thousands (N.pos p)) as (low & Hlow & ->); [lia|].
        rewrite <- Hlow, drop_end_app.
        rewrite (int_of_str_digits _ (Z.of_N (N.pos p `div` 1000))).
        * f_equal. rewrite N2Z.inj_div. done.
        * apply digits_value_pretty. apply N.div_str_pos. lia.
      + apply Z.leb_gt in Hp. rewrite drop_end_short; [done|].
        apply pretty_N_go_short. lia.
    - change (pretty (Z.neg p)) with (String "-"%char (pretty_N_go (N.pos p) "")).
      change (1000 <=? Z.neg p) with false. cbv iota.
      destruct (Z.neg p <=? -1000) eqn:Hp.
      + apply Z.leb_le in Hp.
        destruct (pretty_N_go_thousands (N.pos p)) as (low & Hlow & ->); [lia|].
        change (String "-"%char (pretty_N_go (N.pos p `div` 1000) "" +:+ low))
          with (String "-"%char (pretty_N_go (N.pos p `div` 1000) "") +:+ low).
        rewrite <- Hlow, drop_end_app. unfold int_of_str.
        rewrite decide_True by done.
        rewrite digits_value_pretty by (apply N.div_str_pos; lia).
        f_equal. rewrite N2Z.inj_div.
        change (Z.neg p) with (- Z.pos p). rewrite Z.quot_opp_l by lia.
        rewrite Z.quot_div_nonneg by lia. done.
      + apply Z.leb_gt in Hp.
        pose proof (pretty_N_go_short (N.pos p) ltac:(lia)) as Hlen.
        pose proof (pretty_N_go_pos_length (N.pos p) ltac:(lia)) as Hpos.
        unfold drop_end. simpl String.length.
        destruct (String.length (pretty_N_go (N.pos p) "")) as [|[|[|[|n]]]] eqn:Hl;
          try lia; try done.
        simpl. by destruct (pretty_N_go (N.pos p) ""). }
  split; [exact Heq|]. rewrite Heq. unfold drop_millis. split; [|split].
  - intros H. by rewrite (proj2 (Z.leb_le _ _) H).
  - intros H. rewrite (proj2 (Z.leb_gt _ _)) by lia.
    by rewrite (proj2 (Z.leb_gt _ _)) by lia.
  - intros H. rewrite (proj2 (Z.leb_gt _ _)) by lia.
    rewrite (proj2 (Z.leb_le _ _) H). f_equal.
    replace ts with (- (- ts)) at 1 by lia. rewrite Z.quot_opp_l by lia.
    rewrite Z.quot_div_nonneg by lia. done.
Qed.

End decimal_facts.

(** ** The aggregator: what the merge emits *)

Section merge_output.
Import fetch.















End merge_output.



(** ** The watchfooty adapter: the sport of a league *)

Section sport_facts.

(** Every character of [s] satisfies [p]. *)
Fixpoint str_all (p : ascii -> bool) (s : string) : bool :=
  match s with
  | EmptyString => true
  | String a s' => p a && str_all p s'
  end.

Lemma str_all_rev_app (p : ascii -> bool) (s1 s2 : string) :
  str_all p (String.rev_app s1 s2) = str_all p s1 && str_all p s2.
Proof.
  revert s2. induction s1 as [|a s1 IH]; intros s2; simpl; [done|].
  rewrite IH. simpl. destruct (p a), (str_all p s1); simpl; try done.
Qed.

Lemma str_all_rev (p : ascii -> bool) (s : string) :
  str_all p (String.rev s) = str_all p s.
Proof. unfold String.rev. rewrite str_all_rev_app. simpl. by rewrite andb_true_r. Qed.

Lemma str_all_lstrip (p : ascii -> bool) (s : string) :
  str_all p s = true -> str_all p (lstrip s) = true.
Proof.
  induction s as [|a s IH]; simpl; [done|]. intros H.
  apply andb_true_iff in H as [Ha Hs].
  destruct (Ascii.is_space a); [by apply IH|]. simpl. by rewrite Ha, Hs.
Qed.

Lemma str_all_strip (p : ascii -> bool) (s : string) :
  str_all p s = true -> str_all p (strip s) = true.
Proof.
  intros H. unfold strip. rewrite str_all_rev. apply str_all_lstrip.
  rewrite str_all_rev. by apply str_all_lstrip.
Qed.

(** Neither a dash nor an opening parenthesis. *)
Definition plain_char (a : ascii) : bool :=
  negb (bool_decide (a = "-"%char)) && negb (bool_decide (a = "("%char)).

Lemma before_dash_or_paren_plain (s : string) :
  str_all plain_char (before_dash_or_paren s) = true.
Proof.
  induction s as [|a s IH]; simpl; [done|].
  destruct (decide (a = "-"%char)) as [|H1]; [done|].
  destruct (decide (a = "("%char)) as [|H2]; [done|].
  simpl. rewrite IH. unfold plain_char.
  by rewrite !bool_decide_eq_false_2.
Qed.

Lemma before_dash_or_paren_app (s t : string) (c : ascii) :
  str_all plain_char s = true -> plain_char c = false ->
  before_dash_or_paren (s +:+ String c t) = s.
Proof.
  intros Hs Hc. induction s as [|a s IH].
  - change ("" +:+ String c t) with (String c t). simpl.
    unfold plain_char in Hc. destruct (decide (c = "-"%char)) as [|H1]; [done|].
    destruct (decide (c = "("%char)) as [|H2]; [done|].
    by rewrite !bool_decide_eq_false_2 in Hc.
  - change (String a s +:+ String c t) with (String a (s +:+ String c t)).
    simpl in *. apply andb_true_iff in Hs as [Ha Hs]. unfold plain_char in Ha.
    apply andb_true_iff in Ha as [H1 H2].
    apply negb_true_iff, bool_decide_eq_false in H1, H2.
    rewrite !decide_False by done. by rewrite IH.
Qed.

Lemma before_dash_or_paren_id (s : string) :
  str_all plain_char s = true -> before_dash_or_paren s = s.
Proof.
  induction s as [|a s IH]; simpl; [done|]. intros H.
  apply andb_true_iff in H as [Ha Hs]. unfold plain_char in Ha.
  apply andb_true_iff in Ha as [H1 H2].
  apply negb_true_iff, bool_decide_eq_false in H1, H2.
  rewrite !decide_False by done. by rewrite IH.
Qed.

(** X20.  The sport of a match is what its league says before the first
    dash or opening parenthesis, without the white space around it: it
    holds neither of the two characters, whatever follows the first of them
    plays no role, and a league without them is its own sport, up to the
    white space around it.  So the leagues of one sport that differ in what
    follows the dash or the parenthesis are keyed under the same sport. *)
Theorem X20_sport_is_league_prefix (league s t : string) (c : ascii) :
  str_all plain_char (watchfooty.sport_of league) = true /\
  (str_all plain_char s = true -> plain_char c = false ->
   watchfooty.sport_of (s +:+ String c t) = strip s) /\
  (str_all plain_char league = true -> watchfooty.sport_of league = strip league) /\
  watchfooty.sport_of "NBA - Regular Season" = watchfooty.sport_of "NBA (Playoffs)".
Proof.
  unfold watchfooty.sport_of. split; [|split; [|split]].
  - apply str_all_strip, before_dash_or_paren_plain.
  - intros Hs Hc. by rewrite before_dash_or_paren_app.
  - intros H. by rewrite before_dash_or_paren_id.
  - reflexivity.
Qed.

End sport_facts.

(** ** The watchfooty adapter: pages without stream links *)

Section no_links.
Import Network asyncio.

(** X21.  When the header of the page announces no stream link (a count of
    zero, or no count in parentheses at all), [watchfooty.process_event]
    returns [None] after the warning, without creating the task that waits
    for a capture: the page is opened, the handler installed, the page
    loaded and the header read, then the handler is removed and the page
    closed. *)
Theorem X21_no_stream_links_no_wait (fl : flavour) (env : page_env) (d : nat)
    (text : string) (url_num : Z) (w : world) :
  new_page_res env = Returned tt -> goto_res env = Returned tt ->
  close_res env = Returned tt ->
  match search_count text with Some n => n = 0 | None => True end ->
  watchfooty.process_event fl env (d, Returned text) url_num w =
    Some (Returned None,
          World (clock w + goto_time env + d)
                (logs w ++ [LogRecord WARNING (watchfooty.no_links_msg url_num)])
                (trace w ++ [NewPage; On; Goto; WaitForSelector; RemoveListener; Close])).
Proof.
  intros Hn Hg Hc Hcount. unfold watchfooty.process_event, watchfooty.read_header, teardown.
  rewrite Hn, Hg, Hc.
  assert (match search_count text with Some n => n =? 0 | None => true end = true) as Hz.
  { destruct (search_count text) as [n|]; [|done]. subst. done. }
  unfold bind, of_outcome, emit, now, try_finally, try_except, tick, ret, log_call.
  cbn -[search_count]. rewrite Hz. cbn. rewrite <- !app_assoc. done.
Qed.

End no_links.

Definition page_plain : Network.page_env :=
  Network.PageEnv (Returned tt) 400 (Returned tt)
    [(100%nat, "https://cdn.example/live/index.m3u8")] None (Returned tt).

Lemma X21_no_stream_links_no_wait_witness :
  exists w',
    watchfooty.process_event asyncio.CancelAndWait page_plain
      (250%nat, Returned "Stream Links (0)") 3 world0 = Some (Returned None, w') /\
    count_occ op_eq_dec (trace w') TaskCreate = 0%nat /\
    clock w' = 650%nat.
Proof.
  eexists. split.
  - apply (X21_no_stream_links_no_wait asyncio.CancelAndWait page_plain 250
             "Stream Links (0)" 3 world0); reflexivity.
  - split; reflexivity.
Defined.

(** ** The watchfooty adapter: discovery *)

Section wfty_discovery.
Context (out_of_range : Z -> option exn).
Context (urljoin : string -> string -> string).






Local Abbreviation visit := (watchfooty.visit out_of_range urljoin).




End wfty_discovery.

(** A start in the year 31690708: the stamp is long enough, and the
    conversion of the start raises. *)
Example get_events_far_stamp :
  watchfooty.get_events Time.epoch_to_9999 plain_urljoin
    [watchfooty.ApiMatch "7" "Lakers vs Celtics" "NBA" (Some 1000000000000000000) None
       (Some 99500)]
    (Raised IndexError) "https://www.watchfooty.cc" 100000 ∅
  = Raised ValueError.
Proof. reflexivity. Qed.

(** ** The lotus adapter: league names *)

Section case_facts.

Lemma upper_lower_ascii (c : ascii) : upper_ascii (lower_ascii c) = upper_ascii c.
Proof. destruct c as [[] [] [] [] [] [] [] []]; reflexivity. Qed.

Lemma lower_ascii_idem (c : ascii) : lower_ascii (lower_ascii c) = lower_ascii c.
Proof. destruct c as [[] [] [] [] [] [] [] []]; reflexivity. Qed.

Lemma is_space_lower_ascii (c : ascii) :
  Ascii.is_space (lower_ascii c) = Ascii.is_space c.
Proof. destruct c as [[] [] [] [] [] [] [] []]; reflexivity. Qed.

Lemma upper_lower (s : string) : upper (lower s) = upper s.
Proof. induction s as [|c s IH]; simpl; [done|]. by rewrite upper_lower_ascii, IH. Qed.

Lemma lower_idem (s : string) : lower (lower s) = lower s.
Proof. induction s as [|c s IH]; simpl; [done|]. by rewrite lower_ascii_idem, IH. Qed.

Lemma length_lower (s : string) : String.length (lower s) = String.length s.
Proof. induction s as [|c s IH]; simpl; [done|]. by rewrite IH. Qed.

Lemma length_upper (s : string) : String.length (upper s) = String.length s.
Proof. induction s as [|c s IH]; simpl; [done|]. by rewrite IH. Qed.

Lemma lower_rev_app (s1 s2 : string) :
  lower (String.rev_app s1 s2) = String.rev_app (lower s1) (lower s2).
Proof. revert s2. induction s1 as [|a s1 IH]; intros s2; simpl; [done|]. by rewrite IH. Qed.

Lemma words_go_lower (cur : option string) (s : string) :
  String.words_go (lower <$> cur) (lower s) = map lower (String.words_go cur s).
Proof.
  revert cur. induction s as [|a s IH]; intros cur; simpl.
  - destruct cur as [c|]; simpl; [|done]. unfold String.rev. by rewrite lower_rev_app.
  - rewrite is_space_lower_ascii. destruct (Ascii.is_space a).
    + rewrite map_app. rewrite <- (IH None). f_equal.
      destruct cur as [c|]; simpl; [|done]. unfold String.rev. by rewrite lower_rev_app.
    + rewrite <- IH. f_equal. by destruct cur.
Qed.

Lemma words_lower (s : string) : String.words (lower s) = map lower (String.words s).
Proof. exact (words_go_lower None s). Qed.

Definition not_space (a : ascii) : bool := negb (Ascii.is_space a).

(** A word: it is not empty and holds no white space. *)
Definition is_word (x : string) : Prop := x <> "" /\ str_all not_space x = true.

Lemma rev_app_empty (s1 s2 : string) : String.rev_app s1 s2 = "" -> s1 = "" /\ s2 = "".
Proof.
  revert s2. induction s1 as [|a s1 IH]; intros s2; simpl; [done|].
  intros H. by apply IH in H as [_ ?].
Qed.

Lemma is_word_rev (x : string) : is_word x -> is_word (String.rev x).
Proof.
  intros [Hne Hall]. split; [|by rewrite str_all_rev].
  intros H. by apply rev_app_empty in H as [? _].
Qed.

Lemma words_go_words (cur : option string) (s : string) :
  (forall c, cur = Some c -> is_word c) ->
  Forall is_word (String.words_go cur s).
Proof.
  revert cur. induction s as [|a s IH]; intros cur Hcur; simpl.
  - destruct cur as [c|]; simpl; [|constructor].
    constructor; [|constructor]. by apply is_word_rev, Hcur.
  - destruct (Ascii.is_space a) eqn:Ha.
    + apply Forall_app. split; [|by apply IH].
      destruct cur as [c|]; simpl; [|constructor].
      constructor; [|constructor]. by apply is_word_rev, Hcur.
    + apply IH. intros c [= <-]. destruct cur as [c|]; simpl.
      * destruct (Hcur c eq_refl) as [_ Hall]. split; [done|].
        simpl. unfold not_space at 1. by rewrite Ha, Hall.
      * split; [done|]. simpl. unfold not_space. by rewrite Ha.
Qed.

Lemma capitalize_word (x : string) : is_word x -> is_word (capitalize x).
Proof.
  intros [Hne Hall]. destruct x as [|a r]; [done|]. split; [done|].
  simpl in *. apply andb_true_iff in Hall as [Ha Hr].
  assert (forall c, not_space c = true -> not_space (upper_ascii c) = true) as Hup.
  { intros c. unfold not_space. destruct c as [[] [] [] [] [] [] [] []]; done. }
  assert (forall c, not_space c = true -> not_space (lower_ascii c) = true) as Hlow.
  { intros c. unfold not_space. by rewrite is_space_lower_ascii. }
  rewrite (Hup a Ha). simpl. clear Ha Hne. induction r as [|b r IH]; [done|].
  simpl in *. apply andb_true_iff in Hr as [Hb Hr]. by rewrite (Hlow b Hb), IH.
Qed.

Lemma capitalize_lower (x : string) : capitalize (lower x) = capitalize x.
Proof. destruct x as [|a r]; simpl; [done|]. by rewrite upper_lower_ascii, lower_idem. Qed.

Lemma ascii_text_lower (s : string) : ascii_text s = true -> ascii_text (lower s) = true.
Proof.
  induction s as [|a s IH]; [done|]. simpl. intros [Ha Hs]%andb_true_iff.
  rewrite (IH Hs), andb_true_r. clear -Ha.
  destruct a as [[] [] [] [] [] [] [] []]; done.
Qed.

Lemma ascii_text_rev_app (s1 s2 : string) :
  ascii_text (String.rev_app s1 s2) = ascii_text s1 && ascii_text s2.
Proof.
  revert s2. induction s1 as [|a s1 IH]; intros s2; simpl; [done|].
  rewrite IH. simpl. by destruct (ascii_char a), (ascii_text s1).
Qed.

(** The words of a text of ASCII are texts of ASCII. *)
Lemma words_go_ascii (cur : option string) (s : string) :
  (forall c, cur = Some c -> ascii_text c = true) -> ascii_text s = true ->
  Forall (fun x => ascii_text x = true) (String.words_go cur s).
Proof.
  revert cur. induction s as [|a s IH]; intros cur Hcur Hs; simpl.
  - destruct cur as [c|]; simpl; [|constructor].
    constructor; [|constructor]. unfold String.rev. rewrite ascii_text_rev_app.
    by rewrite (Hcur c eq_refl).
  - simpl in Hs. apply andb_true_iff in Hs as [Ha Hs].
    destruct (Ascii.is_space a).
    + apply Forall_app. split; [|by apply IH].
      destruct cur as [c|]; simpl; [|constructor].
      constructor; [|constructor]. unfold String.rev. rewrite ascii_text_rev_app.
      by rewrite (Hcur c eq_refl).
    + apply IH; [|done]. intros c [= <-]. destruct cur as [c|]; simpl.
      * by rewrite Ha, (Hcur c eq_refl).
      * by rewrite Ha.
Qed.

(** On a text of ASCII the function is the one written with the methods
    of ASCII. *)
Lemma fix_league_on_ascii (py : str_methods) (s : string) :
  on_ascii py -> ascii_text s = true ->
  fix_league py s = fix_league ascii_methods s.
Proof.
  intros Hpy Hs. destruct (Hpy s Hs) as (Hlen & Hup & _ & Hsplit).
  unfold fix_league. rewrite Hlen, Hup, Hsplit. simpl.
  destruct (5 <? String.length s)%nat; [|done]. f_equal.
  apply Forall_fmap_ext_1. eapply Forall_impl; [by apply (words_go_ascii None)|].
  intros x Hx. by destruct (Hpy x Hx) as (_ & _ & -> & _).
Qed.

(** X23.  On a league name made of printable characters and white space of
    ASCII, where the methods of [str] are those of ASCII, [fix_league] does
    not depend on the letter case of the name.  A name of at most five
    characters comes out in capitals, with its length; a longer one comes
    out as its words joined by single spaces, each word with its first
    letter in capitals and the others in small letters, none of them empty
    or holding white space: white space at the ends of the name and runs of
    it between the words are gone. *)
Theorem X23_fix_league_ignores_case (py : str_methods) (s : string) :
  on_ascii py -> ascii_text s = true ->
  fix_league py (lower s) = fix_league py s /\
  ((String.length s <= 5)%nat ->
   fix_league py s = upper s /\ String.length (fix_league py s) = String.length s) /\
  ((5 < String.length s)%nat ->
   exists ws,
     fix_league py s = join " " ws /\ Forall is_word ws /\
     ws = map capitalize (String.words s) /\
     Forall (fun x => capitalize x = x) ws).
Proof.
  intros Hpy Hs.
  rewrite (fix_league_on_ascii py (lower s) Hpy (ascii_text_lower s Hs)).
  rewrite (fix_league_on_ascii py s Hpy Hs).
  unfold fix_league, ascii_methods. cbn [py_len py_upper py_capitalize py_split].
  split; [|split].
  - rewrite length_lower.
    destruct (5 <? String.length s)%nat.
    + rewrite words_lower, map_map.
      f_equal. apply map_ext. intros x. apply capitalize_lower.
    + apply upper_lower.
  - intros H. rewrite (proj2 (Nat.ltb_ge _ _) H).
    split; [done | apply length_upper].
  - intros H. rewrite (proj2 (Nat.ltb_lt _ _) H).
    eexists. split; [reflexivity|]. split; [|split; [done|]].
    + apply Forall_fmap. eapply Forall_impl; [by apply (words_go_words None)|].
      intros x. apply capitalize_word.
    + apply Forall_fmap, Forall_forall. intros x _. simpl.
      destruct x as [|a r]; [done|]. simpl.
      by rewrite upper_ascii_idem, lower_idem.
Qed.

End case_facts.

Lemma X23_fix_league_ignores_case_witness :
  fix_league ascii_methods "  premier   LEAGUE " = "Premier League" /\
  fix_league ascii_methods (lower "  premier   LEAGUE ")
    = fix_league ascii_methods "  premier   LEAGUE " /\
  fix_league ascii_methods "nba" = "NBA".
Proof.
  assert (on_ascii ascii_methods) as Hpy by (intros s _; by repeat split).
  destruct (X23_fix_league_ignores_case ascii_methods "  premier   LEAGUE " Hpy eq_refl)
    as (Hcase & _ & _).
  split; [reflexivity|]. split; [exact Hcase | reflexivity].
Defined.

(** ** The tvpass adapter *)

Section tvpass_facts.
Context (info : string -> option string * string).

Lemma ends_with_app (suffix s : string) :
  ends_with suffix s = true -> exists pre, s = pre +:+ suffix.
Proof.
  induction s as [|a s IH].
  - simpl. rewrite orb_false_r. intros H%bool_decide_eq_true. subst. by exists "".
  - cbn [ends_with]. intros [H|H]%orb_true_iff.
    + apply bool_decide_eq_true in H. subst. by exists "".
    + destruct (IH H) as [pre ->]. by exists (String a pre).
Qed.

Lemma split_on_last_two (pre : string) :
  exists parts x, split_on "/"%char (pre +:+ "/sd") = parts ++ [x; "sd"].
Proof.
  induction pre as [|a pre (parts & x & IH)].
  - by exists [], "".
  - change (String a pre +:+ "/sd") with (String a (pre +:+ "/sd")).
    cbn [split_on]. rewrite IH. destruct (decide (a = "/"%char)).
    + by exists ("" :: parts), x.
    + destruct parts as [|h t]; simpl.
      * by exists [], (String a x).
      * by exists (String a h :: t), x.
Qed.

(** The guard on the link makes the access to the last segment but one
    safe. *)
Lemma second_last_of_sd (url : string) :
  ends_with "/sd" url = true ->
  exists channel, second_last (split_on "/"%char url) = Returned channel.
Proof.
  intros [pre ->]%ends_with_app. destruct (split_on_last_two pre) as (parts & x & ->).
  exists x. unfold second_last. by rewrite rev_app_distr.
Qed.

(** An entry as the loop stores it. *)
Definition tvpass_stored (now_ts : Z) (e : entry) : Prop :=
  (exists channel, e_url e = Some (tvpass.stream_url channel)) /\
  e_base e = "https://tvpass.org" /\ e_timestamp e = now_ts /\ e_href e = None.

(** A line that begins an entry and has a name and a group. *)
Definition complete_line (line : string) : Prop :=
  starts_with "#EXTINF" line = true ->
  is_Some (attribute "tvg-name" line) /\ is_Some (attribute "group-title" line).

Lemma visit_spec (now_ts : Z) (data : list string) (urls : gmap string entry) :
  let res := tvpass.visit info now_ts data urls in
  (forall k e, snd res !! k = Some e -> urls !! k = Some e \/ tvpass_stored now_ts e) /\
  (forall k, is_Some (urls !! k) -> is_Some (snd res !! k)) /\
  (forall e, fst res = Raised e -> e = IndexError \/ e = TypeError) /\
  (fst res = Raised IndexError ->
   exists init line,
     data = init ++ [line] /\ starts_with "#EXTINF" line = true /\
     truthy (attribute "tvg-id" line) = false) /\
  (Forall complete_line data ->
   (forall line, last data = Some line -> starts_with "#EXTINF" line = false) ->
   fst res = Returned tt).
Proof.
  revert urls. induction data as [|line following IH]; intros urls; cbn [tvpass.visit].
  - simpl. repeat split; auto; done.
  - assert (forall urls1,
      (forall k e, urls1 !! k = Some e -> urls !! k = Some e \/ tvpass_stored now_ts e) ->
      (forall k, is_Some (urls !! k) -> is_Some (urls1 !! k)) ->
      following <> [] ->
      let res := tvpass.visit info now_ts following urls1 in
      (forall k e, snd res !! k = Some e -> urls !! k = Some e \/ tvpass_stored now_ts e) /\
      (forall k, is_Some (urls !! k) -> is_Some (snd res !! k)) /\
      (forall e, fst res = Raised e -> e = IndexError \/ e = TypeError) /\
      (fst res = Raised IndexError ->
       exists init l0,
         line :: following = init ++ [l0] /\ starts_with "#EXTINF" l0 = true /\
         truthy (attribute "tvg-id" l0) = false) /\
      (Forall complete_line (line :: following) ->
       (forall l0, last (line :: following) = Some l0 -> starts_with "#EXTINF" l0 = false) ->
       fst res = Returned tt)) as Hnext.
    { intros urls1 Horigin Hmono Hne res.
      destruct (IH urls1) as (H1 & H2 & H3 & H4 & H5). fold res in H1, H2, H3, H4, H5.
      split; [|split; [|split; [|split]]].
      - intros k e Hk. destruct (H1 k e Hk) as [H|H]; [by apply Horigin | by right].
      - intros k Hk. by apply H2, Hmono.
      - done.
      - intros Hr. destruct (H4 Hr) as (init & l0 & -> & Hl0). by exists (line :: init), l0.
      - intros Hall Hlast. apply H5; [by inversion Hall|].
        intros l0 Hl0. apply Hlast. destruct following; [done|]. exact Hl0. }
    assert (forall urls1,
      (forall k e, urls1 !! k = Some e -> urls !! k = Some e \/ tvpass_stored now_ts e) ->
      (forall k, is_Some (urls !! k) -> is_Some (urls1 !! k)) ->
      let res := tvpass.visit info now_ts following urls1 in
      (forall k e, snd res !! k = Some e -> urls !! k = Some e \/ tvpass_stored now_ts e) /\
      (forall k, is_Some (urls !! k) -> is_Some (snd res !! k)) /\
      (forall e, fst res = Raised e -> e = IndexError \/ e = TypeError) /\
      (fst res = Raised IndexError ->
       exists init l0,
         line :: following = init ++ [l0] /\ starts_with "#EXTINF" l0 = true /\
         truthy (attribute "tvg-id" l0) = false) /\
      (Forall complete_line (line :: following) ->
       (forall l0, last (line :: following) = Some l0 -> starts_with "#EXTINF" l0 = false) ->
       fst res = Returned tt)) as Hgo.
    { intros urls1 Horigin Hmono. destruct (decide (following = [])) as [->|Hne].
      - simpl. repeat split; auto; done.
      - by apply Hnext. }
    destruct (starts_with "#EXTINF" line) eqn:Hext; [|by apply Hgo; auto].
    destruct (truthy (attribute "tvg-id" line)) eqn:Htvg; [by apply Hgo; auto|].
    destruct following as [|url rest] eqn:Hf.
    { simpl. split; [auto|]. split; [auto|]. split; [intros e [= <-]; by left|].
      split.
      - intros _. by exists [], line.
      - intros _ Hlast. specialize (Hlast line eq_refl). congruence. }
    rewrite <- Hf in *.
    destruct (ends_with "/sd" url) eqn:Hsd; [|by apply Hgo; auto].
    destruct (attribute "tvg-name" line) as [tvg_name|] eqn:Hname.
    2:{ simpl. split; [auto|]. split; [auto|]. split; [intros e [= <-]; by right|].
        split; [done|]. intros Hall _. inversion Hall as [|? ? Hc _]; subst.
        destruct (Hc Hext) as [[? ?] _]. congruence. }
    destruct (truthy (Some tvg_name)) eqn:Htn; [|by apply Hgo; auto].
    destruct (attribute "group-title" line) as [group_title|] eqn:Hgroup.
    2:{ simpl. split; [auto|]. split; [auto|]. split; [intros e [= <-]; by right|].
        split; [done|]. intros Hall _. inversion Hall as [|? ? Hc _]; subst.
        destruct (Hc Hext) as [_ [? ?]]. congruence. }
    destruct (second_last_of_sd url Hsd) as [channel ->].
    apply Hgo.
    + intros k e. rewrite lookup_insert_Some. intros [[_ <-] | [_ H]]; [right | by left].
      split; [by exists channel | done].
    + intros k Hk. rewrite lookup_insert_is_Some.
      destruct (decide (tvpass.key_of (strip (upper group_title))
                          (strip (before_last "(" tvg_name)) = k)); [by left | by right].
Qed.

(** X24.  [tvpass.scrape] with something in its cache returns at once:
    the cached entries go into [urls], nothing is fetched or written.  With
    an empty cache and no playlist it returns without writing.  Otherwise
    it reads the playlist: each entry it stores has a stream URL built from
    the last segment but one of the link, which the guard on the ending of
    the link makes sure exists; it writes [urls] to the cache only when the
    loop has come to its end; it raises nothing but [IndexError], and this
    only when the last line of the playlist begins an entry without tvg id,
    and [TypeError], when such a line lacks a name or a group; it returns
    when every line that begins an entry has both and the last line does
    not begin one. *)
Theorem X24_tvpass_scrape_outcome (now_ts : Z) (file : Cache.file_content)
    (urls0 : gmap string entry) (fetched : list string) :
  let cached := Cache.load tvpass.exp now_ts file in
  let run := tvpass.scrape info now_ts file urls0 fetched in
  (cached <> ∅ ->
   run = (Returned tt, AdapterState cached (dict_update urls0 cached) None)) /\
  (cached = ∅ -> fetched = [] -> run = (Returned tt, AdapterState cached urls0 None)) /\
  (forall e, fst run = Raised e -> e = IndexError \/ e = TypeError) /\
  (fst run = Raised IndexError ->
   exists init line,
     fetched = init ++ [line] /\ starts_with "#EXTINF" line = true /\
     truthy (attribute "tvg-id" line) = false) /\
  (forall k e, urls (snd run) !! k = Some e ->
     urls0 !! k = Some e \/ cached !! k = Some e \/ tvpass_stored now_ts e) /\
  (forall w, written (snd run) = Some w -> w = urls (snd run) /\ fst run = Returned tt) /\
  (Forall complete_line fetched ->
   (forall line, last fetched = Some line -> starts_with "#EXTINF" line = false) ->
   fst run = Returned tt) /\
  (forall url, ends_with "/sd" url = true ->
     exists channel, second_last (split_on "/"%char url) = Returned channel).
Proof.
  intros cached run. subst run. unfold tvpass.scrape. fold cached.
  destruct (decide (cached = ∅)) as [Hempty|Hfull].
  - pose proof (visit_spec now_ts fetched urls0) as (H1 & H2 & H3 & H4 & H5).
    destruct fetched as [|l0 ls] eqn:Hf.
    { simpl. split; [done|]. split; [done|]. split; [done|]. split; [done|].
      split; [auto|]. split; [done|]. split; [done|]. apply second_last_of_sd. }
    rewrite <- Hf in *.
    destruct (tvpass.visit info now_ts fetched urls0) as [[[]|e0] urls1]; simpl in *.
    + split; [done|]. split; [intros _ ->; congruence|]. split; [done|]. split; [done|].
      split; [intros k e Hk; destruct (H1 k e Hk); auto|].
      split; [by intros w [= <-]|]. split; [done|]. apply second_last_of_sd.
    + split; [done|]. split; [intros _ ->; congruence|]. split; [exact H3|].
      split; [exact H4|].
      split; [intros k e Hk; destruct (H1 k e Hk); auto|].
      split; [done|]. split; [exact H5|]. apply second_last_of_sd.
  - simpl. split; [done|]. split; [done|]. split; [done|]. split; [done|].
    split.
    { intros k e. rewrite dict_update_lookup.
      destruct (cached !! k) as [c|] eqn:Hc; [intros [= <-]; auto | auto]. }
    split; [done|]. split; [done|]. apply second_last_of_sd.
Qed.

End tvpass_facts.

(** ** The capture bridge: how long a resolution takes *)

Section duration_facts.
Import Network asyncio.

(** The inner block takes no longer than the inner timeout, and exactly
    the time until the event is set when it falls through. *)
Lemma wait_block_clock (fl : flavour) (env : page_env) (t0 : nat) (url_num : Z)
    (timeout : nat) (log : bool) (w : world) (r : outcome (option (option string)))
    (w' : world) :
  wait_block fl env t0 url_num timeout log w = Some (r, w') ->
  (clock w <= clock w' <= clock w + seconds timeout)%nat /\
  (wait_interrupt env = None ->
   clock w' =
     (clock w +
      match first_match_time (requests env) with
      | Some m =>
          if (m - (clock w - t0) <? seconds timeout)%nat then m - (clock w - t0)
          else seconds timeout
      | None => seconds timeout
      end)%nat).
Proof.
  unfold wait_block, bind at 1 2 3, now at 1, emit at 1.
  cbn -[await_wait_for try_finally].
  unfold await_wait_for, wait_for_interruptible, wait_elapsed.
  set (c := got_one_wait (requests env) (clock w - t0)).
  destruct (interrupts c (seconds timeout) (wait_interrupt env)) as [i|] eqn:Hi.
  - assert (i < seconds timeout)%nat as Hlt.
    { unfold interrupts in Hi. destruct (wait_interrupt env) as [j|]; [|done].
      destruct (_ && _) eqn:Hb; [|done]. injection Hi as <-.
      apply andb_true_iff in Hb as [Hb _]. by apply Nat.ltb_lt in Hb. }
    assert (wait_interrupt env <> None) as Hsome.
    { unfold interrupts in Hi. by destruct (wait_interrupt env). }
    intros H. split; [|done].
    destruct fl, log; run_M H; simplify_eq; simpl; lia.
  - assert (clock w + (if completes_before c (seconds timeout)
                       then default (seconds timeout) (duration c)
                       else seconds timeout) =
            clock w +
            match first_match_time (requests env) with
            | Some m =>
                if (m - (clock w - t0) <? seconds timeout)%nat then m - (clock w - t0)
                else seconds timeout
            | None => seconds timeout
            end)%nat as Hel.
    { unfold completes_before. subst c. simpl.
      destruct (first_match_time (requests env)) as [m|]; simpl; [|done].
      by destruct (m - (clock w - t0) <? seconds timeout)%nat. }
    assert (clock w + (if completes_before c (seconds timeout)
                       then default (seconds timeout) (duration c)
                       else seconds timeout) <= clock w + seconds timeout)%nat as Hle.
    { rewrite Hel. destruct (first_match_time (requests env)) as [m|]; [|lia].
      destruct (m - (clock w - t0) <? seconds timeout)%nat eqn:Hlt; [|lia].
      apply Nat.ltb_lt in Hlt. lia. }
    unfold wait_for. intros H.
    assert (clock w' = clock w + (if completes_before c (seconds timeout)
                                  then default (seconds timeout) (duration c)
                                  else seconds timeout))%nat as Hclock.
    { destruct (completes_before c (seconds timeout)), fl, log;
        run_M H; simplify_eq; done. }
    split; [lia|]. intros _. by rewrite Hclock, Hel.
Qed.

Lemma teardown_clock (env : page_env) (w : world) (r : outcome unit) (w' : world) :
  teardown env w = Some (r, w') -> clock w' = clock w.
Proof. unfold teardown. intros H. run_M H. by simplify_eq. Qed.

(** X25.  A call of [process_event] that comes back has spent, on the
    navigation and the wait for a capture, no more than the time of the
    navigation and the inner timeout.  With a logger, a page that opens,
    loads and closes without error and a caller that is not cancelled, it
    comes back as soon as the first accepted request has been issued and
    the navigation is over, when that is before the inner deadline, and at
    the inner deadline otherwise. *)
Theorem X25_process_event_duration (fl : flavour) (env : page_env) (url_num : Z)
    (timeout : nat) (log : bool) (w : world) (r : outcome (option string))
    (w' : world) :
  Network.process_event fl env url_num timeout log w = Some (r, w') ->
  (clock w <= clock w' <= clock w + goto_time env + seconds timeout)%nat /\
  (log = true -> new_page_res env = Returned tt -> goto_res env = Returned tt ->
   wait_interrupt env = None ->
   clock w' =
     match first_match_time (requests env) with
     | Some m =>
         if (m - goto_time env <? seconds timeout)%nat
         then (clock w + Nat.max (goto_time env) m)%nat
         else (clock w + goto_time env + seconds timeout)%nat
     | None => (clock w + goto_time env + seconds timeout)%nat
     end).
Proof.
  unfold Network.process_event, bind at 1 2 3 4, of_outcome at 1, emit at 1 2, now at 1.
  destruct (new_page_res env) as [[]|e0];
    [|simpl; intros [= <- <-]; split; [lia | done]].
  cbn -[wait_block try_finally try_except bind observed teardown Nat.ltb].
  set (w0 := World (clock w) (logs w) ((trace w ++ [NewPage]) ++ [On])).
  unfold try_finally.
  destruct (try_except _ _ _ w0) as [[o w1]|] eqn:Hbody; [|done].
  destruct (teardown env w1) as [[o2 w2]|] eqn:Htd; [|done].
  apply teardown_clock in Htd.
  intros Hfin.
  assert (w' = w2) as -> by (destruct o2 as [[]|]; by simplify_eq).
  clear Hfin. rewrite Htd. clear Htd.
  (* the guarded body and its handler *)
  assert (forall o3 w3,
    (emit Goto ;;
     tick (goto_time env) ;;
     of_outcome (goto_res env) ;;
     r <- wait_block fl env (clock w) url_num timeout log ;;
     match r with
     | Some v => ret v
     | None =>
         t <- now ;;
         match fst (observed (requests env) (t - clock w)) with
         | u :: _ => log_call log INFO (captured_msg url_num) ;; ret (Some u)
         | [] => log_call log WARNING (nothing_msg url_num) ;; ret None
         end
     end)%py w0 = Some (o3, w3) ->
    (clock w <= clock w3 <= clock w + goto_time env + seconds timeout)%nat /\
    (goto_res env = Returned tt -> wait_interrupt env = None ->
     clock w3 =
       match first_match_time (requests env) with
       | Some m =>
           if (m - goto_time env <? seconds timeout)%nat
           then (clock w + Nat.max (goto_time env) m)%nat
           else (clock w + goto_time env + seconds timeout)%nat
       | None => (clock w + goto_time env + seconds timeout)%nat
       end)) as Hinner.
  { intros o3 w3. unfold bind at 1 2 3, emit at 1, tick at 1, of_outcome at 1.
    cbn -[wait_block bind observed Nat.ltb].
    destruct (goto_res env) as [[]|e]; [|intros [= <- <-]; simpl; split; [lia | done]].
    unfold bind at 1.
    destruct (wait_block _ _ _ _ _ _ _) as [[o4 w4]|] eqn:Hw; [|done].
    apply wait_block_clock in Hw as [Hb Hexact]. cbn -[seconds Nat.ltb] in Hb, Hexact.
    intros H.
    assert (clock w3 = clock w4) as ->.
    { destruct o4 as [[v|]|e]; [| |by simplify_eq].
      - run_M H. by simplify_eq.
      - revert H. unfold bind at 1, now at 1.
        destruct (fst (observed _ _)); intros H; destruct log; run_M H; by simplify_eq. }
    split; [lia|]. intros _ Hi. rewrite (Hexact Hi).
    replace (clock w + goto_time env - clock w)%nat with (goto_time env) by lia.
    destruct (first_match_time (requests env)) as [m|]; [|lia].
    destruct (m - goto_time env <? seconds timeout)%nat; lia. }
  unfold try_except in Hbody.
  match type of Hbody with
  | match ?b w0 with _ => _ end = _ => destruct (b w0) as [[[x|e] w3]|] eqn:Hb
  end; [| |done].
  - simplify_eq. destruct (Hinner _ _ eq_refl) as [H1 H2]. split; [exact H1|].
    intros _ _ Hg Hi. by apply H2.
  - destruct (Hinner _ _ eq_refl) as [H1 H2].
    assert (clock w1 = clock w3) as ->.
    { destruct (is_Exception e); [|by simplify_eq].
      destruct log; run_M Hbody; by simplify_eq. }
    split; [exact H1|]. intros _ _ Hg Hi. by apply H2.
Qed.

End duration_facts.

Lemma X25_process_event_duration_witness :
  exists w',
    Network.process_event asyncio.CancelAndWait page_one_manifest 1 6 true world0
      = Some (Returned (Some "https://cdn.example/hls/index.m3u8"), w') /\
    clock w' = 800%nat.
Proof.
  destruct (Network.process_event asyncio.CancelAndWait page_one_manifest 1 6 true world0)
    as [[r w']|] eqn:Hrun; [|by vm_compute in Hrun].
  assert (r = Returned (Some "https://cdn.example/hls/index.m3u8")) as ->.
  { vm_compute in Hrun. congruence. }
  exists w'. split; [done|].
  destruct (X25_process_event_duration _ _ _ _ _ _ _ _ Hrun) as [_ Hexact].
  rewrite Hexact; reflexivity.
Defined.

(** ** streambtw: all or nothing *)

Section streambtw_facts.
Import streambtw.
Context (urljoin : string -> string -> string).
Context (get_tvg_info : string -> string -> outcome (option string * string)).

(** What the module dictionary holds for a card that was resolved. *)
Definition sbtw_stored (now_ts : Z) (cards : list card) (k : string) (en : entry)
  : Prop :=
  exists c href sport name,
    c ∈ cards /\ button c = Some href /\ truthy href = true /\
    card_title c = Some sport /\ card_text c = Some name /\
    k = key_of sport name /\
    truthy (e_url en) = true /\ e_base en = BASE_URL /\
    e_timestamp en = now_ts /\ e_href en = None.

Definition listed_of (cards : list card) (ev : listed) : Prop :=
  exists c href,
    c ∈ cards /\ button c = Some href /\ truthy href = true /\
    card_title c = Some (l_sport ev) /\ card_text c = Some (l_event ev).

Lemma list_cards_button (cards : list card) (events : list listed) :
  (exists c, c ∈ cards /\ button c = None) ->
  list_cards urljoin cards events = Raised AttributeError.
Proof.
  revert events. induction cards as [|c cards IH]; intros events [c' [Hin Hc']].
  - by apply elem_of_nil in Hin.
  - simpl. destruct (button c) as [href|] eqn:Hb; [|done].
    assert (exists c, c ∈ cards /\ button c = None) as Hrest.
    { apply elem_of_cons in Hin as [-> | Hin]; [congruence|]. by exists c'. }
    destruct (negb (truthy href)); [by apply IH|].
    destruct (card_title c); [|done]. destruct (card_text c); [|done].
    by apply IH.
Qed.

Lemma list_cards_listed (cards : list card) (events out : list listed)
    (P : listed -> Prop) :
  list_cards urljoin cards events = Returned out ->
  Forall P events -> (forall ev, listed_of cards ev -> P ev) ->
  Forall P out.
Proof.
  revert events. induction cards as [|c cards IH]; intros events Hrun Hev HP.
  - simpl in Hrun. by simplify_eq.
  - simpl in Hrun. destruct (button c) as [href|] eqn:Hb; [|done].
    assert (forall ev, listed_of cards ev -> P ev) as HP'.
    { intros ev (c' & h & Hin & ?). apply HP. exists c', h.
      split; [by apply elem_of_cons; right | done]. }
    destruct (truthy href) eqn:Ht; simpl in Hrun; [|by eapply IH].
    destruct (card_title c) as [sport|] eqn:Hs; [|done].
    destruct (card_text c) as [name|] eqn:Hn; [|done].
    eapply IH; [exact Hrun | | exact HP'].
    apply Forall_app. split; [done|]. apply Forall_singleton.
    apply HP. exists c, href. simpl. repeat split; try done. by apply elem_of_cons; left.
Qed.

Lemma sbtw_resolve_all_inv (resolve : Z -> listed -> outcome (option string))
    (now_ts : Z) (cards : list card) (urls0 : gmap string entry)
    (events : list listed) (i : Z) (st : adapter_state) (r : outcome unit)
    (st' : adapter_state) :
  resolve_all get_tvg_info resolve now_ts i events st = (r, st') ->
  Forall (listed_of cards) events ->
  (forall k en, urls st !! k = Some en ->
     urls0 !! k = Some en \/ sbtw_stored now_ts cards k en) ->
  cached_urls st' = cached_urls st /\ written st' = written st /\
  (forall k, is_Some (urls st !! k) -> is_Some (urls st' !! k)) /\
  (forall k en, urls st' !! k = Some en ->
     urls0 !! k = Some en \/ sbtw_stored now_ts cards k en).
Proof.
  revert i st. induction events as [|ev events IH]; intros i st Hrun Hev Hinv.
  - simpl in Hrun. by simplify_eq.
  - apply Forall_cons in Hev as [Hhd Hev]. simpl in Hrun.
    destruct (resolve i ev) as [url|e]; [|by simplify_eq].
    destruct (truthy url) eqn:Hurl; [|by eapply IH].
    destruct (get_tvg_info _ _) as [[tvg_id logo]|e]; [|by simplify_eq].
    apply IH in Hrun as (H1 & H2 & H3 & H4); [|done|].
    + repeat split; [done | done | | done].
      intros k Hk. apply H3. simpl. apply lookup_insert_is_Some'. by right.
    + simpl. intros k en [[<- <-] | [_ Hk]]%lookup_insert_Some; [|by apply Hinv].
      right. destruct Hhd as (c & href & Hin & Hb & Ht & Hs & Hn).
      by exists c, href, (l_sport ev), (l_event ev).
Qed.

(** X26.  [streambtw.scrape] is all or nothing.  With any entry loaded from
    its cache it only merges the loaded entries into the module dictionary:
    it fetches nothing, resolves nothing and writes nothing.  With nothing
    loaded: when the front page cannot be fetched it writes the module
    dictionary as it stands and returns; a card without its button makes it
    raise [AttributeError] before anything is resolved or written; and
    when it returns, it has written the whole module dictionary, which
    keeps every key it had and where every entry that is not an old one
    belongs to a card with a link, title and text, has a URL, the site as
    base and the one time stamp read for this run. *)
Theorem X26_streambtw_scrape_all_or_nothing (cached urls0 : gmap string entry)
    (page : outcome (list card)) (now_ts : Z)
    (resolve : Z -> listed -> outcome (option string)) :
  let res := scrape urljoin get_tvg_info cached urls0 page now_ts resolve in
  (cached <> ∅ ->
   res = (Returned tt, AdapterState cached (dict_update urls0 cached) None)) /\
  (cached = ∅ ->
   (forall e, page = Raised e -> is_Exception e = true ->
      res = (Returned tt, AdapterState ∅ urls0 (Some urls0))) /\
   (forall cards, page = Returned cards ->
      (exists c, c ∈ cards /\ button c = None) ->
      res = (Raised AttributeError, AdapterState ∅ urls0 None)) /\
   (forall cards st, page = Returned cards -> res = (Returned tt, st) ->
      cached_urls st = ∅ /\ written st = Some (urls st) /\
      (forall k, is_Some (urls0 !! k) -> is_Some (urls st !! k)) /\
      (forall k en, urls st !! k = Some en ->
         urls0 !! k = Some en \/ sbtw_stored now_ts cards k en))).
Proof.
  intros res. subst res. unfold scrape. split.
  - intros Hne. by rewrite bool_decide_eq_true_2.
  - intros ->. rewrite bool_decide_eq_false_2 by (intros H; by apply H).
    split; [|split].
    + intros e -> He. simpl. by rewrite He.
    + intros cards -> Hc. simpl. by rewrite (list_cards_button cards [] Hc).
    + intros cards st -> Hres. simpl in Hres.
      destruct (list_cards urljoin cards []) as [events|e] eqn:Hl; [|done].
      assert (Forall (listed_of cards) events) as Hev.
      { eapply list_cards_listed; [exact Hl | done | done]. }
      destruct (resolve_all _ _ _ _ _ _) as [[[]|e] st'] eqn:Hrun; [|done].
      injection Hres as <-.
      eapply (sbtw_resolve_all_inv _ _ cards urls0) in Hrun as (H1 & H2 & H3 & H4);
        [|exact Hev|by left].
      simpl in *. repeat split; done.
Qed.

End streambtw_facts.
